(** * libmot / tracker / DAN / transforms.py

    A shallow embedding of the augmentation transforms of the DAN tracker
    (src/libmot/tracker/DAN/transforms.py) and the properties of its
    geometric and label-matrix stages.

    Numbers: the source computes on float32/float64 arrays; the embedding
    uses exact rationals [Q], so every statement is about the arithmetic the
    code writes down, not about rounding.  The two infinite floats the code
    uses ([float('inf')], [float('-inf')], [np.inf]) are explicit
    constructors.

    Randomness: the source draws from numpy's global generator.  The
    embedding threads a [world] through every draw: a tape of unit-interval
    rationals and a cursor into it. *)

From Stdlib Require Import QArith Qminmax Qround ZArith List Bool Lia Lqa Arith PeanoNat
  Permutation.
From Stdlib Require String FinFun.
Import ListNotations.

Local Open Scope Q_scope.

(** ** Python values and exceptions *)

Inductive exn : Type :=
| ValueError
| IndexError
| TypeError
| AttributeError
| AssertionError
| ZeroDivisionError
| NotImplementedError.

Inductive result (A : Type) : Type :=
| Ok (a : A)
| Raised (e : exn).
Arguments Ok {A} a.
Arguments Raised {A} e.

(** A float bound that may be infinite ([float('-inf')], [float('inf')]). *)
Inductive bound : Type :=
| NegInf
| Fin (q : Q)
| PosInf.

Definition Qltb (a b : Q) : bool := negb (Qle_bool b a).

(** [q < b] for a finite float [q] and a bound [b]. *)
Definition lt_q_bound (q : Q) (b : bound) : bool :=
  match b with
  | NegInf => false
  | Fin r => Qltb q r
  | PosInf => true
  end.

(** [b < q] for a bound [b] and a finite float [q]. *)
Definition lt_bound_q (b : bound) (q : Q) : bool :=
  match b with
  | NegInf => true
  | Fin r => Qltb r q
  | PosInf => false
  end.

(** The order the spec's acceptance constraint is written in. *)
Definition bound_le_q (b : bound) (q : Q) : Prop :=
  match b with
  | NegInf => True
  | Fin r => r <= q
  | PosInf => False
  end.

Definition q_le_bound (q : Q) (b : bound) : Prop :=
  match b with
  | NegInf => False
  | Fin r => q <= r
  | PosInf => True
  end.

(** Python's [int(x)] on a float: truncation toward zero. *)
Definition py_int (x : Q) : Z := Z.quot (Qnum x) (Zpos (Qden x)).

(** ** Arrays *)

(** A frame: an H x W x C array, as its shape and its entries. *)
Record image : Type := mkImage {
  height : nat;
  width : nat;
  depth : nat;
  px : nat -> nat -> nat -> Q
}.

(** [im.shape] *)
Definition shape (im : image) : nat * nat * nat :=
  (height im, width im, depth im).

(** A row of an N x 4 box array, [(x1, y1, x2, y2)]. *)
Record box : Type := mkBox { x1 : Q; y1 : Q; x2 : Q; y2 : Q }.

(** The correspondence matrix: a 2-D array, as its shape and its entries. *)
Record matrix : Type := mkMat {
  nrow : nat;
  ncol : nat;
  entry : nat -> nat -> Q
}.

(** One end of a Python slice on an axis of length [n]: a negative index
    counts from the end, and both ends are clipped to the axis. *)
Definition slice_end (n : nat) (i : Z) : nat :=
  if (i <? 0)%Z then Z.to_nat (Z.of_nat n + i) else Nat.min (Z.to_nat i) n.

(** [a[lo:hi]] on an axis of length [n]: first index and length. *)
Definition py_slice (n : nat) (lo hi : Z) : nat * nat :=
  let s := slice_end n lo in
  let e := slice_end n hi in
  (s, (e - s)%nat).

(** [image[r_lo:r_hi, c_lo:c_hi, :]] *)
Definition image_slice (im : image) (r_lo r_hi c_lo c_hi : Z) : image :=
  let '(rs, rl) := py_slice (height im) r_lo r_hi in
  let '(cs, cl) := py_slice (width im) c_lo c_hi in
  mkImage rl cl (depth im) (fun r c k => px im (rs + r) (cs + c) k).

(** Boolean-mask indexing of a list, [a[mask]] (lengths already checked). *)
Fixpoint bool_index {A : Type} (mask : list bool) (l : list A) : list A :=
  match mask, l with
  | m :: mask', a :: l' =>
      if m then a :: bool_index mask' l' else bool_index mask' l'
  | _, _ => []
  end.

(** The positions at which a boolean mask is [True], in increasing order. *)
Fixpoint true_indices_from (i : nat) (mask : list bool) : list nat :=
  match mask with
  | [] => []
  | m :: mask' =>
      if m then i :: true_indices_from (S i) mask'
      else true_indices_from (S i) mask'
  end.

Definition true_indices (mask : list bool) : list nat :=
  true_indices_from 0 mask.

(** [m[index, :]] for a boolean index over the rows. *)
Definition take_rows (m : matrix) (index : list bool) : matrix :=
  let idx := true_indices index in
  mkMat (length idx) (ncol m) (fun i j => entry m (nth i idx 0%nat) j).

(** [m[:, index]] for a boolean index over the columns. *)
Definition take_cols (m : matrix) (index : list bool) : matrix :=
  let idx := true_indices index in
  mkMat (nrow m) (length idx) (fun i j => entry m i (nth j idx 0%nat)).

(** [np.pad(m, [[0, extra], [0, 0]], mode='constant', constant_values=0.0)] *)
Definition pad_rows (m : matrix) (extra : nat) : matrix :=
  mkMat (nrow m + extra) (ncol m)
        (fun i j => if (i <? nrow m)%nat then entry m i j else 0).

(** [np.pad(m, [[0, 0], [0, extra]], mode='constant', constant_values=0.0)] *)
Definition pad_cols (m : matrix) (extra : nat) : matrix :=
  mkMat (nrow m) (ncol m + extra)
        (fun i j => if (j <? ncol m)%nat then entry m i j else 0).

(** [a.min()] and [a.max()] of a non-empty 1-D array. *)
Definition array_min (a : Q) (l : list Q) : Q := fold_left Qmin l a.
Definition array_max (a : Q) (l : list Q) : Q := fold_left Qmax l a.

(** ** RandomSampleCrop *)

(** A sampling mode: [None] (use the whole image) or a pair of optional
    IoU bounds. *)
Definition mode : Type := option (option Q * option Q).

Record RandomSampleCrop : Type := mkRandomSampleCrop {
  sample_options : list mode;
  max_object : nat
}.

(** [RandomSampleCrop.__init__] *)
Definition RandomSampleCrop_init (max_object : nat) : RandomSampleCrop :=
  mkRandomSampleCrop
    [ None;
      Some (Some (7 # 10), None);
      Some (Some (8 # 10), None);
      Some (Some (85 # 100), None);
      Some (Some (9 # 10), None);
      Some (None, None) ]
    max_object.

(** The integer rectangle [rect = [int(left), int(top), int(left + w),
    int(top + h)]]. *)
Definition crop_rect (w h left top : Q) : Z * Z * Z * Z :=
  (py_int left, py_int top, py_int (left + w), py_int (top + h)).

(** [np.c_[boxes[:, :2], boxes[:, 2:] - boxes[:, :2]]]: a box as x, y, w, h. *)
Definition to_xywh (b : box) : Q * Q * Q * Q :=
  (x1 b, y1 b, x2 b - x1 b, y2 b - y1 b).

(** The rejection test of the IoU check,
    [overlap.min() < min_iou and max_iou < overlap.max()]. *)
Definition iou_check_rejects (o : Q) (os : list Q) (min_iou max_iou : bound)
  : bool :=
  lt_q_bound (array_min o os) min_iou && lt_bound_q max_iou (array_max o os).

(** [centers = (boxes[:, :2] + boxes[:, 2:]) / 2.0] *)
Definition center_x (b : box) : Q := (x1 b + x2 b) / 2.
Definition center_y (b : box) : Q := (y1 b + y2 b) / 2.

(** One entry of [mask = m1 * m2]. *)
Definition center_mask (rect : Z * Z * Z * Z) (b : box) : bool :=
  let '(r0, r1, r2, r3) := rect in
  let m1 := Qltb (inject_Z r0) (center_x b) && Qltb (inject_Z r1) (center_y b) in
  let m2 := Qltb (center_x b) (inject_Z r2) && Qltb (center_y b) (inject_Z r3) in
  m1 && m2.

(** The four assignments that clip a surviving box to [rect] and re-base it
    to the crop's top-left corner. *)
Definition clip_rebase (rect : Z * Z * Z * Z) (b : box) : box :=
  let '(r0, r1, r2, r3) := rect in
  mkBox (Qmax (x1 b) (inject_Z r0) - inject_Z r0)
        (Qmax (y1 b) (inject_Z r1) - inject_Z r1)
        (Qmin (x2 b) (inject_Z r2) - inject_Z r0)
        (Qmin (y2 b) (inject_Z r3) - inject_Z r1).

Section Crop.

(** [libmot.utils.iou] is imported by the source file and defined elsewhere:
    IoU between each x, y, w, h box of an array and one rectangle. *)
Variable iou : list (Q * Q * Q * Q) -> Q * Q * Q * Q -> list Q.

(** [RandomSampleCrop.crop].  [Ok None] is the source's [return None]. *)
Definition crop (self : RandomSampleCrop) (im : image) (boxes : list box)
    (labels : option matrix) (md : mode) (min_iou max_iou : bound)
    (w h left top : Q) (isPre : bool)
  : result (option (image * list box * matrix)) :=
  let current_image := im in
  let rect := crop_rect w h left top in
  let '(r0, r1, r2, r3) := rect in
  let overlap := iou (map to_xywh boxes) (left, top, w, h) in
  match overlap with
  | [] => Raised ValueError
  | o :: os =>
      if iou_check_rejects o os min_iou max_iou then Ok None
      else
        let current_image := image_slice current_image r1 r3 r0 r2 in
        let mask := map (center_mask rect) boxes in
        if negb (existsb (fun m => m) mask) then Ok None
        else
          let current_boxes := bool_index mask boxes in
          if (max_object self <? length mask)%nat then Raised ValueError
          else
            let mask := mask ++ repeat false (max_object self - length mask) in
            let mask := map (fun m => Bool.eqb m false) mask in
            match labels with
            | None => Raised AttributeError
            | Some current_labels =>
                let h := nrow current_labels in
                let w := ncol current_labels in
                let index := map negb mask in
                if isPre then
                  if negb (length index =? h)%nat then Raised IndexError
                  else
                    let current_labels := take_rows current_labels index in
                    let current_labels :=
                      pad_rows current_labels (h - nrow current_labels) in
                    Ok (Some (current_image,
                              map (clip_rebase rect) current_boxes,
                              current_labels))
                else
                  if negb (length index =? w)%nat then Raised IndexError
                  else
                    let current_labels := take_cols current_labels index in
                    let current_labels :=
                      pad_cols current_labels (w - ncol current_labels) in
                    Ok (Some (current_image,
                              map (clip_rebase rect) current_boxes,
                              current_labels))
            end
  end.

End Crop.

(** Modelled from the spec: [libmot.utils.iou], which the source imports and
    which is not part of this file.  The spec describes it as the
    "box-overlap (IoU-style) computation between a set of boxes and a single
    rectangle", on x, y, w, h boxes: intersection area over union area. *)
Definition iou_one (r b : Q * Q * Q * Q) : Q :=
  let '(bx, by_, bw, bh) := b in
  let '(rx, ry, rw, rh) := r in
  let iw := Qmax 0 (Qmin (bx + bw) (rx + rw) - Qmax bx rx) in
  let ih := Qmax 0 (Qmin (by_ + bh) (ry + rh) - Qmax by_ ry) in
  let inter := iw * ih in
  inter / (bw * bh + rw * rh - inter).

(** Modelled from the spec: [libmot.utils.iou] on an array of boxes, one
    value per box. *)
Definition iou_xywh (bs : list (Q * Q * Q * Q)) (r : Q * Q * Q * Q) : list Q :=
  map (iou_one r) bs.

(** ** The random source and the effect monad *)

(** [tape] is the sequence of unit-interval draws behind numpy's global
    generator and [cursor] the next position in it.  [trials] counts the
    passes through the body of RandomSampleCrop's [for _ in range(50)]
    loop; no transform reads it. *)
Record world : Type := mkWorld {
  tape : nat -> Q;
  cursor : nat;
  trials : nat
}.

Definition M (A : Type) : Type := world -> result A * world.

Definition ret {A : Type} (a : A) : M A := fun wd => (Ok a, wd).

Definition raise {A : Type} (e : exn) : M A := fun wd => (Raised e, wd).

Definition bind {A B : Type} (c : M A) (k : A -> M B) : M B :=
  fun wd =>
    match c wd with
    | (Ok a, wd') => k a wd'
    | (Raised e, wd') => (Raised e, wd')
    end.

Definition lift {A : Type} (r : result A) : M A := fun wd => (r, wd).

Notation "x <- c ;; k" := (bind c (fun x => k))
  (at level 61, c at next level, right associativity).
Notation "' pat <- c ;; k" := (bind c (fun x => match x with pat => k end))
  (at level 61, pat pattern, c at next level, right associativity).

(** One draw of the generator, a float in [0, 1). *)
Definition random_random : M Q :=
  fun wd => (Ok (tape wd (cursor wd)),
             mkWorld (tape wd) (S (cursor wd)) (trials wd)).

(** [random.uniform(low, high)] *)
Definition random_uniform (low high : Q) : M Q :=
  u <- random_random ;; ret (low + (high - low) * u).

(** [random.randint(n)]: an integer of [0, n). *)
Definition random_randint (n : nat) : M nat :=
  u <- random_random ;;
  ret (Z.to_nat (Qfloor (u * inject_Z (Z.of_nat n)))).

(** [random.choice(options)] *)
Definition random_choice {A : Type} (options : list A) : M A :=
  i <- random_randint (length options) ;;
  match nth_error options i with
  | Some a => ret a
  | None => raise ValueError
  end.

(** [random.random(n)]: [n] draws. *)
Fixpoint random_random_n (n : nat) : M (list Q) :=
  match n with
  | O => ret []
  | S n' => u <- random_random ;; us <- random_random_n n' ;; ret (u :: us)
  end.

Definition tick : M unit :=
  fun wd => (Ok tt, mkWorld (tape wd) (cursor wd) (S (trials wd))).

(** The five-tuple every transform takes and returns.  [img_next],
    [boxes_next] and [labels] default to [None]. *)
Record sample : Type := mkSample {
  img_pre : image;
  img_next : option image;
  boxes_pre : list box;
  boxes_next : option (list box);
  labels : option matrix
}.

Definition transform : Type := sample -> M sample.

Definition bound_of (b : option Q) (inf : bound) : bound :=
  match b with
  | None => inf
  | Some q => Fin q
  end.

Section RandomSampleCropCall.

Variable iou : list (Q * Q * Q * Q) -> Q * Q * Q * Q -> list Q.

(** The body of [for _ in range(50)].  [None] is a pass that ended in
    [continue], [Some s] a [return] from inside the loop.  The calls
    [random.uniform(width - w)] and [random.uniform(height - h)] give
    numpy's [low] only, so [high] is its default, 1.0. *)
Definition crop_trial (self : RandomSampleCrop) (s : sample)
    (md : mode) (min_iou max_iou : bound) (height width : Q)
  : M (option sample) :=
  _ <- tick ;;
  w <- random_uniform ((8 # 10) * width) width ;;
  h <- random_uniform ((8 # 10) * height) height ;;
  if Qeq_bool w 0 then raise ZeroDivisionError
  else if Qltb (h / w) (1 # 2) || Qltb 2 (h / w) then ret None
  else
    left <- random_uniform (width - w) 1 ;;
    top <- random_uniform (height - h) 1 ;;
    res_pre <- lift (crop iou self (img_pre s) (boxes_pre s) (labels s)
                          md min_iou max_iou w h left top true) ;;
    match res_pre with
    | None => ret None
    | Some (pre_img, pre_boxes, pre_labels) =>
        match img_next s with
        | Some next =>
            match boxes_next s with
            | None => raise TypeError
            | Some bn =>
                res_next <- lift (crop iou self next bn (Some pre_labels)
                                       md min_iou max_iou w h left top
                                       false) ;;
                match res_next with
                | None => ret None
                | Some (next_img, next_boxes, next_labels) =>
                    ret (Some (mkSample pre_img (Some next_img) pre_boxes
                                        (Some next_boxes)
                                        (Some next_labels)))
                end
            end
        | None =>
            ret (Some (mkSample pre_img None pre_boxes (boxes_next s)
                                (labels s)))
        end
    end.

(** [for _ in range(n)] around that body.  [None] is a loop that ran to
    its end. *)
Fixpoint crop_trials (n : nat) (self : RandomSampleCrop) (s : sample)
    (md : mode) (min_iou max_iou : bound) (height width : Q)
  : M (option sample) :=
  match n with
  | O => ret None
  | S n' =>
      r <- crop_trial self s md min_iou max_iou height width ;;
      match r with
      | Some s' => ret (Some s')
      | None => crop_trials n' self s md min_iou max_iou height width
      end
  end.

(** One pass through the body of [while True].  [None] is a pass that
    reached the end of the body, so that the loop goes around again. *)
Definition call_pass (self : RandomSampleCrop) (s : sample)
  : M (option sample) :=
  let height := inject_Z (Z.of_nat (height (img_pre s))) in
  let width := inject_Z (Z.of_nat (width (img_pre s))) in
  md <- random_choice (sample_options self) ;;
  match md with
  | None => ret (Some s)
  | Some (lo, hi) =>
      let min_iou := bound_of lo NegInf in
      let max_iou := bound_of hi PosInf in
      crop_trials 50 self s (Some (lo, hi)) min_iou max_iou height width
  end.

(** [RandomSampleCrop.__call__].  [fuel] bounds the passes through
    [while True]; a first component [None] is a run that made all of them
    without returning or raising, with the world it reached. *)
Fixpoint RandomSampleCrop_call (fuel : nat) (self : RandomSampleCrop)
    (s : sample) (wd : world) : option (result sample) * world :=
  match fuel with
  | O => (None, wd)
  | S fuel' =>
      match call_pass self s wd with
      | (Raised e, wd') => (Some (Raised e), wd')
      | (Ok (Some s'), wd') => (Some (Ok s'), wd')
      | (Ok None, wd') => RandomSampleCrop_call fuel' self s wd'
      end
  end.

End RandomSampleCropCall.

(** ** Expand *)

Record Expand : Type := mkExpand {
  mean : list Q;
  max_expand : Q
}.

(** Index into an axis of an array that is broadcast when its length is 1. *)
Definition broadcast_index (len i : nat) : nat :=
  if (len =? 1)%nat then 0%nat else i.

Definition broadcasts_to (len target : nat) : bool :=
  (len =? target)%nat || (len =? 1)%nat.

(** [Expand.expand]: a canvas of [int(height * ratio)] by
    [int(width * ratio)] filled with the mean, and the frame pasted at
    [int(top):int(top + height), int(left):int(left + width)]. *)
Definition expand (self : Expand) (im : image) (height width depth : nat)
    (ratio left top : Q) : result image :=
  let '(im_h, im_w, im_d) := shape im in
  let rows := py_int (inject_Z (Z.of_nat height) * ratio) in
  let cols := py_int (inject_Z (Z.of_nat width) * ratio) in
  if (rows <? 0)%Z || (cols <? 0)%Z then Raised ValueError
  else if negb (broadcasts_to (length (mean self)) depth) then Raised ValueError
  else
    let rows := Z.to_nat rows in
    let cols := Z.to_nat cols in
    let '(rs, rl) :=
      py_slice rows (py_int top) (py_int (top + inject_Z (Z.of_nat height))) in
    let '(cs, cl) :=
      py_slice cols (py_int left) (py_int (left + inject_Z (Z.of_nat width))) in
    if negb (broadcasts_to im_h rl
             && broadcasts_to im_w cl
             && broadcasts_to im_d depth)
    then Raised ValueError
    else
      Ok (mkImage rows cols depth
            (fun r c k =>
               if ((rs <=? r) && (r <? rs + rl) && (cs <=? c) && (c <? cs + cl))%nat
               then px im (broadcast_index im_h (r - rs))
                          (broadcast_index im_w (c - cs))
                          (broadcast_index im_d k)
               else nth (broadcast_index (length (mean self)) k)
                        (mean self) 0)).

(** [boxes[:, :2] += (dx, dy); boxes[:, 2:] += (dx, dy)] *)
Definition shift_box (dx dy : Z) (b : box) : box :=
  mkBox (x1 b + inject_Z dx) (y1 b + inject_Z dy)
        (x2 b + inject_Z dx) (y2 b + inject_Z dy).

(** [Expand.__call__] *)
Definition Expand_call (self : Expand) : transform := fun s =>
  skip <- random_randint 2 ;;
  if negb (skip =? 0)%nat then ret s
  else
    let height := height (img_pre s) in
    let width := width (img_pre s) in
    let depth := depth (img_pre s) in
    ratio <- random_uniform 1 (max_expand self) ;;
    left <- random_uniform 0 (inject_Z (Z.of_nat width) * ratio
                              - inject_Z (Z.of_nat width)) ;;
    top <- random_uniform 0 (inject_Z (Z.of_nat height) * ratio
                             - inject_Z (Z.of_nat height)) ;;
    pre <- lift (expand self (img_pre s) height width depth ratio left top) ;;
    let bp := map (shift_box (py_int left) (py_int top)) (boxes_pre s) in
    match img_next s with
    | Some next =>
        nxt <- lift (expand self next height width depth ratio left top) ;;
        match boxes_next s with
        | None => raise AttributeError
        | Some bn =>
            ret (mkSample pre (Some nxt) bp
                          (Some (map (shift_box (py_int left) (py_int top)) bn))
                          (labels s))
        end
    | None => ret (mkSample pre None bp (boxes_next s) (labels s))
    end.

(** ** RandomMirror *)

(** [RandomMirror.mirror] *)
Definition mirror (im : image) (boxes : list box) : image * list box :=
  let width := width im in
  let flipped :=
    mkImage (height im) width (depth im)
            (fun r c k => px im r (width - 1 - c)%nat k) in
  (flipped,
   map (fun b => mkBox (inject_Z (Z.of_nat width) - x1 b) (y1 b)
                       (inject_Z (Z.of_nat width) - x2 b) (y2 b))
       boxes).

(** [RandomMirror.__call__] *)
Definition RandomMirror_call : transform := fun s =>
  flip <- random_randint 2 ;;
  if negb (flip =? 0)%nat then
    let res_pre := mirror (img_pre s) (boxes_pre s) in
    match img_next s with
    | Some next =>
        match boxes_next s with
        | None => raise AttributeError
        | Some bn =>
            let res_next := mirror next bn in
            ret (mkSample (fst res_pre) (Some (fst res_next)) (snd res_pre)
                          (Some (snd res_next)) (labels s))
        end
    | None =>
        ret (mkSample (fst res_pre) None (snd res_pre) (boxes_next s)
                      (labels s))
    end
  else ret s.

(** ** ToPercentCoords *)

(** The four in-place divisions of one box array. *)
Definition percent_box (width height : Q) (b : box) : box :=
  mkBox (x1 b / width) (y1 b / height) (x2 b / width) (y2 b / height).

(** [ToPercentCoords.__call__]: both box arrays are divided by the shape
    of [img_pre]. *)
Definition ToPercentCoords_call : transform := fun s =>
  let height := inject_Z (Z.of_nat (height (img_pre s))) in
  let width := inject_Z (Z.of_nat (width (img_pre s))) in
  ret (mkSample (img_pre s) (img_next s)
                (map (percent_box width height) (boxes_pre s))
                (option_map (map (percent_box width height)) (boxes_next s))
                (labels s)).

(** Multiplying a box back by the frame size. *)
Definition scale_box (width height : Q) (b : box) : box :=
  mkBox (x1 b * width) (y1 b * height) (x2 b * width) (y2 b * height).

(** Coordinate-wise equality of boxes as rationals. *)
Definition box_eq (a b : box) : Prop :=
  x1 a == x1 b /\ y1 a == y1 b /\ x2 a == x2 b /\ y2 a == y2 b.

(** ** ResizeShuffleBoxes *)

(** An entry of a padded box array: a float or [np.inf]. *)
Inductive coord : Type :=
| Real (q : Q)
| Inf.

Definition padded_box : Type := (coord * coord * coord * coord)%type.

Definition row_of_box (b : box) : padded_box :=
  (Real (x1 b), Real (y1 b), Real (x2 b), Real (y2 b)).

Definition inf_row : padded_box := (Inf, Inf, Inf, Inf).

Record ResizeShuffleBoxes : Type := mkResizeShuffleBoxes {
  rsb_max_object : nat
}.

(** The lambda [resize_f]: the number of boxes, and the boxes stacked on
    [np.full((max_object - len(boxes), boxes.shape[1]), np.inf)]. *)
Definition resize_f (self : ResizeShuffleBoxes) (boxes : list box)
  : result (nat * list padded_box) :=
  if (rsb_max_object self <? length boxes)%nat then Raised ValueError
  else Ok (length boxes,
           map row_of_box boxes
           ++ repeat inf_row (rsb_max_object self - length boxes)).

(** [a[i] = v] on a list. *)
Fixpoint list_set {A : Type} (l : list A) (i : nat) (v : A) : list A :=
  match l, i with
  | [], _ => []
  | _ :: l', O => v :: l'
  | a :: l', S i' => a :: list_set l' i' v
  end.

(** [a[i], a[j] = a[j], a[i]] *)
Definition list_swap (l : list nat) (i j : nat) : list nat :=
  list_set (list_set l i (nth j l 0%nat)) j (nth i l 0%nat).

(** [np.random.shuffle] on a 1-D array: for [i] from [len - 1] down to 1,
    draw [j] in [0, i] and swap entries [i] and [j]. *)
Fixpoint shuffle_from (i : nat) (l : list nat) : M (list nat) :=
  match i with
  | O => ret l
  | S i' => j <- random_randint (S i) ;; shuffle_from i' (list_swap l i j)
  end.

Definition random_shuffle (l : list nat) : M (list nat) :=
  shuffle_from (length l - 1) l.

(** [m[indexes, :]] and [m[:, indexes]] for integer index arrays. *)
Definition index_rows (m : matrix) (indexes : list nat) : matrix :=
  mkMat (length indexes) (ncol m) (fun i j => entry m (nth i indexes 0%nat) j).

Definition index_cols (m : matrix) (indexes : list nat) : matrix :=
  mkMat (nrow m) (length indexes) (fun i j => entry m i (nth j indexes 0%nat)).

(** [m.sum(1)[i]] and [m.sum(0)[j]] *)
Definition row_sum (m : matrix) (i : nat) : Q :=
  fold_left (fun acc j => acc + entry m i j) (seq 0 (ncol m)) 0.

Definition col_sum (m : matrix) (j : nat) : Q :=
  fold_left (fun acc i => acc + entry m i j) (seq 0 (nrow m)) 0.

(** [(v == 0).astype(float)] on one entry. *)
Definition is_zero_float (v : Q) : Q := if Qeq_bool v 0 then 1 else 0.

(** [a[index] = 0.0] for a boolean index of the length of [a]. *)
Fixpoint zero_where (index : list bool) (a : list Q) : list Q :=
  match index, a with
  | i :: index', v :: a' => (if i then 0 else v) :: zero_where index' a'
  | _, _ => a
  end.

(** [np.concatenate((m, v[:, None]), axis=1)] and
    [np.concatenate((m, v[None, :]), axis=0)] *)
Definition concat_col (m : matrix) (v : list Q) : matrix :=
  mkMat (nrow m) (ncol m + 1)
        (fun i j => if (j <? ncol m)%nat then entry m i j else nth i v 0).

Definition concat_row (m : matrix) (v : list Q) : matrix :=
  mkMat (nrow m + 1) (ncol m)
        (fun i j => if (i <? nrow m)%nat then entry m i j else nth j v 0).

(** What [ResizeShuffleBoxes.__call__] returns: the box slots have become
    [[boxes, mask]] pairs. *)
Record shuffled : Type := mkShuffled {
  sh_img_pre : image;
  sh_img_next : option image;
  sh_boxes_pre : list padded_box * list bool;
  sh_boxes_next : option (list padded_box) * option (list bool);
  sh_labels : option matrix
}.

(** [ResizeShuffleBoxes.__call__] *)
Definition ResizeShuffleBoxes_call (self : ResizeShuffleBoxes) (s : sample)
  : M shuffled :=
  ' (size_pre, bp) <- lift (resize_f self (boxes_pre s)) ;;
  indexes_pre <- random_shuffle (seq 0 (rsb_max_object self)) ;;
  let bp := map (fun i => nth i bp inf_row) indexes_pre in
  let mask_pre := map (fun i => (i <? size_pre)%nat) indexes_pre in
  match img_next s with
  | Some next =>
      match boxes_next s with
      | None => raise AttributeError
      | Some bn =>
          ' (size_next, bn) <- lift (resize_f self bn) ;;
          indexes_next <- random_shuffle (seq 0 (rsb_max_object self)) ;;
          let bn := map (fun i => nth i bn inf_row) indexes_next in
          let mask_next := map (fun i => (i <? size_next)%nat) indexes_next in
          match labels s with
          | None => raise TypeError
          | Some lab =>
              if negb (forallb (fun i => (i <? nrow lab)%nat) indexes_pre)
              then raise IndexError
              else
                let lab := index_rows lab indexes_pre in
                if negb (forallb (fun j => (j <? ncol lab)%nat) indexes_next)
                then raise IndexError
                else
                  let lab := index_cols lab indexes_next in
                  let false_object_pre :=
                    map (fun i => is_zero_float (row_sum lab i))
                        (seq 0 (nrow lab)) in
                  let false_object_pre :=
                    zero_where (map negb mask_pre) false_object_pre in
                  let false_object_next :=
                    map (fun j => is_zero_float (col_sum lab j))
                        (seq 0 (ncol lab)) in
                  let false_object_next :=
                    zero_where (map negb mask_next) false_object_next in
                  let lab := concat_col lab false_object_pre in
                  let false_object_next := false_object_next ++ [0] in
                  let lab := concat_row lab false_object_next in
                  let mask_next := mask_next ++ [true] in
                  ret (mkShuffled (img_pre s) (Some next)
                                  (bp, mask_pre ++ [true])
                                  (Some bn, Some mask_next)
                                  (Some lab))
          end
      end
  | None =>
      ret (mkShuffled (img_pre s) None
                      (bp, mask_pre ++ [true])
                      (option_map (map row_of_box) (boxes_next s), None)
                      (labels s))
  end.

(** ** Constructors that take a range *)

Record MoveBoxes : Type := mkMoveBoxes {
  offset_low : Q;
  offset_high : Q;
  range : Q
}.

(** [MoveBoxes.__init__]: no statement of it raises. *)
Definition MoveBoxes_init (offset_low offset_high : Q) : result MoveBoxes :=
  let self_offset_low := Qmax offset_low 0 in
  let self_offset_high := Qmax offset_low offset_high in
  Ok (mkMoveBoxes self_offset_low self_offset_high
                  (self_offset_high - self_offset_low)).

Record RandomSaturation : Type := mkRandomSaturation {
  sat_lower : Q;
  sat_upper : Q
}.

(** [assert cond]: raises [AssertionError] when [cond] is false. *)
Definition assert (cond : bool) : result unit :=
  if cond then Ok tt else Raised AssertionError.

Definition then_ {A B : Type} (r : result A) (k : result B) : result B :=
  match r with
  | Ok _ => k
  | Raised e => Raised e
  end.

(** [RandomSaturation.__init__] *)
Definition RandomSaturation_init (lower upper : Q) : result RandomSaturation :=
  then_ (assert (Qle_bool lower upper))
        (then_ (assert (Qle_bool 0 lower))
               (Ok (mkRandomSaturation lower upper))).

Record RandomContrast : Type := mkRandomContrast {
  con_lower : Q;
  con_upper : Q
}.

(** [RandomContrast.__init__] *)
Definition RandomContrast_init (lower upper : Q) : result RandomContrast :=
  then_ (assert (Qle_bool lower upper))
        (then_ (assert (Qle_bool 0 lower))
               (Ok (mkRandomContrast lower upper))).

Record RandomBrightness : Type := mkRandomBrightness {
  bri_delta : Q
}.

(** [RandomBrightness.__init__] *)
Definition RandomBrightness_init (delta : Q) : result RandomBrightness :=
  then_ (assert (Qle_bool 0 delta))
        (then_ (assert (Qle_bool delta 255))
               (Ok (mkRandomBrightness delta))).

Record RandomHue : Type := mkRandomHue {
  hue_delta : Q
}.

(** [RandomHue.__init__] *)
Definition RandomHue_init (delta : Q) : result RandomHue :=
  then_ (assert (Qle_bool 0 delta && Qle_bool delta 360))
        (Ok (mkRandomHue delta)).

(** ** Compose and the transforms at the head of the training chain *)

(** [Compose.__call__] *)
Fixpoint Compose_call (transforms : list transform) : transform := fun s =>
  match transforms with
  | [] => ret s
  | t :: ts => s' <- t s ;; Compose_call ts s'
  end.

(** [ConvertFromInts.__call__]: [astype(np.float32)] keeps every value. *)
Definition ConvertFromInts_call : transform := fun s =>
  match img_next s with
  | Some next =>
      match boxes_next s with
      | None => raise AttributeError
      | Some bn =>
          ret (mkSample (img_pre s) (Some next) (boxes_pre s) (Some bn)
                        (labels s))
      end
  | None => ret (mkSample (img_pre s) None (boxes_pre s) (boxes_next s)
                          (labels s))
  end.

(** [np.clip(v, lo, hi)] *)
Definition np_clip (v lo hi : Q) : Q := Qmin (Qmax v lo) hi.

(** One row of the nested function [move] of [MoveBoxes.__call__], given
    its two draws [rw], [rh] and the two signs. *)
Definition move_box (self : MoveBoxes) (height width : Q) (sx sy : Q)
    (b : box) (r : Q * Q) : box :=
  let cx := (x1 b + x2 b) / 2 in
  let cy := (y1 b + y2 b) / 2 in
  let box_width := x2 b - x1 b in
  let box_height := y2 b - y1 b in
  let t_width := (x2 b - x1 b) * (range self * fst r + offset_low self) in
  let t_height := (y2 b - y1 b) * (range self * snd r + offset_low self) in
  let cx := cx + t_width * sx in
  let cy := cy + t_height * sy in
  mkBox (np_clip (cx - box_width / 2) 0 (width - 1))
        (np_clip (cy - box_height / 2) 0 (height - 1))
        (np_clip (cx + box_width / 2) 0 (width - 1))
        (np_clip (cy + box_height / 2) 0 (height - 1)).

Definition move (self : MoveBoxes) (im : image) (boxes : list box)
  : M (list box) :=
  let '(height, width, channels) := shape im in
  rws <- random_random_n (length boxes) ;;
  rhs <- random_random_n (length boxes) ;;
  sx <- random_choice [-(1); 1] ;;
  sy <- random_choice [-(1); 1] ;;
  ret (map (fun br => move_box self (inject_Z (Z.of_nat height))
                               (inject_Z (Z.of_nat width)) sx sy
                               (fst br) (snd br))
           (combine boxes (combine rws rhs))).

(** [MoveBoxes.__call__] *)
Definition MoveBoxes_call (self : MoveBoxes) : transform := fun s =>
  bp <- move self (img_pre s) (boxes_pre s) ;;
  match boxes_next s with
  | Some bn =>
      match img_next s with
      | None => raise AttributeError
      | Some next =>
          bn' <- move self next bn ;;
          ret (mkSample (img_pre s) (Some next) bp (Some bn') (labels s))
      end
  | None => ret (mkSample (img_pre s) (img_next s) bp None (labels s))
  end.

(** Entry-wise map over a frame, and over one channel of it. *)
Definition map_image (f : Q -> Q) (im : image) : image :=
  mkImage (height im) (width im) (depth im) (fun r c k => f (px im r c k)).

Definition map_channel (ch : nat) (f : Q -> Q) (im : image) : result image :=
  if (ch <? depth im)%nat then
    Ok (mkImage (height im) (width im) (depth im)
                (fun r c k => if (k =? ch)%nat then f (px im r c k)
                              else px im r c k))
  else Raised IndexError.

(** Applies a frame operation to [img_pre] and, when present, [img_next]. *)
Definition on_frames (f : image -> result image) : transform := fun s =>
  pre <- lift (f (img_pre s)) ;;
  match img_next s with
  | Some next =>
      nxt <- lift (f next) ;;
      ret (mkSample pre (Some nxt) (boxes_pre s) (boxes_next s) (labels s))
  | None => ret (mkSample pre None (boxes_pre s) (boxes_next s) (labels s))
  end.

(** [RandomBrightness.__call__] *)
Definition RandomBrightness_call (self : RandomBrightness) : transform :=
  fun s =>
    go <- random_randint 2 ;;
    if negb (go =? 0)%nat then
      delta <- random_uniform (- bri_delta self) (bri_delta self) ;;
      on_frames (fun im => Ok (map_image (fun v => v + delta) im)) s
    else ret s.

(** [RandomContrast.__call__] *)
Definition RandomContrast_call (self : RandomContrast) : transform :=
  fun s =>
    go <- random_randint 2 ;;
    if negb (go =? 0)%nat then
      alpha <- random_uniform (con_lower self) (con_upper self) ;;
      on_frames (fun im => Ok (map_image (fun v => v * alpha) im)) s
    else ret s.

(** [RandomSaturation.__call__] *)
Definition RandomSaturation_call (self : RandomSaturation) : transform :=
  fun s =>
    go <- random_randint 2 ;;
    if negb (go =? 0)%nat then
      alpha <- random_uniform (sat_lower self) (sat_upper self) ;;
      on_frames (map_channel 1 (fun v => v * alpha)) s
    else ret s.

(** The three statements of [RandomHue.__call__] on one hue value. *)
Definition hue_shift (delta v : Q) : Q :=
  let v := v + delta in
  let v := if Qltb 360 v then v - 360 else v in
  if Qltb v 0 then v + 360 else v.

(** [RandomHue.__call__] *)
Definition RandomHue_call (self : RandomHue) : transform := fun s =>
  go <- random_randint 2 ;;
  if negb (go =? 0)%nat then
    delta <- random_uniform (- hue_delta self) (hue_delta self) ;;
    on_frames (map_channel 0 (hue_shift delta)) s
  else ret s.

(** [SwapChannels.__call__]: [image[:, :, self.swaps]] *)
Definition SwapChannels_call (swaps : list nat) (im : image) : result image :=
  if forallb (fun k => (k <? depth im)%nat) swaps then
    Ok (mkImage (height im) (width im) (length swaps)
                (fun r c k => px im r c (nth k swaps 0%nat)))
  else Raised IndexError.

Definition perms : list (list nat) :=
  [ [0; 1; 2]; [0; 2; 1]; [1; 0; 2]; [1; 2; 0]; [2; 0; 1]; [2; 1; 0] ]%nat.

(** [RandomLightingNoise.__call__] *)
Definition RandomLightingNoise_call : transform := fun s =>
  go <- random_randint 2 ;;
  if negb (go =? 0)%nat then
    i <- random_randint (length perms) ;;
    match nth_error perms i with
    | None => raise IndexError
    | Some swap => on_frames (SwapChannels_call swap) s
    end
  else ret s.

(** The colour-space names [ConvertColor] compares against. *)
Module ColorNames.
Import String.
Definition BGR : string := "BGR".
Definition HSV : string := "HSV".
End ColorNames.
Import ColorNames.

Section Photometric.

(** [cv2.cvtColor(img, cv2.COLOR_BGR2HSV)] and
    [cv2.cvtColor(img, cv2.COLOR_HSV2BGR)], from OpenCV. *)
Variable cvtColor_BGR2HSV : image -> image.
Variable cvtColor_HSV2BGR : image -> image.

Record ConvertColor : Type := mkConvertColor {
  cc_current : String.string;
  cc_transform : String.string
}.

(** [ConvertColor.__call__] *)
Definition ConvertColor_call (self : ConvertColor) : transform := fun s =>
  if String.eqb (cc_current self) BGR && String.eqb (cc_transform self) HSV
  then on_frames (fun im => Ok (cvtColor_BGR2HSV im)) s
  else if String.eqb (cc_current self) HSV
          && String.eqb (cc_transform self) BGR
  then on_frames (fun im => Ok (cvtColor_HSV2BGR im)) s
  else raise NotImplementedError.

Record PhotometricDistort : Type := mkPhotometricDistort {
  pd : list transform;
  rand_brightness : transform;
  rand_light_noise : transform
}.

(** [PhotometricDistort.__init__]: the constructors of its members run in
    the order of the source. *)
Definition PhotometricDistort_init
    (lower_contrast upper_constrast lower_saturation upper_saturation : Q)
  : result PhotometricDistort :=
  match RandomContrast_init lower_contrast upper_constrast with
  | Raised e => Raised e
  | Ok c1 =>
  match RandomSaturation_init lower_saturation upper_saturation with
  | Raised e => Raised e
  | Ok sat =>
  match RandomHue_init 18 with
  | Raised e => Raised e
  | Ok hue =>
  match RandomContrast_init lower_contrast upper_constrast with
  | Raised e => Raised e
  | Ok c2 =>
  match RandomBrightness_init 32 with
  | Raised e => Raised e
  | Ok bri =>
      Ok (mkPhotometricDistort
            [ RandomContrast_call c1;
              ConvertColor_call (mkConvertColor BGR HSV);
              RandomSaturation_call sat;
              RandomHue_call hue;
              ConvertColor_call (mkConvertColor HSV BGR);
              RandomContrast_call c2 ]
            (RandomBrightness_call bri)
            RandomLightingNoise_call)
  end end end end end.

(** [PhotometricDistort.__call__].  [img_next.copy()] is not guarded by a
    test for [None]. *)
Definition PhotometricDistort_call (self : PhotometricDistort) : transform :=
  fun s =>
    let im_pre := img_pre s in
    match img_next s with
    | None => raise AttributeError
    | Some im_next =>
        s1 <- rand_brightness self
                (mkSample im_pre (Some im_next) (boxes_pre s) (boxes_next s)
                          (labels s)) ;;
        go <- random_randint 2 ;;
        let distort :=
          if negb (go =? 0)%nat then Compose_call (removelast (pd self))
          else Compose_call (tl (pd self)) in
        s2 <- distort s1 ;;
        rand_light_noise self s2
    end.

(** ** DANAugmentation, type ['train'] *)

(** The entries of [cfg] read by the head of the training chain. *)
Record config : Type := mkConfig {
  lower_offset : Q;
  upper_offset : Q;
  lower_contrast : Q;
  upper_constrast : Q;
  lower_saturation : Q;
  upper_saturation : Q
}.

(** The part of the training chain after [PhotometricDistort]: [Expand],
    [RandomSampleCrop], [RandomMirror], [ToPercentCoords], [Resize],
    [SubtractMeans], [ResizeShuffleBoxes], [FormatBoxes] and [ToTensor],
    composed.  It ends in tensors, so its result type is open. *)
Variable tensors : Type.
Variable train_tail : sample -> M tensors.

(** [DANAugmentation.__init__] for [type='train'], followed by
    [DANAugmentation.__call__]. *)
Definition DANAugmentation_train (cfg : config)
  : result (sample -> M tensors) :=
  match MoveBoxes_init (lower_offset cfg) (upper_offset cfg) with
  | Raised e => Raised e
  | Ok mv =>
  match PhotometricDistort_init (lower_contrast cfg) (upper_constrast cfg)
                                (lower_saturation cfg) (upper_saturation cfg)
  with
  | Raised e => Raised e
  | Ok ph =>
      Ok (fun s =>
            s' <- Compose_call [ ConvertFromInts_call;
                                 MoveBoxes_call mv;
                                 PhotometricDistort_call ph ] s ;;
            train_tail s')
  end end.

End Photometric.

(** ** Predicates the properties are stated with *)

(** The center of [b] lies strictly inside the integer rectangle. *)
Definition center_inside (rect : Z * Z * Z * Z) (b : box) : Prop :=
  let '(r0, r1, r2, r3) := rect in
  inject_Z r0 < center_x b /\ inject_Z r1 < center_y b /\
  center_x b < inject_Z r2 /\ center_y b < inject_Z r3.

(** The sum of the first [n] entries of row [i], and of column [j]. *)
Definition row_sum_first (m : matrix) (i n : nat) : Q :=
  fold_left (fun acc j => acc + entry m i j) (seq 0 n) 0.

Definition col_sum_first (m : matrix) (j n : nat) : Q :=
  fold_left (fun acc i => acc + entry m i j) (seq 0 n) 0.

(** A box as the spec's data model wants it in a frame of [w] by [h]:
    ordered corners, every coordinate in [0, w) x [0, h). *)
Definition box_in_frame (w h : nat) (b : box) : Prop :=
  x1 b <= x2 b /\ y1 b <= y2 b /\
  0 <= x1 b /\ x2 b < inject_Z (Z.of_nat w) /\
  0 <= y1 b /\ y2 b < inject_Z (Z.of_nat h).

(** [lo, hi] is an ordered interval of [0, n], both ends included. *)
Definition interval_ok (n : nat) (lo hi : Q) : Prop :=
  0 <= lo /\ lo <= hi /\ hi <= inject_Z (Z.of_nat n).

(** One axis of a box in a frame, with the far edge included. *)
Definition x_in_closed_frame (w : nat) (b : box) : Prop :=
  interval_ok w (x1 b) (x2 b).

Definition y_in_closed_frame (h : nat) (b : box) : Prop :=
  interval_ok h (y1 b) (y2 b).

(** The x axis of a box whose corners are in the frame in reverse order. *)
Definition x_reversed_in_closed_frame (w : nat) (b : box) : Prop :=
  interval_ok w (x2 b) (x1 b).

(** [P] holds of every box of the sample, each in its own frame; the two
    frames of a pair have the same height and width. *)
Definition boxes_satisfy (P : image -> box -> Prop) (s : sample) : Prop :=
  Forall (P (img_pre s)) (boxes_pre s) /\
  match img_next s with
  | None => True
  | Some next =>
      height next = height (img_pre s) /\ width next = width (img_pre s) /\
      match boxes_next s with
      | None => True
      | Some bn => Forall (P next) bn
      end
  end.

Definition x_ok (s : sample) : Prop :=
  boxes_satisfy (fun im => x_in_closed_frame (width im)) s.

Definition y_ok (s : sample) : Prop :=
  boxes_satisfy (fun im => y_in_closed_frame (height im)) s.

Definition x_reversed_ok (s : sample) : Prop :=
  boxes_satisfy (fun im => x_reversed_in_closed_frame (width im)) s.

(** Both x coordinates of a box are in the frame, in either order. *)
Definition x_within_closed_frame (w : nat) (b : box) : Prop :=
  (0 <= x1 b /\ x1 b <= inject_Z (Z.of_nat w)) /\
  (0 <= x2 b /\ x2 b <= inject_Z (Z.of_nat w)).

Definition x_within_ok (s : sample) : Prop :=
  boxes_satisfy (fun im => x_within_closed_frame (width im)) s.

(** Every draw of the generator is in [0, 1). *)
Definition unit_tape (wd : world) : Prop :=
  forall n, 0 <= tape wd n /\ tape wd n < 1.

(** A computation that never removes trials and adds at most [k]. *)
Definition adds_trials {A : Type} (c : M A) (k : nat) : Prop :=
  forall wd, (trials wd <= trials (snd (c wd)) <= trials wd + k)%nat.

(** Every run of [c] that starts from a generator with draws in [0, 1) and
    returns, returns a value that satisfies [Q] and leaves such a
    generator. *)
Definition post {A : Type} (c : M A) (Q : A -> Prop) : Prop :=
  forall wd a wd',
    unit_tape wd -> c wd = (Ok a, wd') -> unit_tape wd' /\ Q a.

(** ** Sequences of the three geometric transforms *)

Inductive geometric : Type :=
| Mirror
| Expanding (e : Expand)
| Cropping (c : RandomSampleCrop) (fuel : nat).

Definition is_mirror (g : geometric) : bool :=
  match g with
  | Mirror => true
  | _ => false
  end.

Definition expands_by_at_least_one (g : geometric) : Prop :=
  match g with
  | Expanding e => 1 <= max_expand e
  | _ => True
  end.

Section Geometric.

Variable iou : list (Q * Q * Q * Q) -> Q * Q * Q * Q -> list Q.

(** One transform of the sequence.  A first component [None] is a crop
    that used its passes without returning. *)
Definition apply_geometric (g : geometric) (s : sample) (wd : world)
  : option (result sample) * world :=
  match g with
  | Mirror => let '(r, wd') := RandomMirror_call s wd in (Some r, wd')
  | Expanding e => let '(r, wd') := Expand_call e s wd in (Some r, wd')
  | Cropping c fuel => RandomSampleCrop_call iou fuel c s wd
  end.

(** The transforms applied in order, as [Compose] does, stopping at the
    first that raises. *)
Fixpoint apply_sequence (gs : list geometric) (s : sample) (wd : world)
  : option (result sample) * world :=
  match gs with
  | [] => (Some (Ok s), wd)
  | g :: gs' =>
      match apply_geometric g s wd with
      | (Some (Ok s'), wd') => apply_sequence gs' s' wd'
      | (r, wd') => (r, wd')
      end
  end.

End Geometric.

(** ** Concrete inputs used by the examples below *)

Module Examples.

(** A 100 x 100 frame with three channels. *)
Definition frame100 : image := mkImage 100 100 3 (fun _ _ _ => 0).

(** One box in the middle of the frame, a 1 x 1 correspondence matrix. *)
Definition mid_box : box := mkBox 40 40 60 60.
Definition lab1 : matrix := mkMat 1 1 (fun _ _ => 1).
Definition crop1 : RandomSampleCrop := RandomSampleCrop_init 1.

(** A pair with that box in both frames, and a generator whose draws make
    [RandomSampleCrop] pick the mode (0.7, None) and then w = h = 80 and
    left = top = 10. *)
Definition mid_sample : sample :=
  mkSample frame100 (Some frame100) [mid_box] (Some [mid_box]) (Some lab1).
Definition mid_world : world :=
  mkWorld (fun n => match n with
                    | 0%nat => 1 # 4
                    | 1%nat | 2%nat => 0
                    | _ => 10 # 19
                    end) 0 0.

(** One box in the top-left corner of the frame. *)
Definition corner_box : box := mkBox 0 0 10 10.
Definition lab80 : matrix :=
  mkMat 80 80 (fun i j => if ((i =? 0) && (j =? 0))%nat then 1 else 0).
Definition corner_sample : sample :=
  mkSample frame100 (Some frame100) [corner_box] (Some [corner_box])
           (Some lab80).

(** A generator whose every draw is 1/4, and one whose every draw is 1/2. *)
Definition quarter_world : world := mkWorld (fun _ => 1 # 4) 0 0.
Definition half_world : world := mkWorld (fun _ => 1 # 2) 0 0.
Definition zero_world : world := mkWorld (fun _ => 0) 0 0.

Definition crop80 : RandomSampleCrop := RandomSampleCrop_init 80.

(** Two boxes, a 2 x 2 identity correspondence. *)
Definition two_boxes : list box := [mkBox 10 10 30 30; mkBox 50 50 80 80].
Definition lab2 : matrix :=
  mkMat 2 2 (fun i j => if (i =? j)%nat then 1 else 0).
Definition crop2 : RandomSampleCrop := RandomSampleCrop_init 2.
Definition two_box_sample : sample :=
  mkSample frame100 (Some frame100) two_boxes (Some two_boxes) (Some lab2).

(** A pair with two boxes in each frame, of which only the first of frame A
    and the first of frame B correspond, at capacity 3. *)
Definition lab3 : matrix :=
  mkMat 3 3 (fun i j => if ((i =? 0) && (j =? 0))%nat then 1 else 0).
Definition pair3 : sample :=
  mkSample frame100 (Some frame100) two_boxes (Some two_boxes) (Some lab3).
Definition shuffle3 : ResizeShuffleBoxes := mkResizeShuffleBoxes 3.

(** A box that reaches beyond the rectangle (10, 10, 90, 90). *)
Definition edge_box : box := mkBox 50 50 95 95.

(** A generator and a sequence for which [Expand] expands by 1.5 at offset
    (25, 25) and [RandomSampleCrop] then accepts its first trial, the
    rectangle (8, 8, 143, 143), in the mode (None, None). *)
Definition accepting_world : world :=
  mkWorld (fun n => if (n =? 0)%nat then 0
                    else if (n =? 4)%nat then 5 # 6 else 1 # 2) 0 0.
Definition expand_then_crop : list geometric :=
  [Expanding (mkExpand [104; 117; 123] 2); Cropping crop2 3].

(** A single-frame sample, and a configuration of the training chain. *)
Definition single_sample : sample :=
  mkSample frame100 None two_boxes None None.
Definition train_cfg : config :=
  mkConfig 0 (2 # 10) (7 # 10) (15 # 10) (7 # 10) (15 # 10).

End Examples.


(** * The evaluation chains *)

(** ** SubtractMeans *)

(** [img -= self.mean]: the mean is broadcast over the channels, in
    place. *)
Definition subtract_mean (mean : list Q) (im : image) : result image :=
  if broadcasts_to (length mean) (depth im) then
    Ok (mkImage (height im) (width im) (depth im)
                (fun r c k =>
                   px im r c k - nth (broadcast_index (length mean) k) mean 0))
  else Raised ValueError.

(** [SubtractMeans.__call__] *)
Definition SubtractMeans_call (mean : list Q) : transform :=
  on_frames (subtract_mean mean).

(** ** FormatBoxes *)

(** What a box slot of the five-tuple holds when [FormatBoxes] is called:
    [None], an N x 4 array, or the list [[boxes, mask]] that
    [ResizeShuffleBoxes] builds, either of whose items may be [None]. *)
Inductive slot : Type :=
| SNone
| SArray (rows : list padded_box)
| SList (rows : option (list padded_box)) (mask : option (list bool)).

Record tuple5 : Type := mkTuple5 {
  t_img_pre : image;
  t_img_next : option image;
  t_boxes_pre : slot;
  t_boxes_next : slot;
  t_labels : option matrix
}.

(** The five-tuple of a [sample], whose box slots are arrays, and of what
    [ResizeShuffleBoxes] returns, whose box slots are lists. *)
Definition of_sample (s : sample) : tuple5 :=
  mkTuple5 (img_pre s) (img_next s)
           (SArray (map row_of_box (boxes_pre s)))
           (match boxes_next s with
            | None => SNone
            | Some bn => SArray (map row_of_box bn)
            end)
           (labels s).

Definition of_shuffled (r : shuffled) : tuple5 :=
  mkTuple5 (sh_img_pre r) (sh_img_next r)
           (SList (Some (fst (sh_boxes_pre r))) (Some (snd (sh_boxes_pre r))))
           (SList (fst (sh_boxes_next r)) (snd (sh_boxes_next r)))
           (sh_labels r).

(** Float addition and subtraction where an operand may be [np.inf]. *)
Definition coord_add (a b : coord) : coord :=
  match a, b with
  | Real x, Real y => Real (x + y)
  | _, _ => Inf
  end.

Definition coord_sub (a : coord) (q : Q) : coord :=
  match a with
  | Real x => Real (x - q)
  | Inf => Inf
  end.

(** The lambda [f] on one row: [(boxes[:, :2] + boxes[:, 2:]) - 1]. *)
Definition center_row (r : padded_box) : coord * coord :=
  let '(a, b, c, d) := r in
  (coord_sub (coord_add a c) 1, coord_sub (coord_add b d) 1).

(** [a[a == np.inf] = 1.5] on one entry. *)
Definition remove_inf (c : coord) : coord :=
  match c with
  | Inf => Real (15 # 10)
  | Real q => Real q
  end.

(** What a box slot holds when [FormatBoxes] returns: the slot as it was,
    an N x 1 x 1 x 2 array of centers, or a list of such an array and the
    mask. *)
Inductive formatted_slot : Type :=
| Kept (s : slot)
| Centers (centers : list (coord * coord))
| CentersList (centers : list (coord * coord)) (mask : option (list bool)).

Record formatted : Type := mkFormatted {
  f_img_pre : image;
  f_img_next : option image;
  f_boxes_pre : formatted_slot;
  f_boxes_next : formatted_slot;
  f_labels : option matrix
}.

(** The two statements of the branch for pairs on one slot,
    [b[0] = f(b[0])] and [b[0][b[0] == np.inf] = 1.5]: [None] has no item
    0, item 0 of an array is a row, which [f] cannot index twice, and [f]
    cannot index [None]. *)
Definition format_item (b : slot) : result formatted_slot :=
  match b with
  | SNone => Raised TypeError
  | SArray _ => Raised IndexError
  | SList None _ => Raised TypeError
  | SList (Some rows) mask =>
      Ok (CentersList
            (map (fun c => (remove_inf (fst c), remove_inf (snd c)))
                 (map center_row rows))
            mask)
  end.

(** [FormatBoxes.__call__].  The two lists of a pair are distinct
    objects, as [ResizeShuffleBoxes] builds them. *)
Definition FormatBoxes_call (t : tuple5) : result formatted :=
  match t_img_next t with
  | Some next =>
      match format_item (t_boxes_pre t) with
      | Raised e => Raised e
      | Ok bp =>
          match format_item (t_boxes_next t) with
          | Raised e => Raised e
          | Ok bn =>
              Ok (mkFormatted (t_img_pre t) (Some next) bp bn (t_labels t))
          end
      end
  | None =>
      match t_boxes_pre t with
      | SArray rows =>
          Ok (mkFormatted (t_img_pre t) None (Centers (map center_row rows))
                          (Kept (t_boxes_next t)) (t_labels t))
      | SNone | SList _ _ => Raised TypeError
      end
  end.

(** ** DANAugmentation, types ['val'] and ['test'] *)

Section Evaluation.

(** [cv2.resize(img, (size, size))], from OpenCV, and [ToTensor.__call__],
    which ends in torch tensors. *)
Variable cv2_resize : image -> nat -> result image.
Variable tensors : Type.
Variable ToTensor_call : formatted -> result tensors.

(** [Resize.__call__] *)
Definition Resize_call (size : nat) : transform :=
  on_frames (fun im => cv2_resize im size).

(** The transforms that the chains of type ['val'] and of the other types
    begin with. *)
Definition evaluation_head (mean : list Q) (size : nat) : transform :=
  Compose_call [ ConvertFromInts_call; ToPercentCoords_call;
                 Resize_call size; SubtractMeans_call mean ].

(** The chain of type ['val'] up to [FormatBoxes], and the whole chain. *)
Definition val_formatted (mean : list Q) (size max_object : nat)
    (s : sample) : M formatted :=
  s1 <- evaluation_head mean size s ;;
  r <- ResizeShuffleBoxes_call (mkResizeShuffleBoxes max_object) s1 ;;
  lift (FormatBoxes_call (of_shuffled r)).

Definition DANAugmentation_val (mean : list Q) (size max_object : nat)
    (s : sample) : M tensors :=
  f <- val_formatted mean size max_object s ;;
  lift (ToTensor_call f).

(** The chain of the other types (['test']) up to [FormatBoxes], and the
    whole chain. *)
Definition test_formatted (mean : list Q) (size : nat) (s : sample)
  : M formatted :=
  s1 <- evaluation_head mean size s ;;
  lift (FormatBoxes_call (of_sample s1)).

Definition DANAugmentation_test (mean : list Q) (size : nat) (s : sample)
  : M tensors :=
  f <- test_formatted mean size s ;;
  lift (ToTensor_call f).

End Evaluation.

(** ** DANAugmentation, type ['train'], up to FormatBoxes *)

Section Training.

Variable iou : list (Q * Q * Q * Q) -> Q * Q * Q * Q -> list Q.
Variable cv2_resize : image -> nat -> result image.

(** The part of the training chain after [PhotometricDistort], up to
    [FormatBoxes].  [fuel] bounds the passes of the [while True] of
    [RandomSampleCrop]; the value [None] is a crop that used them up
    without returning. *)
Definition train_tail_formatted (mean : list Q) (max_expand : Q)
    (max_object size fuel : nat) : sample -> M (option formatted) :=
  fun s wd =>
    match Expand_call (mkExpand mean max_expand) s wd with
    | (Raised e, wd1) => (Raised e, wd1)
    | (Ok s1, wd1) =>
        match RandomSampleCrop_call iou fuel (RandomSampleCrop_init max_object)
                                    s1 wd1 with
        | (None, wd2) => (Ok None, wd2)
        | (Some (Raised e), wd2) => (Raised e, wd2)
        | (Some (Ok s2), wd2) =>
            (s3 <- Compose_call [ RandomMirror_call; ToPercentCoords_call;
                                  Resize_call cv2_resize size;
                                  SubtractMeans_call mean ] s2 ;;
             r <- ResizeShuffleBoxes_call (mkResizeShuffleBoxes max_object) s3 ;;
             f <- lift (FormatBoxes_call (of_shuffled r)) ;;
             ret (Some f)) wd2
        end
    end.

End Training.
(** ** Predicates of the further properties *)

(** A computation that leaves the tape of draws as it found it. *)
Definition keeps_tape {A : Type} (c : M A) : Prop :=
  forall wd, tape (snd (c wd)) = tape wd.


(** Every coordinate of a box is a pixel position of the frame. *)
Definition box_in_pixels (im : image) (b : box) : Prop :=
  (0 <= x1 b /\ x1 b <= inject_Z (Z.of_nat (width im)) - 1) /\
  (0 <= x2 b /\ x2 b <= inject_Z (Z.of_nat (width im)) - 1) /\
  (0 <= y1 b /\ y1 b <= inject_Z (Z.of_nat (height im)) - 1) /\
  (0 <= y2 b /\ y2 b <= inject_Z (Z.of_nat (height im)) - 1).

(** The corners of a box are in order. *)
Definition box_ordered (b : box) : Prop := x1 b <= x2 b /\ y1 b <= y2 b.

(** The second list holds one box per box of the first, none of them wider
    or taller than the box it comes from. *)
Definition boxes_not_larger (bs' bs : list box) : Prop :=
  Forall2 (fun b' b => x2 b' - x1 b' <= x2 b - x1 b
                       /\ y2 b' - y1 b' <= y2 b - y1 b) bs' bs.

(** The frame [im] sits in the canvas [im'] at column [dx] and row [dy]:
    the canvas has the channels of the frame and room for it, shows the
    frame there and the per-channel [mean] everywhere else. *)
Definition placed_at (mean : list Q) (im im' : image) (dx dy : nat) : Prop :=
  depth im' = depth im /\
  (dx + width im <= width im')%nat /\ (dy + height im <= height im')%nat /\
  (forall r c k,
     (r < height im)%nat -> (c < width im)%nat -> (k < depth im)%nat ->
     px im' (dy + r) (dx + c) k = px im r c k) /\
  (forall r c k,
     (r < dy \/ dy + height im <= r \/ c < dx \/ dx + width im <= c)%nat ->
     px im' r c k = nth (broadcast_index (length mean) k) mean 0).


(** The box array that [resize_f] stacks: the boxes, then rows of
    [np.inf] up to the capacity [M]. *)
Definition padded_rows (M : nat) (boxes : list box) : list padded_box :=
  map row_of_box boxes ++ repeat inf_row (M - length boxes).

(** [rows] with [mask] is a shuffled copy of [boxes] at capacity [M]: the
    rows are the boxes and the padding in some order, the mask has M + 1
    entries and ends in [True], it is [True] at a row that is a box of
    [boxes] and [False] at a row of [np.inf], and it holds one [True] per
    box beside the last one. *)
Definition shuffled_copy (M : nat) (boxes : list box)
    (rows : list padded_box) (mask : list bool) : Prop :=
  Permutation rows (padded_rows M boxes) /\
  length mask = S M /\ nth M mask false = true /\
  (forall k, (k < M)%nat -> nth k mask false = true ->
     exists b, In b boxes /\ nth k rows inf_row = row_of_box b) /\
  (forall k, (k < M)%nat -> nth k mask false = false ->
     nth k rows inf_row = inf_row) /\
  count_occ Bool.bool_dec mask true = S (length boxes).

(** A transform that touches nothing but the pixels: whenever it returns,
    the boxes and the matrix are the ones it was given, a second frame is
    returned exactly when one was given, and a second frame that was the
    first frame is still the first frame. *)
Definition pixels_only (t : transform) : Prop :=
  forall s wd s' wd',
    t s wd = (Ok s', wd') ->
    boxes_pre s' = boxes_pre s /\ boxes_next s' = boxes_next s /\
    labels s' = labels s /\
    (img_next s' = None <-> img_next s = None) /\
    (img_next s = Some (img_pre s) -> img_next s' = Some (img_pre s')).

(** Every hue of a frame, its channel 0, is in [0, 360]. *)
Definition hue_in_range (im : image) : Prop :=
  forall r c, 0 <= px im r c 0 /\ px im r c 0 <= 360.

(** The frame [im'] shows the channels of [im] in the order [order]. *)
Definition channels_reordered (order : list nat) (im im' : image) : Prop :=
  shape im' = shape im /\
  forall r c k, (k < depth im)%nat ->
                px im' r c k = px im r c (nth k order 0%nat).

(** Every coordinate of a box is in the frame, the far edges included. *)
Definition box_within_frame (im : image) (b : box) : Prop :=
  (0 <= x1 b /\ x1 b <= inject_Z (Z.of_nat (width im))) /\
  (0 <= x2 b /\ x2 b <= inject_Z (Z.of_nat (width im))) /\
  (0 <= y1 b /\ y1 b <= inject_Z (Z.of_nat (height im))) /\
  (0 <= y2 b /\ y2 b <= inject_Z (Z.of_nat (height im))).

(** The center that [FormatBoxes] computes for a box, and the value it
    puts where the padding was. *)
Definition center_of (b : box) : coord * coord :=
  (Real (x1 b + x2 b - 1), Real (y1 b + y2 b - 1)).

Definition sentinel : coord * coord := (Real (15 # 10), Real (15 # 10)).

(** [cs] with [mask] holds, at capacity [M], the center of a box of
    [boxes] wherever the mask is [True] and the sentinel wherever it is
    [False]. *)
Definition centers_follow_mask (M : nat) (boxes : list box)
    (cs : list (coord * coord)) (mask : list bool) : Prop :=
  length cs = M /\ length mask = S M /\
  (forall k, (k < M)%nat -> nth k mask false = true ->
     exists b, In b boxes /\ nth k cs sentinel = center_of b) /\
  (forall k, (k < M)%nat -> nth k mask false = false ->
     nth k cs sentinel = sentinel).

(** A center in the square [-1, 1] x [-1, 1]. *)
Definition center_in_range (c : coord * coord) : Prop :=
  exists cx cy : Q,
    c = (Real cx, Real cy) /\
    (- (1) <= cx /\ cx <= 1) /\ (- (1) <= cy /\ cy <= 1).

(** [cs] with [mask] holds, at capacity [M], a center of the square
    wherever the mask is [True] and the sentinel wherever it is [False]. *)
Definition centers_in_range (M : nat) (cs : list (coord * coord))
    (mask : list bool) : Prop :=
  length cs = M /\ length mask = S M /\
  (forall k, (k < M)%nat -> nth k mask false = true ->
     center_in_range (nth k cs sentinel)) /\
  (forall k, (k < M)%nat -> nth k mask false = false ->
     nth k cs sentinel = sentinel).

(** [s'] has the boxes, the matrix and the frame sizes of [s]: only
    pixels and channels may differ. *)
Definition same_geometry (s s' : sample) : Prop :=
  boxes_pre s' = boxes_pre s /\ boxes_next s' = boxes_next s /\
  labels s' = labels s /\
  height (img_pre s') = height (img_pre s) /\
  width (img_pre s') = width (img_pre s) /\
  match img_next s, img_next s' with
  | Some next, Some next' =>
      height next' = height next /\ width next' = width next
  | None, None => True
  | _, _ => False
  end.

(** A transform that, under draws in [0, 1), returns a sample of the same
    geometry. *)
Definition gentle (t : transform) : Prop :=
  forall s, post (t s) (same_geometry s).

(** A frame operation that keeps height and width. *)
Definition keeps_size (f : image -> result image) : Prop :=
  forall im im', f im = Ok im' ->
                 height im' = height im /\ width im' = width im.
(** ** Concrete inputs of the further examples *)

Module Cases.

(** A generator whose draws make [RandomSampleCrop] pick the mode
    (None, None) and then the rectangle (20, 20, 100, 100). *)
Definition drop_world : world :=
  mkWorld (fun n => if (n =? 0)%nat then 5 # 6 else 0) 0 0.

(** [MoveBoxes(0.0, 0.2)], as its constructor builds it. *)
Definition mover : MoveBoxes := mkMoveBoxes 0 (2 # 10) (2 # 10).

(** [Expand] with a mean per channel and [max_expand = 2]. *)
Definition expander : Expand := mkExpand [104; 117; 123] 2.

(** A stand-in for [cv2.resize] that returns a black frame of the size
    asked for, and the mean of the configuration file. *)
Definition resize_blank (im : image) (size : nat) : result image :=
  Ok (mkImage size size (depth im) (fun _ _ _ => 0)).
Definition mean_pixel : list Q := [104; 117; 123].

(** A pair that comes without a correspondence matrix. *)
Definition unlabelled_pair : sample :=
  mkSample Examples.frame100 (Some Examples.frame100) Examples.two_boxes
           (Some Examples.two_boxes) None.

End Cases.

(** * Properties *)

(** ** Comparisons and array reductions *)

Lemma Qltb_lt (a b : Q) : Qltb a b = true <-> a < b.
Proof.
  unfold Qltb. rewrite negb_true_iff. split; intro H.
  - apply Qnot_le_lt. intro Hle. apply Qle_bool_iff in Hle. congruence.
  - destruct (Qle_bool b a) eqn:E; [|reflexivity].
    apply Qle_bool_iff in E. exfalso. exact (Qlt_not_le _ _ H E).
Qed.

Lemma Qltb_ge (a b : Q) : Qltb a b = false <-> b <= a.
Proof.
  unfold Qltb. rewrite negb_false_iff. apply Qle_bool_iff.
Qed.

Lemma lt_q_bound_spec (q : Q) (b : bound) :
  lt_q_bound q b = false <-> bound_le_q b q.
Proof.
  destruct b; simpl.
  - tauto.
  - apply Qltb_ge.
  - split; [discriminate | contradiction].
Qed.

Lemma lt_bound_q_spec (b : bound) (q : Q) :
  lt_bound_q b q = false <-> q_le_bound q b.
Proof.
  destruct b; simpl.
  - split; [discriminate | contradiction].
  - apply Qltb_ge.
  - tauto.
Qed.

(** The IoU check lets a trial through as soon as one of the two bounds
    holds. *)
Lemma iou_check_passes_iff (o : Q) (os : list Q) (min_iou max_iou : bound) :
  iou_check_rejects o os min_iou max_iou = false <->
  bound_le_q min_iou (array_min o os) \/ q_le_bound (array_max o os) max_iou.
Proof.
  unfold iou_check_rejects. rewrite andb_false_iff.
  rewrite lt_q_bound_spec, lt_bound_q_spec. tauto.
Qed.

(** With [max_iou = float('inf')], as in every entry of [sample_options],
    the IoU check rejects nothing. *)
Lemma iou_check_never_rejects_without_max (o : Q) (os : list Q)
    (min_iou : bound) :
  iou_check_rejects o os min_iou PosInf = false.
Proof.
  unfold iou_check_rejects. simpl. apply andb_false_r.
Qed.

(** ** Boolean masks *)

Lemma bool_index_map_filter {A : Type} (f : A -> bool) (l : list A) :
  bool_index (map f l) l = filter f l.
Proof.
  induction l as [|a l IH]; simpl; [reflexivity|].
  destruct (f a); rewrite IH; reflexivity.
Qed.

Lemma existsb_id_map {A : Type} (f : A -> bool) (l : list A) :
  existsb (fun m => m) (map f l) = existsb f l.
Proof.
  induction l as [|a l IH]; simpl; [reflexivity|]. now rewrite IH.
Qed.

Lemma double_negation_mask (mask : list bool) :
  map negb (map (fun m => Bool.eqb m false) mask) = mask.
Proof.
  induction mask as [|m mask IH]; simpl; [reflexivity|].
  rewrite IH. now destruct m.
Qed.

Lemma true_indices_from_pad (i : nat) (mask : list bool) (k : nat) :
  true_indices_from i (mask ++ repeat false k) = true_indices_from i mask.
Proof.
  revert i. induction mask as [|m mask IH]; intro i; simpl.
  - revert i. induction k as [|k IHk]; intro i; simpl; [reflexivity|].
    apply IHk.
  - destruct m; rewrite IH; reflexivity.
Qed.

Lemma true_indices_from_length (i : nat) (mask : list bool) :
  (length (true_indices_from i mask) <= length mask)%nat.
Proof.
  revert i. induction mask as [|m mask IH]; intro i; simpl; [lia|].
  destruct m; simpl; specialize (IH (S i)); lia.
Qed.

Lemma true_indices_from_filter {A : Type} (f : A -> bool) (l : list A)
    (i : nat) :
  length (true_indices_from i (map f l)) = length (filter f l).
Proof.
  revert i. induction l as [|a l IH]; intro i; simpl; [reflexivity|].
  destruct (f a); simpl; rewrite IH; reflexivity.
Qed.

(** The [k]-th entry of [a[mask]] is the entry of [a] at the position of the
    [k]-th [True] of the mask. *)
Lemma bool_index_nth_error {A : Type} (f : A -> bool) (l : list A)
    (i k : nat) :
  (k < length (true_indices_from i (map f l)))%nat ->
  nth_error (filter f l) k =
  nth_error l (nth k (true_indices_from i (map f l)) 0%nat - i).
Proof.
  revert i k. induction l as [|a l IH]; intros i k Hk; simpl in *; [lia|].
  assert (Hge : forall j m n, (n < length (true_indices_from j m))%nat ->
                              (j <= nth n (true_indices_from j m) 0)%nat).
  { clear. intros j m. revert j.
    induction m as [|b m IHm]; intros j n Hn; simpl in *; [lia|].
    destruct b; simpl in *.
    - destruct n; [lia|]. specialize (IHm (S j) n). lia.
    - specialize (IHm (S j) n Hn). lia. }
  destruct (f a); simpl in *.
  - destruct k; simpl.
    + now rewrite Nat.sub_diag.
    + assert (Hk' : (k < length (true_indices_from (S i) (map f l)))%nat)
        by lia.
      rewrite (IH (S i) k Hk').
      specialize (Hge (S i) (map f l) k Hk').
      replace (nth k (true_indices_from (S i) (map f l)) 0 - i)%nat
        with (S (nth k (true_indices_from (S i) (map f l)) 0 - S i))%nat
        by lia.
      reflexivity.
  - rewrite (IH (S i) k Hk).
    specialize (Hge (S i) (map f l) k Hk).
    replace (nth k (true_indices_from (S i) (map f l)) 0 - i)%nat
      with (S (nth k (true_indices_from (S i) (map f l)) 0 - S i))%nat
      by lia.
    reflexivity.
Qed.

(** ** RandomSampleCrop.crop *)

Lemma center_mask_spec (rect : Z * Z * Z * Z) (b : box) :
  center_mask rect b = true <-> center_inside rect b.
Proof.
  destruct rect as [[[r0 r1] r2] r3]. unfold center_mask, center_inside.
  rewrite !andb_true_iff, !Qltb_lt. tauto.
Qed.

(** Case analysis on the tests [crop] makes, in the order it makes them. *)
Ltac crop_cases H :=
  repeat match type of H with
         | context [match ?c with _ => _ end] =>
             let E := fresh "E" in destruct c eqn:E; try discriminate H
         end.

(** C1, at a failing input.  Frame 100 x 100, one box (40, 40, 60, 60),
    mode (0.7, None), crop rectangle left = top = 10, w = h = 80.  The
    IoU of the box with the rectangle is 400/6400, below [min_iou] = 0.7,
    so the acceptance constraint "min(IoU) >= min_iou" fails; the rejection
    test of the code is nevertheless false and [crop] returns the cropped
    frame and box.  [RandomSampleCrop.__call__] reaches that call on its
    first trial and returns its result. *)
Theorem crop_accepts_trial_below_min_iou :
  iou_xywh (map to_xywh [Examples.mid_box]) (10, 10, 80, 80) = [400 # 6400] /\
  ~ bound_le_q (Fin (7 # 10)) (array_min (400 # 6400) []) /\
  iou_check_rejects (400 # 6400) [] (Fin (7 # 10)) PosInf = false /\
  (exists im lab,
     crop iou_xywh Examples.crop1 Examples.frame100 [Examples.mid_box]
          (Some Examples.lab1) (Some (Some (7 # 10), None))
          (Fin (7 # 10)) PosInf 80 80 10 10 true
     = Ok (Some (im, [mkBox 30 30 50 50], lab))) /\
  (exists s' wd',
     RandomSampleCrop_call iou_xywh 1 Examples.crop1 Examples.mid_sample
                           Examples.mid_world = (Some (Ok s'), wd') /\
     trials wd' = 1%nat /\
     shape (img_pre s') = (80, 80, 3)%nat /\
     boxes_pre s' = [mkBox 30 30 50 50] /\
     boxes_next s' = Some [mkBox 30 30 50 50]).
Proof.
  split; [reflexivity|]. split.
  - simpl. intro H. apply Qle_bool_iff in H. discriminate H.
  - split; [reflexivity|]. split.
    + eexists. eexists. reflexivity.
    + eexists. eexists. split; [lazy; reflexivity|].
      repeat split; reflexivity.
Qed.

Section CropProperties.

Variable iou : list (Q * Q * Q * Q) -> Q * Q * Q * Q -> list Q.

Variables (self : RandomSampleCrop) (im : image) (boxes : list box).
Variables (md : mode) (min_iou max_iou : bound) (w h left top : Q).

Lemma filter_nil_existsb {A : Type} (f : A -> bool) (l : list A) :
  filter f l = [] <-> existsb f l = false.
Proof.
  induction l as [|a l IH]; cbn [filter existsb]; [tauto|].
  destruct (f a); cbn [orb]; [split; discriminate | exact IH].
Qed.

(** C4, amended.  The boxes [crop] keeps are the boxes whose center
    ((x1 + x2) / 2, (y1 + y2) / 2) is strictly inside the integer crop
    rectangle, on all four sides.  On a box set that is not empty and
    passes the IoU test, [crop] returns [None] when no box has such a
    center, and otherwise, when the set has at most [max_object] boxes and
    the matrix is present with [max_object] rows (frame A) or columns
    (frame B), it returns exactly the boxes with such a center, in their
    order, clipped and re-based; whatever [crop] returns is these boxes.
    When the IoU test rejects, [crop] returns [None]; on an empty box set
    it raises, where the overlap array has no minimum. *)
Theorem crop_keeps_box_iff_center_inside (labels : option matrix)
    (isPre : bool) :
  let rect := crop_rect w h left top in
  let res := crop iou self im boxes labels md min_iou max_iou w h left top
                  isPre in
  let kept := filter (center_mask rect) boxes in
  (forall b, In b kept <-> In b boxes /\ center_inside rect b) /\
  (iou (map to_xywh boxes) (left, top, w, h) = [] ->
   res = Raised ValueError) /\
  (forall o os,
     iou (map to_xywh boxes) (left, top, w, h) = o :: os ->
     (iou_check_rejects o os min_iou max_iou = true -> res = Ok None) /\
     (iou_check_rejects o os min_iou max_iou = false ->
      (kept = [] -> res = Ok None) /\
      (kept <> [] ->
       (length boxes <= max_object self)%nat ->
       forall lab,
         labels = Some lab ->
         (if isPre then nrow lab else ncol lab) = max_object self ->
         exists im' lab',
           res = Ok (Some (im', map (clip_rebase rect) kept, lab'))))) /\
  (forall im' boxes' lab',
     res = Ok (Some (im', boxes', lab')) ->
     boxes' = map (clip_rebase rect) kept /\ kept <> []).
Proof.
  intros rect res kept. split; [|split; [|split]].
  - intro b. unfold kept. rewrite filter_In, center_mask_spec. tauto.
  - intro E. subst res. unfold crop. cbn [crop_rect]. rewrite E. reflexivity.
  - intros o os E. subst res. unfold crop. cbn [crop_rect]. fold rect.
    rewrite E. split; [intros ->; reflexivity|]. intros ->.
    rewrite existsb_id_map. split.
    + intro Hk. apply filter_nil_existsb in Hk. rewrite Hk. reflexivity.
    + intros Hk Hn lab -> Hlab.
      assert (Hex : existsb (center_mask rect) boxes = true).
      { destruct (existsb (center_mask rect) boxes) eqn:Ex; [reflexivity|].
        apply filter_nil_existsb in Ex. contradiction. }
      rewrite Hex. cbn [negb]. rewrite length_map.
      replace (max_object self <? length boxes)%nat with false
        by (symmetry; apply Nat.ltb_ge; exact Hn).
      assert (Hlen : length
                (map negb
                   (map (fun m => Bool.eqb m false)
                      (map (center_mask rect) boxes
                       ++ repeat false (max_object self - length boxes))))
              = max_object self).
      { rewrite !length_map, length_app, length_map, repeat_length. lia. }
      rewrite bool_index_map_filter. fold kept.
      destruct isPre; rewrite Hlen, Hlab, Nat.eqb_refl; cbn [negb];
        eexists; eexists; reflexivity.
  - intros im' boxes' lab' H. subst res. unfold crop in H.
    cbn [crop_rect] in H. fold rect in H.
    crop_cases H; inversion H; subst; clear H;
      rewrite bool_index_map_filter; (split; [reflexivity|]);
      match goal with
      | E : negb (existsb _ _) = false |- _ =>
          apply negb_false_iff in E; rewrite existsb_id_map in E;
          intro Hk; apply filter_nil_existsb in Hk; congruence
      end.
Qed.

(** The index [np.logical_not(mask)] built by [crop] selects the positions
    of the boxes whose center is inside the rectangle. *)
Lemma crop_index_positions (rect : Z * Z * Z * Z) (k : nat) :
  true_indices
    (map negb (map (fun m => Bool.eqb m false)
                   (map (center_mask rect) boxes ++ repeat false k)))
  = true_indices (map (center_mask rect) boxes).
Proof.
  rewrite double_negation_mask. apply true_indices_from_pad.
Qed.


End CropProperties.

(** The rule of C4 on a 100 x 100 frame with boxes (10, 10, 30, 30) and
    (50, 50, 80, 80) and the rectangle (20, 20, 100, 100): the center
    (20, 20) of the first box is on the border, so only the second box is
    kept, and [crop] returns it as (30, 30, 60, 60). *)
Lemma crop_keeps_box_iff_center_inside_witness :
  filter (center_mask (crop_rect 80 80 20 20)) Examples.two_boxes
  = [mkBox 50 50 80 80] /\
  ~ center_inside (crop_rect 80 80 20 20) (mkBox 10 10 30 30) /\
  center_inside (crop_rect 80 80 20 20) (mkBox 50 50 80 80) /\
  exists im' lab',
    crop iou_xywh Examples.crop2 Examples.frame100 Examples.two_boxes
         (Some Examples.lab2) (Some (None, None)) NegInf PosInf
         80 80 20 20 true
    = Ok (Some (im', [mkBox 30 30 60 60], lab')).
Proof.
  pose proof (crop_keeps_box_iff_center_inside iou_xywh Examples.crop2
                Examples.frame100 Examples.two_boxes (Some (None, None))
                NegInf PosInf 80 80 20 20 (Some Examples.lab2) true) as H.
  cbv zeta in H. destruct H as (Hin & _ & Hrun & _).
  split; [reflexivity|].
  split; [intro Hc; assert (Hk : In (mkBox 10 10 30 30)
                                    [mkBox 50 50 80 80])
            by (apply (proj2 (Hin (mkBox 10 10 30 30)));
                split; [left; reflexivity | exact Hc]);
          destruct Hk as [Hk | []]; discriminate Hk|].
  split; [apply (proj1 (Hin (mkBox 50 50 80 80))); left; reflexivity|].
  destruct (Hrun _ _ eq_refl) as [_ Hpass].
  destruct (Hpass eq_refl) as [_ Hsome].
  apply (Hsome ltac:(discriminate) ltac:(cbn; lia) Examples.lab2 eq_refl
               eq_refl).
Defined.

(** C4 fails as stated on an empty box set: no box has its center inside
    the rectangle, and [crop] does not return [None], it raises. *)
Lemma crop_raises_on_empty_box_set :
  (forall b, In b [] -> ~ center_inside (crop_rect 80 80 20 20) b) /\
  crop iou_xywh Examples.crop2 Examples.frame100 [] (Some Examples.lab2)
       (Some (None, None)) NegInf PosInf 80 80 20 20 true
  = Raised ValueError /\
  crop iou_xywh Examples.crop2 Examples.frame100 [] (Some Examples.lab2)
       (Some (None, None)) NegInf PosInf 80 80 20 20 true
  <> Ok None.
Proof.
  split; [intros b []|]. split; [reflexivity | discriminate].
Qed.


(** ** RandomSampleCrop.__call__: the retry loops *)

Lemma adds_trials_ret {A : Type} (a : A) : adds_trials (ret a) 0.
Proof. intro wd. simpl. lia. Qed.

Lemma adds_trials_raise {A : Type} (e : exn) : adds_trials (@raise A e) 0.
Proof. intro wd. simpl. lia. Qed.

Lemma adds_trials_lift {A : Type} (r : result A) : adds_trials (lift r) 0.
Proof. intro wd. simpl. lia. Qed.

Lemma adds_trials_bind {A B : Type} (c : M A) (k : A -> M B) (a b : nat) :
  adds_trials c a -> (forall x, adds_trials (k x) b) ->
  adds_trials (bind c k) (a + b).
Proof.
  intros Hc Hk wd. unfold bind. specialize (Hc wd).
  destruct (c wd) as [[x|e] wd1]; simpl in *.
  - specialize (Hk x wd1). lia.
  - lia.
Qed.

Lemma adds_trials_weaken {A : Type} (c : M A) (a b : nat) :
  (a <= b)%nat -> adds_trials c a -> adds_trials c b.
Proof. intros Hab Hc wd. specialize (Hc wd). lia. Qed.

Lemma adds_trials_random : adds_trials random_random 0.
Proof. intro wd. simpl. lia. Qed.

Lemma adds_trials_uniform (lo hi : Q) : adds_trials (random_uniform lo hi) 0.
Proof.
  unfold random_uniform. apply (adds_trials_bind _ _ 0 0).
  - apply adds_trials_random.
  - intro. apply adds_trials_ret.
Qed.

Lemma adds_trials_randint (n : nat) : adds_trials (random_randint n) 0.
Proof.
  unfold random_randint. apply (adds_trials_bind _ _ 0 0).
  - apply adds_trials_random.
  - intro. apply adds_trials_ret.
Qed.

Lemma adds_trials_choice {A : Type} (l : list A) :
  adds_trials (random_choice l) 0.
Proof.
  unfold random_choice. apply (adds_trials_bind _ _ 0 0).
  - apply adds_trials_randint.
  - intro i. destruct (nth_error l i).
    + apply adds_trials_ret.
    + apply adds_trials_raise.
Qed.

Lemma adds_trials_tick : adds_trials tick 1.
Proof. intro wd. simpl. lia. Qed.

Create HintDb trials.
#[local] Hint Resolve adds_trials_ret adds_trials_raise adds_trials_lift
  adds_trials_uniform adds_trials_randint adds_trials_choice : trials.

Section CallProperties.

Variable iou : list (Q * Q * Q * Q) -> Q * Q * Q * Q -> list Q.
Variables (self : RandomSampleCrop) (s : sample).

(** One pass through the body of the [for] loop is one trial. *)
Lemma crop_trial_adds_one (md : mode) (mn mx : bound) (hh ww : Q) :
  adds_trials (crop_trial iou self s md mn mx hh ww) 1.
Proof.
  unfold crop_trial.
  apply (adds_trials_bind _ _ 1 0); [apply adds_trials_tick|]. intros _.
  apply (adds_trials_bind _ _ 0 0); [auto with trials|]. intro w.
  apply (adds_trials_bind _ _ 0 0); [auto with trials|]. intro h.
  destruct (Qeq_bool w 0); [auto with trials|].
  destruct (Qltb (h / w) (1 # 2) || Qltb 2 (h / w)); [auto with trials|].
  apply (adds_trials_bind _ _ 0 0); [auto with trials|]. intro left.
  apply (adds_trials_bind _ _ 0 0); [auto with trials|]. intro top.
  apply (adds_trials_bind _ _ 0 0); [auto with trials|].
  intros [[[pi pb] pl]|]; [|auto with trials].
  destruct (img_next s); [|auto with trials].
  destruct (boxes_next s); [|auto with trials].
  apply (adds_trials_bind _ _ 0 0); [auto with trials|].
  intros [[[ni nb] nl]|]; auto with trials.
Qed.

Lemma crop_trials_adds (n : nat) (md : mode) (mn mx : bound) (hh ww : Q) :
  adds_trials (crop_trials iou n self s md mn mx hh ww) n.
Proof.
  induction n as [|n IH]; simpl.
  - apply adds_trials_ret.
  - apply (adds_trials_bind _ _ 1 n); [apply crop_trial_adds_one|].
    intros [s'|]; [|exact IH].
    apply (adds_trials_weaken _ 0); [lia | apply adds_trials_ret].
Qed.

(** One pass through the body of [while True] runs at most 50 trials. *)
Lemma call_pass_adds : adds_trials (call_pass iou self s) 50.
Proof.
  unfold call_pass.
  apply (adds_trials_bind _ _ 0 50); [auto with trials|].
  intros [[lo hi]|].
  - apply crop_trials_adds.
  - apply (adds_trials_weaken _ 0); [lia | apply adds_trials_ret].
Qed.

(** C2, amended.  A run of [RandomSampleCrop.__call__] that makes [fuel]
    passes through [while True] runs at most 50 trials in each, 50 * fuel
    in all.  A pass that draws the mode [None] returns the input
    five-tuple unchanged.  A pass whose 50 trials all fail is followed by
    a new pass, which draws a mode again; a pass in which a trial is
    accepted, or an exception is raised, ends the call. *)
Theorem call_runs_50_trials_per_mode_draw :
  (forall wd, (trials (snd (call_pass iou self s wd)) <= trials wd + 50)%nat) /\
  (forall fuel wd,
      (trials (snd (RandomSampleCrop_call iou fuel self s wd))
       <= trials wd + 50 * fuel)%nat) /\
  (forall fuel wd wd1,
      random_choice (sample_options self) wd = (Ok None, wd1) ->
      RandomSampleCrop_call iou (S fuel) self s wd = (Some (Ok s), wd1)) /\
  (forall fuel wd wd1,
      call_pass iou self s wd = (Ok None, wd1) ->
      RandomSampleCrop_call iou (S fuel) self s wd
      = RandomSampleCrop_call iou fuel self s wd1) /\
  (forall fuel wd wd1 s',
      call_pass iou self s wd = (Ok (Some s'), wd1) ->
      RandomSampleCrop_call iou (S fuel) self s wd = (Some (Ok s'), wd1)) /\
  (forall fuel wd wd1 e,
      call_pass iou self s wd = (Raised e, wd1) ->
      RandomSampleCrop_call iou (S fuel) self s wd = (Some (Raised e), wd1)).
Proof.
  split; [intro wd; apply call_pass_adds|]. split; [|split].
  - induction fuel as [|fuel IH]; intro wd; simpl; [lia|].
    pose proof (call_pass_adds wd) as Hp.
    destruct (call_pass iou self s wd) as [[[s'|]|e] wd1]; simpl in *;
      try lia.
    specialize (IH wd1). lia.
  - intros fuel wd wd1 H. simpl. unfold call_pass, bind. rewrite H.
    reflexivity.
  - split; [|split].
    + intros fuel wd wd1 H. simpl. rewrite H. reflexivity.
    + intros fuel wd wd1 s' H. simpl. rewrite H. reflexivity.
    + intros fuel wd wd1 e H. simpl. rewrite H. reflexivity.
Qed.

End CallProperties.

(** The third part of the theorem at a generator whose first draw is 0:
    the mode drawn is the first of [sample_options], [None], and the call
    returns its input. *)
Lemma call_runs_50_trials_per_mode_draw_witness :
  random_choice (sample_options Examples.crop80) Examples.zero_world
  = (Ok None, mkWorld (tape Examples.zero_world) 1 0) /\
  RandomSampleCrop_call iou_xywh 1 Examples.crop80 Examples.corner_sample
                        Examples.zero_world
  = (Some (Ok Examples.corner_sample), mkWorld (tape Examples.zero_world) 1 0).
Proof.
  assert (H : random_choice (sample_options Examples.crop80)
                            Examples.zero_world
              = (Ok None, mkWorld (tape Examples.zero_world) 1 0))
    by reflexivity.
  split; [exact H|].
  exact (proj1 (proj2 (proj2
    (call_runs_50_trials_per_mode_draw iou_xywh Examples.crop80
       Examples.corner_sample))) 0%nat Examples.zero_world _ H).
Defined.

(** With every draw equal to 1/4 the mode drawn is always (0.7, None) and
    the rectangle always (11, 11, 96, 96); the center (5, 5) of the box
    (0, 0, 10, 10) is outside it, so every trial fails. *)
Lemma quarter_pass_fails (c t : nat) :
  call_pass iou_xywh Examples.crop80 Examples.corner_sample
            (mkWorld (tape Examples.quarter_world) c t)
  = (Ok None, mkWorld (tape Examples.quarter_world) (201 + c) (50 + t)).
Proof. vm_compute. reflexivity. Qed.

Lemma quarter_call_never_returns (fuel c t : nat) :
  fst (RandomSampleCrop_call iou_xywh fuel Examples.crop80
         Examples.corner_sample (mkWorld (tape Examples.quarter_world) c t))
  = None.
Proof.
  revert c t. induction fuel as [|fuel IH]; intros c t; [reflexivity|].
  cbn [RandomSampleCrop_call]. rewrite quarter_pass_fails. apply IH.
Qed.

(** C2 fails as stated.  On a 100 x 100 frame with the single box
    (0, 0, 10, 10) and a generator whose every draw is 1/4, seven passes
    through [while True] have run 350 trials, more than 50 times the six
    modes, without the call having returned; and no number of passes makes
    it return. *)
Lemma call_can_retry_forever :
  (fst (RandomSampleCrop_call iou_xywh 7 Examples.crop80
          Examples.corner_sample Examples.quarter_world) = None /\
   trials (snd (RandomSampleCrop_call iou_xywh 7 Examples.crop80
                  Examples.corner_sample Examples.quarter_world)) = 350%nat /\
   (50 * length (sample_options Examples.crop80) < 350)%nat) /\
  ~ (exists fuel r wd',
       RandomSampleCrop_call iou_xywh fuel Examples.crop80
         Examples.corner_sample Examples.quarter_world = (Some r, wd')).
Proof.
  split.
  - split; [vm_compute; reflexivity|].
    split; [vm_compute; reflexivity | vm_compute; lia].
  - intros [fuel [r [wd' H]]].
    pose proof (quarter_call_never_returns fuel 0 0) as Hn.
    change (mkWorld (tape Examples.quarter_world) 0 0)
      with Examples.quarter_world in Hn.
    rewrite H in Hn. discriminate Hn.
Qed.

(** ** Runs of the effect monad *)

Lemma bind_Ok {A B : Type} (c : M A) (k : A -> M B) (wd wd' : world) (b : B) :
  bind c k wd = (Ok b, wd') ->
  exists a wd1, c wd = (Ok a, wd1) /\ k a wd1 = (Ok b, wd').
Proof.
  unfold bind. destruct (c wd) as [[a|e] wd1]; intro H.
  - exists a, wd1. split; [reflexivity | exact H].
  - discriminate H.
Qed.

Lemma lift_Ok {A : Type} (r : result A) (wd wd' : world) (a : A) :
  lift r wd = (Ok a, wd') -> r = Ok a /\ wd' = wd.
Proof. unfold lift. intro H. inversion H. split; reflexivity. Qed.

Lemma ret_Ok {A : Type} (a a' : A) (wd wd' : world) :
  ret a wd = (Ok a', wd') -> a' = a /\ wd' = wd.
Proof. unfold ret. intro H. inversion H. split; reflexivity. Qed.

(** ** ResizeShuffleBoxes *)

Lemma list_set_length {A : Type} (l : list A) (i : nat) (v : A) :
  length (list_set l i v) = length l.
Proof.
  revert i. induction l as [|a l IH]; intros [|i]; simpl; auto.
Qed.

Lemma shuffle_from_length (i : nat) (l l' : list nat) (wd wd' : world) :
  shuffle_from i l wd = (Ok l', wd') -> length l' = length l.
Proof.
  revert l wd. induction i as [|i IH]; intros l wd H; simpl in H.
  - apply ret_Ok in H. destruct H as [-> _]. reflexivity.
  - apply bind_Ok in H. destruct H as [j [wd1 [_ H]]].
    apply IH in H. rewrite H. unfold list_swap.
    now rewrite !list_set_length.
Qed.

Lemma random_shuffle_length (l l' : list nat) (wd wd' : world) :
  random_shuffle l wd = (Ok l', wd') -> length l' = length l.
Proof. apply shuffle_from_length. Qed.

Lemma zero_where_length (index : list bool) (a : list Q) :
  length (zero_where index a) = length a.
Proof.
  revert a. induction index as [|i index IH]; intros [|v a]; simpl; auto.
Qed.

Lemma zero_where_nth (index : list bool) (a : list Q) (k : nat) :
  length index = length a ->
  nth k (zero_where index a) 0 = if nth k index false then 0 else nth k a 0.
Proof.
  revert a k. induction index as [|i index IH]; intros [|v a] k Hlen;
    simpl in *; try discriminate.
  - now destruct k.
  - destruct k; [reflexivity|]. apply IH. lia.
Qed.

Lemma is_zero_float_one (v : Q) : is_zero_float v == 1 <-> v == 0.
Proof.
  unfold is_zero_float. destruct (Qeq_bool v 0) eqn:E.
  - apply Qeq_bool_iff in E. split; [intros _; exact E | intros _; reflexivity].
  - split; intro H.
    + discriminate H.
    + apply Qeq_bool_iff in H. congruence.
Qed.

Lemma fold_sum_ext (f g : nat -> Q) (l : list nat) (a : Q) :
  (forall i, In i l -> f i = g i) ->
  fold_left (fun acc i => acc + f i) l a = fold_left (fun acc i => acc + g i) l a.
Proof.
  revert a. induction l as [|i l IH]; intros a H; simpl; [reflexivity|].
  rewrite (H i) by (now left). apply IH. intros k Hk. apply H. now right.
Qed.

(** The result of [ResizeShuffleBoxes.__call__] on a paired sample, in
    terms of the two permutations it drew. *)
Lemma ResizeShuffleBoxes_paired (self : ResizeShuffleBoxes) (s : sample)
    (next : image) (wd wd' : world) (r : shuffled) :
  img_next s = Some next ->
  ResizeShuffleBoxes_call self s wd = (Ok r, wd') ->
  exists (indexes_pre indexes_next : list nat) (size_pre size_next : nat)
         (lab0 : matrix),
    length indexes_pre = rsb_max_object self /\
    length indexes_next = rsb_max_object self /\
    labels s = Some lab0 /\
    let mask_pre := map (fun i => (i <? size_pre)%nat) indexes_pre in
    let mask_next := map (fun i => (i <? size_next)%nat) indexes_next in
    let lab := index_cols (index_rows lab0 indexes_pre) indexes_next in
    let false_object_pre :=
      zero_where (map negb mask_pre)
        (map (fun i => is_zero_float (row_sum lab i)) (seq 0 (nrow lab))) in
    let false_object_next :=
      zero_where (map negb mask_next)
        (map (fun j => is_zero_float (col_sum lab j)) (seq 0 (ncol lab))) in
    snd (sh_boxes_pre r) = mask_pre ++ [true] /\
    snd (sh_boxes_next r) = Some (mask_next ++ [true]) /\
    sh_labels r
    = Some (concat_row (concat_col lab false_object_pre)
                       (false_object_next ++ [0])).
Proof.
  intros Hnext H. unfold ResizeShuffleBoxes_call in H.
  apply bind_Ok in H. destruct H as [[size_pre bp] [wd1 [_ H]]].
  apply bind_Ok in H. destruct H as [indexes_pre [wd2 [Hp H]]].
  apply random_shuffle_length in Hp. rewrite length_seq in Hp.
  rewrite Hnext in H.
  destruct (boxes_next s) as [bn|]; [|discriminate H].
  apply bind_Ok in H. destruct H as [[size_next bn'] [wd3 [_ H]]].
  apply bind_Ok in H. destruct H as [indexes_next [wd4 [Hn H]]].
  apply random_shuffle_length in Hn. rewrite length_seq in Hn.
  destruct (labels s) as [lab0|]; [|discriminate H].
  destruct (negb (forallb _ indexes_pre)); [discriminate H|].
  destruct (negb (forallb _ indexes_next)); [discriminate H|].
  apply ret_Ok in H. destruct H as [-> _].
  exists indexes_pre, indexes_next, size_pre, size_next, lab0.
  repeat split; assumption || reflexivity.
Qed.

Lemma nth_negb_mask (mask : list bool) (k : nat) :
  (k < length mask)%nat ->
  nth k (map negb mask) false = negb (nth k mask false).
Proof.
  intro Hk. rewrite (nth_indep _ false (negb false)) by (now rewrite length_map).
  apply map_nth.
Qed.

Lemma nth_map_seq (f : nat -> Q) (n k : nat) :
  (k < n)%nat -> nth k (map f (seq 0 n)) 0 = f k.
Proof.
  intro Hk. rewrite (nth_indep _ 0 (f 0%nat)) by (now rewrite length_map, length_seq).
  rewrite map_nth, seq_nth by exact Hk. reflexivity.
Qed.

(** An entry of the no-match column or row before it is appended. *)
Lemma false_object_nth (mask : list bool) (f : nat -> Q) (n k : nat) :
  length mask = n -> (k < n)%nat ->
  nth k (zero_where (map negb mask) (map f (seq 0 n))) 0
  = if nth k mask false then f k else 0.
Proof.
  intros Hlen Hk.
  rewrite zero_where_nth by (now rewrite !length_map, length_seq).
  rewrite nth_negb_mask by lia. rewrite nth_map_seq by exact Hk.
  now destruct (nth k mask false).
Qed.

(** The no-match entries of the matrix that [ResizeShuffleBoxes] returns
    for a pair, in terms of the masks and of the other entries it returns:
    the matrix is (M + 1) x (M + 1); for i < M its entry (i, M) is 1
    exactly when [mask_pre[i]] is [True] and the first M entries of row i
    sum to zero, and likewise (M, j) for [mask_next[j]] and column j; both
    masks have length M + 1 and end in [True]. *)
Lemma no_match_flags (self : ResizeShuffleBoxes) (s : sample)
    (next : image) (wd wd' : world) (r : shuffled) :
  img_next s = Some next ->
  ResizeShuffleBoxes_call self s wd = (Ok r, wd') ->
  let M := rsb_max_object self in
  exists (lab : matrix) (mask_pre mask_next : list bool),
    sh_labels r = Some lab /\
    snd (sh_boxes_pre r) = mask_pre /\
    snd (sh_boxes_next r) = Some mask_next /\
    nrow lab = (M + 1)%nat /\ ncol lab = (M + 1)%nat /\
    length mask_pre = (M + 1)%nat /\ length mask_next = (M + 1)%nat /\
    nth M mask_pre false = true /\ nth M mask_next false = true /\
    (forall i, (i < M)%nat ->
       (entry lab i M == 1 <->
        nth i mask_pre false = true /\ row_sum_first lab i M == 0)) /\
    (forall j, (j < M)%nat ->
       (entry lab M j == 1 <->
        nth j mask_next false = true /\ col_sum_first lab j M == 0)).
Proof.
  intros Hnext H M.
  destruct (ResizeShuffleBoxes_paired self s next wd wd' r Hnext H)
    as (ip & inx & sp & sn & lab0 & Hip & Hin & _ & Hmp & Hmn & Hlab).
  cbv zeta in Hmp, Hmn, Hlab. fold M in Hip, Hin.
  set (mask_pre := map (fun i => (i <? sp)%nat) ip) in *.
  set (mask_next := map (fun i => (i <? sn)%nat) inx) in *.
  set (P := index_cols (index_rows lab0 ip) inx) in *.
  assert (HrP : nrow P = M) by (subst P; simpl; exact Hip).
  assert (HcP : ncol P = M) by (subst P; simpl; exact Hin).
  assert (Hlp : length mask_pre = M) by (subst mask_pre; now rewrite length_map).
  assert (Hln : length mask_next = M) by (subst mask_next; now rewrite length_map).
  eexists. exists (mask_pre ++ [true]), (mask_next ++ [true]).
  split; [exact Hlab|]. split; [exact Hmp|]. split; [exact Hmn|].
  cbn [nrow ncol concat_row concat_col]. rewrite HrP, HcP.
  split; [reflexivity|]. split; [reflexivity|].
  rewrite !length_app, Hlp, Hln. cbn [length].
  split; [reflexivity|]. split; [reflexivity|].
  split; [rewrite app_nth2, Hlp, Nat.sub_diag by lia; reflexivity|].
  split; [rewrite app_nth2, Hln, Nat.sub_diag by lia; reflexivity|].
  split.
  - intros i Hi. cbn [entry nrow ncol concat_row concat_col]. rewrite HrP, HcP.
    replace (i <? M)%nat with true by (symmetry; apply Nat.ltb_lt; exact Hi).
    rewrite Nat.ltb_irrefl.
    rewrite false_object_nth by assumption.
    rewrite app_nth1 by lia.
    assert (Hs : row_sum_first
                   (concat_row
                      (concat_col P
                         (zero_where (map negb mask_pre)
                            (map (fun i0 => is_zero_float (row_sum P i0))
                                 (seq 0 M))))
                      (zero_where (map negb mask_next)
                         (map (fun j => is_zero_float (col_sum P j))
                              (seq 0 M)) ++ [0])) i M
                 = row_sum P i).
    { unfold row_sum_first, row_sum. rewrite HcP. apply fold_sum_ext.
      intros j Hj. apply in_seq in Hj. cbn [entry concat_row concat_col nrow ncol].
      rewrite HrP, HcP.
      replace (i <? M)%nat with true by (symmetry; apply Nat.ltb_lt; exact Hi).
      replace (j <? M)%nat with true by (symmetry; apply Nat.ltb_lt; lia).
      reflexivity. }
    rewrite Hs. destruct (nth i mask_pre false).
    + rewrite is_zero_float_one. tauto.
    + split; [intro H0; discriminate H0 | intros [H0 _]; discriminate H0].
  - intros j Hj. cbn [entry nrow ncol concat_row concat_col]. rewrite HrP.
    rewrite Nat.ltb_irrefl.
    rewrite app_nth1 by (rewrite zero_where_length, length_map, length_seq; exact Hj).
    rewrite false_object_nth by assumption.
    rewrite app_nth1 by lia.
    assert (Hs : col_sum_first
                   (concat_row
                      (concat_col P
                         (zero_where (map negb mask_pre)
                            (map (fun i0 => is_zero_float (row_sum P i0))
                                 (seq 0 M))))
                      (zero_where (map negb mask_next)
                         (map (fun j0 => is_zero_float (col_sum P j0))
                              (seq 0 M)) ++ [0])) j M
                 = col_sum P j).
    { unfold col_sum_first, col_sum. rewrite HrP. apply fold_sum_ext.
      intros i Hi. apply in_seq in Hi. cbn [entry concat_row concat_col nrow ncol].
      rewrite HrP, HcP.
      replace (i <? M)%nat with true by (symmetry; apply Nat.ltb_lt; lia).
      replace (j <? M)%nat with true by (symmetry; apply Nat.ltb_lt; exact Hj).
      reflexivity. }
    rewrite Hs. destruct (nth j mask_next false).
    + rewrite is_zero_float_one. tauto.
    + split; [intro H0; discriminate H0 | intros [H0 _]; discriminate H0].
Qed.

(** C7 fails as stated: on a pair with two boxes per frame at capacity 3
    the entry (3, 3) of the 4 x 4 matrix is 0, not 1. *)
Lemma corner_entry_is_not_one :
  exists (r : shuffled) (wd' : world) (lab : matrix),
    ResizeShuffleBoxes_call Examples.shuffle3 Examples.pair3
                            Examples.half_world = (Ok r, wd') /\
    sh_labels r = Some lab /\
    (nrow lab = 4 /\ ncol lab = 4)%nat /\
    entry lab 3 3 = 0 /\ ~ entry lab 3 3 == 1.
Proof.
  eexists. eexists. eexists.
  split; [lazy; reflexivity|]. split; [reflexivity|].
  split; [split; reflexivity|]. split; [reflexivity|].
  intro H. discriminate H.
Qed.

(** C7, amended.  For a paired sample, the entry (M, M) of the matrix that
    [ResizeShuffleBoxes] returns is 0: it is the 0 appended to the
    no-match row before that row is stacked under the matrix. *)
Theorem corner_entry_is_zero (self : ResizeShuffleBoxes) (s : sample)
    (next : image) (wd wd' : world) (r : shuffled) :
  img_next s = Some next ->
  ResizeShuffleBoxes_call self s wd = (Ok r, wd') ->
  exists lab : matrix,
    sh_labels r = Some lab /\
    entry lab (rsb_max_object self) (rsb_max_object self) = 0.
Proof.
  intros Hnext H.
  destruct (ResizeShuffleBoxes_paired self s next wd wd' r Hnext H)
    as (ip & inx & sp & sn & lab0 & Hip & Hin & _ & _ & _ & Hlab).
  cbv zeta in Hlab. eexists. split; [exact Hlab|].
  cbn [entry nrow ncol concat_row concat_col index_cols index_rows].
  rewrite Hip, Nat.ltb_irrefl.
  rewrite app_nth2
    by (rewrite zero_where_length, length_map, length_seq, Hin; lia).
  rewrite zero_where_length, length_map, length_seq, Hin, Nat.sub_diag.
  reflexivity.
Qed.

Lemma corner_entry_is_zero_witness :
  exists (r : shuffled) (wd' : world),
    ResizeShuffleBoxes_call Examples.shuffle3 Examples.pair3
                            Examples.half_world = (Ok r, wd') /\
    exists lab : matrix, sh_labels r = Some lab /\ entry lab 3 3 = 0.
Proof.
  assert (Hrun : exists r wd',
             ResizeShuffleBoxes_call Examples.shuffle3 Examples.pair3
                                     Examples.half_world = (Ok r, wd'))
    by (eexists; eexists; lazy; reflexivity).
  destruct Hrun as [r [wd' Hrun]]. exists r, wd'.
  split; [exact Hrun|].
  exact (corner_entry_is_zero Examples.shuffle3 Examples.pair3
           Examples.frame100 Examples.half_world _ _ eq_refl Hrun).
Defined.

(** ** ResizeShuffleBoxes returns on well-shaped pairs *)

Lemma list_set_Forall {A : Type} (P : A -> Prop) (l : list A) (i : nat)
    (v : A) :
  Forall P l -> P v -> Forall P (list_set l i v).
Proof.
  intros Hl Hv. revert i. induction Hl as [|a l Ha Hl IH]; intros [|i]; simpl;
    constructor; auto.
Qed.

Lemma nth_Forall (P : nat -> Prop) (l : list nat) (i : nat) :
  Forall P l -> P 0%nat -> P (nth i l 0%nat).
Proof.
  intros Hl H0. revert i. induction Hl as [|a l Ha Hl IH]; intros [|i]; simpl;
    auto.
Qed.

(** The shuffle never raises, and every index it returns is one it was
    given. *)
Lemma shuffle_from_returns (P : nat -> Prop) (i : nat) (l : list nat)
    (wd : world) :
  Forall P l -> P 0%nat ->
  exists l' wd', shuffle_from i l wd = (Ok l', wd') /\ Forall P l'.
Proof.
  intros Hl H0. revert l wd Hl. induction i as [|i IH]; intros l wd Hl;
    cbn [shuffle_from].
  - exists l, wd. split; [reflexivity | exact Hl].
  - unfold bind. cbn [random_randint bind random_random ret].
    apply IH. unfold list_swap.
    apply list_set_Forall; [apply list_set_Forall|].
    + exact Hl.
    + apply nth_Forall; assumption.
    + apply nth_Forall; assumption.
Qed.

Lemma random_shuffle_arange (n : nat) (wd : world) :
  exists l wd',
    random_shuffle (seq 0 n) wd = (Ok l, wd') /\
    Forall (fun k => (k < n)%nat) l.
Proof.
  destruct n as [|n].
  - exists [], wd. split; [reflexivity | constructor].
  - apply shuffle_from_returns; [|lia].
    apply Forall_forall. intros k Hk. apply in_seq in Hk. lia.
Qed.

Lemma forallb_lt (n m : nat) (l : list nat) :
  Forall (fun k => (k < n)%nat) l -> (n <= m)%nat ->
  forallb (fun k => (k <? m)%nat) l = true.
Proof.
  intros Hl Hnm. apply forallb_forall. intros k Hk.
  rewrite Forall_forall in Hl. apply Nat.ltb_lt. specialize (Hl k Hk). lia.
Qed.

(** On a pair whose box sets fit the capacity M and whose correspondence
    matrix has at least M rows and M columns, [ResizeShuffleBoxes] returns,
    whatever the generator draws. *)
Lemma ResizeShuffleBoxes_returns (self : ResizeShuffleBoxes) (s : sample)
    (next : image) (bn : list box) (lab : matrix) (wd : world) :
  img_next s = Some next -> boxes_next s = Some bn -> labels s = Some lab ->
  (length (boxes_pre s) <= rsb_max_object self)%nat ->
  (length bn <= rsb_max_object self)%nat ->
  (rsb_max_object self <= nrow lab)%nat ->
  (rsb_max_object self <= ncol lab)%nat ->
  exists r wd', ResizeShuffleBoxes_call self s wd = (Ok r, wd').
Proof.
  intros En Eb El Hp Hn Hr Hc. unfold ResizeShuffleBoxes_call, resize_f.
  rewrite En, Eb, El.
  replace (rsb_max_object self <? length (boxes_pre s))%nat with false
    by (symmetry; apply Nat.ltb_ge; exact Hp).
  replace (rsb_max_object self <? length bn)%nat with false
    by (symmetry; apply Nat.ltb_ge; exact Hn).
  unfold bind at 1. cbn [lift]. unfold bind at 1.
  destruct (random_shuffle_arange (rsb_max_object self) wd)
    as (ip & wd1 & -> & Hip).
  unfold bind at 1. cbn [lift]. unfold bind at 1.
  destruct (random_shuffle_arange (rsb_max_object self) wd1)
    as (inx & wd2 & -> & Hin).
  rewrite (forallb_lt _ _ _ Hip Hr). cbn [negb index_rows ncol].
  rewrite (forallb_lt _ _ _ Hin Hc). cbn [negb].
  eexists. eexists. reflexivity.
Qed.

(** ** ToPercentCoords *)

Lemma percent_then_scale (w h : Q) (b : box) :
  0 < w -> 0 < h -> box_eq (scale_box w h (percent_box w h b)) b.
Proof.
  intros Hw Hh. unfold box_eq, scale_box, percent_box. simpl.
  assert (Hw' : ~ w == 0) by (intro E; rewrite E in Hw; exact (Qlt_irrefl _ Hw)).
  assert (Hh' : ~ h == 0) by (intro E; rewrite E in Hh; exact (Qlt_irrefl _ Hh)).
  repeat split; field; assumption.
Qed.

Lemma percent_then_scale_all (w h : Q) (bs : list box) :
  0 < w -> 0 < h ->
  Forall2 box_eq (map (scale_box w h) (map (percent_box w h) bs)) bs.
Proof.
  intros Hw Hh. induction bs as [|b bs IH]; simpl; constructor.
  - now apply percent_then_scale.
  - exact IH.
Qed.

(** C8.  On a frame of width w > 0 and height h > 0, [ToPercentCoords]
    returns, and multiplying the x coordinates of the boxes it returns by w
    and their y coordinates by h gives back the coordinates it was given,
    exactly, for the boxes of frame A and, when present, for the boxes of
    frame B. *)
Theorem ToPercentCoords_round_trip (s : sample) (wd : world) :
  (0 < width (img_pre s))%nat -> (0 < height (img_pre s))%nat ->
  let w := inject_Z (Z.of_nat (width (img_pre s))) in
  let h := inject_Z (Z.of_nat (height (img_pre s))) in
  exists s',
    ToPercentCoords_call s wd = (Ok s', wd) /\
    Forall2 box_eq (map (scale_box w h) (boxes_pre s')) (boxes_pre s) /\
    match boxes_next s, boxes_next s' with
    | Some bn, Some bn' => Forall2 box_eq (map (scale_box w h) bn') bn
    | None, None => True
    | _, _ => False
    end.
Proof.
  intros Hw Hh w h.
  assert (Hw' : 0 < w).
  { subst w. change 0 with (inject_Z 0). rewrite <- Zlt_Qlt. lia. }
  assert (Hh' : 0 < h).
  { subst h. change 0 with (inject_Z 0). rewrite <- Zlt_Qlt. lia. }
  eexists. split; [reflexivity|]. cbn [boxes_pre boxes_next]. split.
  - now apply percent_then_scale_all.
  - destruct (boxes_next s) as [bn|]; simpl; [|exact I].
    now apply percent_then_scale_all.
Qed.

Lemma ToPercentCoords_round_trip_witness :
  (0 < width (img_pre Examples.two_box_sample))%nat /\
  (0 < height (img_pre Examples.two_box_sample))%nat /\
  exists s',
    ToPercentCoords_call Examples.two_box_sample Examples.half_world
    = (Ok s', Examples.half_world) /\
    Forall2 box_eq (map (scale_box 100 100) (boxes_pre s'))
            (boxes_pre Examples.two_box_sample) /\
    match boxes_next Examples.two_box_sample, boxes_next s' with
    | Some bn, Some bn' => Forall2 box_eq (map (scale_box 100 100) bn') bn
    | None, None => True
    | _, _ => False
    end.
Proof.
  assert (Hw : (0 < width (img_pre Examples.two_box_sample))%nat)
    by (simpl; lia).
  assert (Hh : (0 < height (img_pre Examples.two_box_sample))%nat)
    by (simpl; lia).
  split; [exact Hw|]. split; [exact Hh|].
  exact (ToPercentCoords_round_trip Examples.two_box_sample
           Examples.half_world Hw Hh).
Defined.

(** ** Constructors *)

Lemma Qle_bool_false (a b : Q) : Qle_bool a b = false <-> b < a.
Proof.
  rewrite <- Qltb_lt. unfold Qltb. destruct (Qle_bool a b); simpl;
    split; congruence.
Qed.

Lemma range_init_raises {A : Type} (mk : Q -> Q -> A) (lower upper : Q) :
  then_ (assert (Qle_bool lower upper))
        (then_ (assert (Qle_bool 0 lower)) (Ok (mk lower upper)))
  = Raised AssertionError
  <-> upper < lower \/ lower < 0.
Proof.
  rewrite <- !Qle_bool_false.
  destruct (Qle_bool lower upper), (Qle_bool 0 lower); simpl;
    split; try congruence; intuition congruence.
Qed.

(** C9 fails as stated: [MoveBoxes] is constructed from an upper offset
    below the lower one, and from negative offsets; in the second case the
    object it builds has a negative [range]. *)
Lemma MoveBoxes_accepts_invalid_ranges :
  ((1 # 5) < (1 # 2) /\
   exists m, MoveBoxes_init (1 # 2) (1 # 5) = Ok m /\
             offset_low m == 1 # 2 /\ offset_high m == 1 # 2) /\
  (- (1) < 0 /\ - (1 # 2) < 0 /\
   exists m, MoveBoxes_init (- (1)) (- (1 # 2)) = Ok m /\
             offset_low m == 0 /\ offset_high m == - (1 # 2) /\ range m < 0).
Proof.
  split.
  - split; [reflexivity|]. eexists. split; [reflexivity|].
    split; reflexivity.
  - split; [reflexivity|]. split; [reflexivity|].
    eexists. split; [reflexivity|]. repeat split; reflexivity.
Qed.

(** C9, amended.  [RandomSaturation] and [RandomContrast] raise at
    construction exactly when upper < lower or lower < 0, and
    [RandomBrightness] and [RandomHue] exactly when their delta is outside
    [0, 255] and [0, 360]; [MoveBoxes] never raises: it stores
    max(offset_low, 0) as its lower offset, which is not negative, and an
    upper offset that is at least each of the two offsets given. *)
Theorem range_constructors :
  (forall lower upper,
      RandomSaturation_init lower upper = Raised AssertionError
      <-> upper < lower \/ lower < 0) /\
  (forall lower upper,
      RandomContrast_init lower upper = Raised AssertionError
      <-> upper < lower \/ lower < 0) /\
  (forall delta,
      RandomBrightness_init delta = Raised AssertionError
      <-> delta < 0 \/ 255 < delta) /\
  (forall delta,
      RandomHue_init delta = Raised AssertionError
      <-> delta < 0 \/ 360 < delta) /\
  (forall lower upper,
      exists m,
        MoveBoxes_init lower upper = Ok m /\
        offset_low m = Qmax lower 0 /\
        0 <= offset_low m /\
        lower <= offset_high m /\ upper <= offset_high m).
Proof.
  split; [intros; apply range_init_raises|].
  split; [intros; apply range_init_raises|].
  split; [|split].
  - intro delta. unfold RandomBrightness_init. rewrite <- !Qle_bool_false.
    destruct (Qle_bool 0 delta), (Qle_bool delta 255); simpl;
      split; try congruence; intuition congruence.
  - intro delta. unfold RandomHue_init. rewrite <- !Qle_bool_false.
    destruct (Qle_bool 0 delta), (Qle_bool delta 360); simpl;
      split; try congruence; intuition congruence.
  - intros lo hi. eexists. split; [reflexivity|]. cbn [offset_low offset_high].
    split; [reflexivity|].
    split; [apply Q.le_max_r|]. split; [apply Q.le_max_l | apply Q.le_max_r].
Qed.

(** ** PhotometricDistort and the training chain on a single frame *)

Lemma ConvertFromInts_single (s : sample) (wd : world) :
  img_next s = None ->
  exists s1, ConvertFromInts_call s wd = (Ok s1, wd) /\ img_next s1 = None.
Proof.
  intro Hn. unfold ConvertFromInts_call. rewrite Hn.
  eexists. split; reflexivity.
Qed.

Lemma MoveBoxes_single (self : MoveBoxes) (s : sample) (wd : world) :
  img_next s = None ->
  (exists e wd', MoveBoxes_call self s wd = (Raised e, wd')) \/
  (exists s1 wd', MoveBoxes_call self s wd = (Ok s1, wd')
                  /\ img_next s1 = None).
Proof.
  intro Hn. unfold MoveBoxes_call, bind.
  destruct (move self (img_pre s) (boxes_pre s) wd) as [[bp|e] wd1].
  - destruct (boxes_next s) as [bn|].
    + rewrite Hn. left. eexists. eexists. reflexivity.
    + right. eexists. eexists. split; [reflexivity|]. exact Hn.
  - left. eexists. eexists. reflexivity.
Qed.

Section TrainProperties.

Variables cvtColor_BGR2HSV cvtColor_HSV2BGR : image -> image.
Variable tensors : Type.
Variable train_tail : sample -> M tensors.

(** C10.  On a sample without a second frame [PhotometricDistort.__call__]
    raises (the [AttributeError] of [img_next.copy()]) before it draws
    anything, and every training chain that [DANAugmentation] builds
    raises on it. *)
Theorem single_frame_raises (ph : PhotometricDistort) (s : sample)
    (wd : world) :
  img_next s = None ->
  PhotometricDistort_call ph s wd = (Raised AttributeError, wd) /\
  forall cfg aug,
    DANAugmentation_train cvtColor_BGR2HSV cvtColor_HSV2BGR tensors
                          train_tail cfg = Ok aug ->
    exists e wd', aug s wd = (Raised e, wd').
Proof.
  intro Hn. split.
  - unfold PhotometricDistort_call. rewrite Hn. reflexivity.
  - intros cfg aug Haug. unfold DANAugmentation_train in Haug.
    destruct (MoveBoxes_init _ _) as [mv|e]; [|discriminate Haug].
    destruct (PhotometricDistort_init _ _ _ _ _ _) as [ph'|e];
      [|discriminate Haug].
    inversion Haug; subst aug; clear Haug.
    cbn [Compose_call]. unfold bind at 1. unfold bind at 1.
    destruct (ConvertFromInts_single s wd Hn) as [s1 [-> Hn1]].
    unfold bind at 1.
    destruct (MoveBoxes_single mv s1 wd Hn1)
      as [[e [wd1 ->]] | [s2 [wd1 [-> Hn2]]]].
    + exists e, wd1. reflexivity.
    + unfold bind at 1. unfold PhotometricDistort_call. rewrite Hn2.
      exists AttributeError, wd1. reflexivity.
Qed.

End TrainProperties.

Lemma single_frame_raises_witness :
  img_next Examples.single_sample = None /\
  exists aug,
    DANAugmentation_train (fun im => im) (fun im => im) sample ret
                          Examples.train_cfg = Ok aug /\
    exists e wd', aug Examples.single_sample Examples.half_world
                  = (Raised e, wd').
Proof.
  split; [reflexivity|].
  assert (Haug : exists aug,
             DANAugmentation_train (fun im => im) (fun im => im) sample ret
                                   Examples.train_cfg = Ok aug)
    by (eexists; reflexivity).
  destruct Haug as [aug Haug]. exists aug. split; [exact Haug|].
  assert (Hph : exists ph,
             PhotometricDistort_init (fun im => im) (fun im => im)
               (7 # 10) (15 # 10) (7 # 10) (15 # 10) = Ok ph)
    by (eexists; reflexivity).
  destruct Hph as [ph _].
  exact (proj2 (single_frame_raises (fun im => im) (fun im => im) sample ret
                  ph Examples.single_sample Examples.half_world eq_refl)
               Examples.train_cfg aug Haug).
Defined.

(** ** Truncation and slices *)

Lemma py_int_floor (x : Q) : 0 <= x -> py_int x = Qfloor x.
Proof.
  destruct x as [n d]. unfold Qle, py_int, Qfloor. simpl.
  rewrite Z.mul_1_r. intro Hn. apply Z.quot_div_nonneg; lia.
Qed.

Lemma py_int_nonneg (x : Q) : 0 <= x -> (0 <= py_int x)%Z.
Proof.
  intro Hx. rewrite py_int_floor by exact Hx.
  rewrite <- (Qfloor_Z 0). apply Qfloor_resp_le. exact Hx.
Qed.

Lemma py_int_le (x : Q) : 0 <= x -> inject_Z (py_int x) <= x.
Proof. intro Hx. rewrite py_int_floor by exact Hx. apply Qfloor_le. Qed.

(** An integer below a float is below its truncation. *)
Lemma le_py_int (z : Z) (x : Q) : 0 <= x -> inject_Z z <= x -> (z <= py_int x)%Z.
Proof.
  intros Hx Hz. rewrite py_int_floor by exact Hx.
  rewrite <- (Qfloor_Z z). apply Qfloor_resp_le. exact Hz.
Qed.

Lemma inject_nat_nonneg (n : nat) : 0 <= inject_Z (Z.of_nat n).
Proof. change 0 with (inject_Z 0). rewrite <- Zle_Qle. lia. Qed.

(** ** One axis of a box *)

(** Translating an interval by [d >= 0] inside a longer axis, as [Expand]
    does. *)
Lemma interval_shift (n n' : nat) (d : Z) (lo hi : Q) :
  (0 <= d)%Z -> (Z.of_nat n + d <= Z.of_nat n')%Z ->
  interval_ok n lo hi -> interval_ok n' (lo + inject_Z d) (hi + inject_Z d).
Proof.
  intros Hd Hn (H0 & H1 & H2). unfold interval_ok.
  assert (Hd' : 0 <= inject_Z d)
    by (change 0 with (inject_Z 0); rewrite <- Zle_Qle; exact Hd).
  assert (Hn' : inject_Z (Z.of_nat n) + inject_Z d <= inject_Z (Z.of_nat n'))
    by (rewrite <- inject_Z_plus, <- Zle_Qle; exact Hn).
  repeat split; lra.
Qed.

(** Clipping an interval whose midpoint is strictly between [r_lo] and
    [r_hi] to [r_lo, r_hi] and re-basing it at [r_lo], as [crop] does: the
    result is an ordered interval of the sliced axis. *)
Lemma interval_clip (n : nat) (r_lo r_hi : Z) (lo hi : Q) :
  (0 <= r_lo)%Z ->
  inject_Z r_lo < (lo + hi) / 2 -> (lo + hi) / 2 < inject_Z r_hi ->
  interval_ok n lo hi ->
  interval_ok (snd (py_slice n r_lo r_hi))
              (Qmax lo (inject_Z r_lo) - inject_Z r_lo)
              (Qmin hi (inject_Z r_hi) - inject_Z r_lo).
Proof.
  intros Hr Hlo Hhi (H0 & H1 & H2). unfold interval_ok.
  assert (Hmid : (lo + hi) / 2 == (lo + hi) * (1 # 2)) by (field).
  rewrite Hmid in Hlo, Hhi.
  assert (Hlt : (r_lo < Z.of_nat n)%Z) by (rewrite Zlt_Qlt; lra).
  assert (Hpos : (0 < r_hi)%Z).
  { rewrite Zlt_Qlt. change (inject_Z 0) with 0. lra. }
  assert (Hlt2 : (r_lo < r_hi)%Z) by (rewrite Zlt_Qlt; lra).
  unfold py_slice, slice_end. cbn [snd].
  destruct (r_lo <? 0)%Z eqn:E1; [apply Z.ltb_lt in E1; lia|].
  destruct (r_hi <? 0)%Z eqn:E2; [apply Z.ltb_lt in E2; lia|].
  assert (Hlen : Z.of_nat (Nat.min (Z.to_nat r_hi) n - Nat.min (Z.to_nat r_lo) n)
                 = (Z.min r_hi (Z.of_nat n) - r_lo)%Z) by lia.
  rewrite Hlen. unfold Zminus. rewrite inject_Z_plus, inject_Z_opp.
  assert (Hmin : Qmin hi (inject_Z r_hi) <= inject_Z (Z.min r_hi (Z.of_nat n))).
  { destruct (Z.min_spec r_hi (Z.of_nat n)) as [[_ ->] | [_ ->]].
    - apply Q.le_min_r.
    - eapply Qle_trans; [apply Q.le_min_l | exact H2]. }
  assert (Hmax0 : inject_Z r_lo <= Qmax lo (inject_Z r_lo)) by apply Q.le_max_r.
  assert (Hmax1 : Qmax lo (inject_Z r_lo) <= (lo + hi) * (1 # 2)).
  { apply Q.max_lub; lra. }
  assert (Hmin1 : (lo + hi) * (1 # 2) <= Qmin hi (inject_Z r_hi)).
  { apply Q.min_glb; lra. }
  repeat split; lra.
Qed.

(** A box that is valid in the sense of the data model is in its frame
    with the far edges included. *)
Lemma box_in_frame_closed (w h : nat) (b : box) :
  box_in_frame w h b -> x_in_closed_frame w b /\ y_in_closed_frame h b.
Proof.
  intros (Hx & Hy & Hx0 & Hx1 & Hy0 & Hy1).
  unfold x_in_closed_frame, y_in_closed_frame, interval_ok.
  repeat split; lra.
Qed.

(** Reflecting an interval in an axis of length [n], as [mirror] does:
    the ends stay in [0, n] and change order. *)
Lemma interval_mirror (n : nat) (lo hi : Q) :
  interval_ok n lo hi ->
  0 <= inject_Z (Z.of_nat n) - hi /\
  inject_Z (Z.of_nat n) - hi <= inject_Z (Z.of_nat n) - lo /\
  inject_Z (Z.of_nat n) - lo <= inject_Z (Z.of_nat n).
Proof. intros (H0 & H1 & H2). repeat split; lra. Qed.

(** ** Postconditions of runs under a generator with draws in [0, 1) *)

Lemma post_ret {A : Type} (a : A) (Q : A -> Prop) : Q a -> post (ret a) Q.
Proof.
  intros Ha wd a' wd' Ht H. apply ret_Ok in H. destruct H as [-> ->].
  split; assumption.
Qed.

Lemma post_raise {A : Type} (e : exn) (Q : A -> Prop) : post (raise e) Q.
Proof. intros wd a wd' _ H. discriminate H. Qed.

Lemma post_lift {A : Type} (r : result A) (Q : A -> Prop) :
  (forall a, r = Ok a -> Q a) -> post (lift r) Q.
Proof.
  intros Hr wd a wd' Ht H. apply lift_Ok in H. destruct H as [-> ->].
  split; [exact Ht | now apply Hr].
Qed.

Lemma post_bind {A B : Type} (c : M A) (k : A -> M B) (P : A -> Prop)
    (Q : B -> Prop) :
  post c P -> (forall a, P a -> post (k a) Q) -> post (bind c k) Q.
Proof.
  intros Hc Hk wd b wd' Ht H. apply bind_Ok in H.
  destruct H as [a [wd1 [H1 H2]]].
  destruct (Hc wd a wd1 Ht H1) as [Ht1 Ha].
  exact (Hk a Ha wd1 b wd' Ht1 H2).
Qed.

Lemma post_tick : post tick (fun _ => True).
Proof.
  intros wd a wd' Ht H. unfold tick in H. inversion H. split; [exact Ht | exact I].
Qed.

Lemma post_random : post random_random (fun u => 0 <= u /\ u < 1).
Proof.
  intros wd u wd' Ht H. unfold random_random in H. inversion H.
  split; [exact Ht | apply Ht].
Qed.

Lemma post_uniform (lo hi : Q) :
  post (random_uniform lo hi)
       (fun v => exists u, 0 <= u /\ u < 1 /\ v = lo + (hi - lo) * u).
Proof.
  unfold random_uniform. eapply post_bind; [apply post_random|].
  intros u [Hu0 Hu1]. apply post_ret. exists u. repeat split; assumption.
Qed.

Lemma post_randint (n : nat) : post (random_randint n) (fun _ => True).
Proof.
  unfold random_randint. eapply post_bind; [apply post_random|].
  intros u _. now apply post_ret.
Qed.

Lemma post_choice {A : Type} (l : list A) : post (random_choice l) (fun _ => True).
Proof.
  unfold random_choice. eapply post_bind; [apply post_randint|].
  intros i _. destruct (nth_error l i); [now apply post_ret | apply post_raise].
Qed.

(** A draw of [random.uniform(lo, hi)] is between its two arguments,
    whichever is the larger. *)
Lemma uniform_between (lo hi u : Q) :
  0 <= u -> u < 1 ->
  (lo <= hi -> lo <= lo + (hi - lo) * u /\ lo + (hi - lo) * u <= hi) /\
  (hi <= lo -> hi <= lo + (hi - lo) * u /\ lo + (hi - lo) * u <= lo).
Proof. intros H0 H1. split; intro H; split; nra. Qed.

(** ** RandomMirror, Expand and RandomSampleCrop on the boxes *)

Lemma boxes_satisfy_unpack (P : image -> box -> Prop) (s : sample) :
  boxes_satisfy P s ->
  Forall (P (img_pre s)) (boxes_pre s) /\
  forall next, img_next s = Some next ->
    height next = height (img_pre s) /\ width next = width (img_pre s) /\
    forall bn, boxes_next s = Some bn -> Forall (P next) bn.
Proof.
  unfold boxes_satisfy. intros [Hp Hn]. split; [exact Hp|].
  intros next E. rewrite E in Hn. destruct Hn as (Hh & Hw & Hb).
  split; [exact Hh|]. split; [exact Hw|].
  intros bn Eb. rewrite Eb in Hb. exact Hb.
Qed.

(** [mirror] keeps the frame size and the y coordinates, and maps an
    ordered x interval of the frame to a reversed one. *)
Lemma mirror_boxes (im : image) (boxes : list box) :
  height (fst (mirror im boxes)) = height im /\
  width (fst (mirror im boxes)) = width im /\
  (Forall (y_in_closed_frame (height im)) boxes ->
   Forall (y_in_closed_frame (height im)) (snd (mirror im boxes))) /\
  (Forall (x_in_closed_frame (width im)) boxes ->
   Forall (x_reversed_in_closed_frame (width im)) (snd (mirror im boxes))).
Proof.
  unfold mirror. cbn [fst snd height width].
  split; [reflexivity|]. split; [reflexivity|]. split; intro H.
  - apply Forall_map. eapply Forall_impl; [|exact H]. intros b Hb. exact Hb.
  - apply Forall_map. eapply Forall_impl; [|exact H]. intros b Hb.
    unfold x_reversed_in_closed_frame. cbn [x1 x2].
    apply interval_mirror. exact Hb.
Qed.

Lemma RandomMirror_post (s : sample) :
  post (RandomMirror_call s)
       (fun s' => (y_ok s -> y_ok s') /\
                  (x_ok s -> s' = s \/ x_reversed_ok s')).
Proof.
  unfold RandomMirror_call. eapply post_bind; [apply post_randint|].
  intros flip _. destruct (negb (flip =? 0)%nat).
  - destruct (img_next s) as [next|] eqn:En.
    + destruct (boxes_next s) as [bn|] eqn:Eb; [|apply post_raise].
      apply post_ret. split.
      * intro Hy. apply boxes_satisfy_unpack in Hy.
        destruct Hy as [Hp Hn]. destruct (Hn next En) as (Hh & Hw & Hb).
        specialize (Hb bn Eb).
        destruct (mirror_boxes (img_pre s) (boxes_pre s)) as (Eh & Ew & Hmy & _).
        destruct (mirror_boxes next bn) as (Eh' & Ew' & Hmy' & _).
        unfold y_ok, boxes_satisfy. cbn [img_pre img_next boxes_pre boxes_next].
        rewrite Eh, Eh', Ew, Ew'.
        split; [now apply Hmy|]. split; [exact Hh|]. split; [exact Hw|].
        now apply Hmy'.
      * intro Hx. right. apply boxes_satisfy_unpack in Hx.
        destruct Hx as [Hp Hn]. destruct (Hn next En) as (Hh & Hw & Hb).
        specialize (Hb bn Eb).
        destruct (mirror_boxes (img_pre s) (boxes_pre s)) as (Eh & Ew & _ & Hmx).
        destruct (mirror_boxes next bn) as (Eh' & Ew' & _ & Hmx').
        unfold x_reversed_ok, boxes_satisfy.
        cbn [img_pre img_next boxes_pre boxes_next].
        rewrite Eh, Eh', Ew, Ew'.
        split; [now apply Hmx|]. split; [exact Hh|]. split; [exact Hw|].
        now apply Hmx'.
    + apply post_ret. split.
      * intro Hy. destruct Hy as [Hp _].
        destruct (mirror_boxes (img_pre s) (boxes_pre s)) as (Eh & Ew & Hmy & _).
        unfold y_ok, boxes_satisfy. cbn [img_pre img_next boxes_pre boxes_next].
        rewrite Eh. split; [now apply Hmy | exact I].
      * intro Hx. right. destruct Hx as [Hp _].
        destruct (mirror_boxes (img_pre s) (boxes_pre s)) as (Eh & Ew & _ & Hmx).
        unfold x_reversed_ok, boxes_satisfy.
        cbn [img_pre img_next boxes_pre boxes_next].
        rewrite Ew. split; [now apply Hmx | exact I].
  - apply post_ret. split; [tauto | intros _; now left].
Qed.

Lemma expand_shape (self : Expand) (im im' : image) (h w d : nat)
    (ratio left top : Q) :
  expand self im h w d ratio left top = Ok im' ->
  height im' = Z.to_nat (py_int (inject_Z (Z.of_nat h) * ratio)) /\
  width im' = Z.to_nat (py_int (inject_Z (Z.of_nat w) * ratio)).
Proof.
  intro H. unfold expand in H. crop_cases H.
  inversion H. split; reflexivity.
Qed.

(** An interval of an axis of length [n], translated by [int(off)] for an
    offset [off] of [0, n * ratio - n], is an interval of the axis of
    length [int(n * ratio)]. *)
Lemma shift_in_canvas (n : nat) (ratio off lo hi : Q) :
  1 <= ratio -> 0 <= off ->
  off <= inject_Z (Z.of_nat n) * ratio - inject_Z (Z.of_nat n) ->
  interval_ok n lo hi ->
  interval_ok (Z.to_nat (py_int (inject_Z (Z.of_nat n) * ratio)))
              (lo + inject_Z (py_int off)) (hi + inject_Z (py_int off)).
Proof.
  intros Hr H0 Hoff Hi.
  pose proof (inject_nat_nonneg n) as Hn.
  assert (Hnr : 0 <= inject_Z (Z.of_nat n) * ratio) by nra.
  pose proof (py_int_nonneg _ Hnr) as Hc.
  pose proof (py_int_nonneg _ H0) as Hd.
  pose proof (py_int_le _ H0) as Hle.
  apply (interval_shift n); try assumption.
  rewrite Z2Nat.id by exact Hc.
  apply le_py_int; [exact Hnr|].
  rewrite inject_Z_plus. lra.
Qed.

Lemma Expand_post (self : Expand) (s : sample) :
  1 <= max_expand self ->
  post (Expand_call self s)
       (fun s' => (x_ok s -> x_ok s') /\ (y_ok s -> y_ok s')).
Proof.
  intro Hmax. unfold Expand_call. eapply post_bind; [apply post_randint|].
  intros skip _. destruct (negb (skip =? 0)%nat); [apply post_ret; tauto|].
  eapply post_bind; [apply post_uniform|].
  intros ratio (u & Hu0 & Hu1 & ->).
  assert (Hr : 1 <= 1 + (max_expand self - 1) * u) by nra.
  set (ratio := 1 + (max_expand self - 1) * u) in *.
  pose proof (inject_nat_nonneg (width (img_pre s))) as Hw0.
  pose proof (inject_nat_nonneg (height (img_pre s))) as Hh0.
  eapply post_bind; [apply post_uniform|].
  intros left (ul & Hl0 & Hl1 & ->).
  eapply post_bind; [apply post_uniform|].
  intros top (ut & Ht0 & Ht1 & ->).
  set (W := inject_Z (Z.of_nat (width (img_pre s)))) in *.
  set (H := inject_Z (Z.of_nat (height (img_pre s)))) in *.
  assert (HW : 0 <= W * ratio - W) by nra.
  assert (HH : 0 <= H * ratio - H) by nra.
  assert (Hleft : 0 <= 0 + (W * ratio - W - 0) * ul
                  /\ 0 + (W * ratio - W - 0) * ul <= W * ratio - W).
  { destruct (uniform_between 0 (W * ratio - W) ul Hl0 Hl1) as [Hb _].
    exact (Hb HW). }
  assert (Htop : 0 <= 0 + (H * ratio - H - 0) * ut
                 /\ 0 + (H * ratio - H - 0) * ut <= H * ratio - H).
  { destruct (uniform_between 0 (H * ratio - H) ut Ht0 Ht1) as [Hb _].
    exact (Hb HH). }
  set (left := 0 + (W * ratio - W - 0) * ul) in *.
  set (top := 0 + (H * ratio - H - 0) * ut) in *.
  eapply post_bind; [apply post_lift; intros pre Hpre; exact Hpre|].
  intros pre Hpre. cbv beta in Hpre. apply expand_shape in Hpre.
  destruct Hpre as [Hph Hpw].
  assert (Hxs : forall n b, x_in_closed_frame n b ->
                  n = width (img_pre s) ->
                  x_in_closed_frame (width pre)
                    (shift_box (py_int left) (py_int top) b)).
  { intros n b Hb ->. unfold x_in_closed_frame, shift_box. cbn [x1 x2].
    rewrite Hpw. apply shift_in_canvas; try tauto. }
  assert (Hys : forall n b, y_in_closed_frame n b ->
                  n = height (img_pre s) ->
                  y_in_closed_frame (height pre)
                    (shift_box (py_int left) (py_int top) b)).
  { intros n b Hb ->. unfold y_in_closed_frame, shift_box. cbn [y1 y2].
    rewrite Hph. apply shift_in_canvas; try tauto. }
  destruct (img_next s) as [next|] eqn:En.
  - eapply post_bind; [apply post_lift; intros nxt Hnxt; exact Hnxt|].
    intros nxt Hnxt. cbv beta in Hnxt. apply expand_shape in Hnxt.
    destruct Hnxt as [Hnh Hnw].
    destruct (boxes_next s) as [bn|] eqn:Eb; [|apply post_raise].
    apply post_ret. split; intro Hok; apply boxes_satisfy_unpack in Hok;
      destruct Hok as [Hp Hn]; destruct (Hn next En) as (Hh & Hw & Hb);
      specialize (Hb bn Eb);
      unfold x_ok, y_ok, boxes_satisfy;
      cbn [img_pre img_next boxes_pre boxes_next];
      (split; [apply Forall_map; eapply Forall_impl; [|exact Hp];
               intros b Hb'; eauto|]);
      (split; [congruence|]); (split; [congruence|]);
      apply Forall_map; (eapply Forall_impl; [|exact Hb]); intros b Hb'.
    + rewrite Hnw, <- Hpw. eauto.
    + rewrite Hnh, <- Hph. eauto.
  - apply post_ret. split; intros [Hp _];
      unfold x_ok, y_ok, boxes_satisfy;
      cbn [img_pre img_next boxes_pre boxes_next];
      (split; [|exact I]); apply Forall_map;
      (eapply Forall_impl; [|exact Hp]); intros b Hb'; eauto.
Qed.

Lemma image_slice_shape (im : image) (r_lo r_hi c_lo c_hi : Z) :
  height (image_slice im r_lo r_hi c_lo c_hi)
  = snd (py_slice (height im) r_lo r_hi) /\
  width (image_slice im r_lo r_hi c_lo c_hi)
  = snd (py_slice (width im) c_lo c_hi).
Proof.
  unfold image_slice.
  destruct (py_slice (height im) r_lo r_hi) as [rs rl].
  destruct (py_slice (width im) c_lo c_hi) as [cs cl].
  split; reflexivity.
Qed.

Section GeometricProperties.

Variable iou : list (Q * Q * Q * Q) -> Q * Q * Q * Q -> list Q.

(** What an accepted trial returns for the frame and the boxes. *)
Lemma crop_accepted (self : RandomSampleCrop) (im : image)
    (boxes : list box) (labels : option matrix) (md : mode)
    (min_iou max_iou : bound) (w h left top : Q) (isPre : bool)
    (im' : image) (boxes' : list box) (lab' : matrix) :
  crop iou self im boxes labels md min_iou max_iou w h left top isPre
  = Ok (Some (im', boxes', lab')) ->
  im' = image_slice im (py_int top) (py_int (top + h))
                    (py_int left) (py_int (left + w)) /\
  boxes' = map (clip_rebase (crop_rect w h left top))
               (filter (center_mask (crop_rect w h left top)) boxes).
Proof.
  intro H. unfold crop in H. cbn [crop_rect] in H.
  crop_cases H; inversion H; subst; clear H;
    rewrite bool_index_map_filter; split; reflexivity.
Qed.

(** The boxes of an accepted trial are in the cropped frame, far edges
    included, when they were in the frame and the rectangle starts inside
    it. *)
Lemma crop_boxes_in_frame (self : RandomSampleCrop) (im : image)
    (boxes : list box) (labels : option matrix) (md : mode)
    (min_iou max_iou : bound) (w h left top : Q) (isPre : bool)
    (im' : image) (boxes' : list box) (lab' : matrix) :
  0 <= left -> 0 <= top ->
  crop iou self im boxes labels md min_iou max_iou w h left top isPre
  = Ok (Some (im', boxes', lab')) ->
  height im' = snd (py_slice (height im) (py_int top) (py_int (top + h))) /\
  width im' = snd (py_slice (width im) (py_int left) (py_int (left + w))) /\
  (Forall (x_in_closed_frame (width im)) boxes ->
   Forall (x_in_closed_frame (width im')) boxes') /\
  (Forall (y_in_closed_frame (height im)) boxes ->
   Forall (y_in_closed_frame (height im')) boxes').
Proof.
  intros Hl Ht H. apply crop_accepted in H. destruct H as [-> ->].
  destruct (image_slice_shape im (py_int top) (py_int (top + h))
              (py_int left) (py_int (left + w))) as [Eh Ew].
  split; [exact Eh|]. split; [exact Ew|].
  rewrite Eh, Ew.
  split; intro Hall; apply Forall_map; apply Forall_forall; intros b Hb;
    apply filter_In in Hb; destruct Hb as [Hin Hm];
    apply center_mask_spec in Hm; unfold crop_rect, center_inside in Hm;
    destruct Hm as (Hx0 & Hy0 & Hx1 & Hy1);
    rewrite Forall_forall in Hall; specialize (Hall b Hin).
  - unfold x_in_closed_frame, clip_rebase, crop_rect. cbn [x1 x2].
    apply interval_clip; try assumption. now apply py_int_nonneg.
  - unfold y_in_closed_frame, clip_rebase, crop_rect. cbn [y1 y2].
    apply interval_clip; try assumption. now apply py_int_nonneg.
Qed.

(** The offsets drawn by a trial are not negative. *)
Lemma trial_offset_nonneg (n : nat) (u v : Q) :
  0 <= u -> u < 1 -> 0 <= v -> v < 1 ->
  let size := inject_Z (Z.of_nat n) in
  let w := (8 # 10) * size + (size - (8 # 10) * size) * u in
  0 <= (size - w) + (1 - (size - w)) * v.
Proof.
  intros Hu0 Hu1 Hv0 Hv1 size w.
  pose proof (inject_nat_nonneg n) as Hn. fold size in Hn.
  assert (Hle : (8 # 10) * size <= size) by lra.
  destruct (uniform_between ((8 # 10) * size) size u Hu0 Hu1) as [Hb _].
  specialize (Hb Hle). fold w in Hb.
  assert (Ha : 0 <= size - w) by lra.
  destruct (uniform_between (size - w) 1 v Hv0 Hv1) as [H1 H2].
  destruct (Qlt_le_dec (size - w) 1) as [Hlt | Hge].
  - assert (Hle1 : size - w <= 1) by lra. specialize (H1 Hle1). lra.
  - specialize (H2 Hge). lra.
Qed.

Lemma crop_trial_post (self : RandomSampleCrop) (s : sample) (md : mode)
    (min_iou max_iou : bound) :
  post (crop_trial iou self s md min_iou max_iou
                   (inject_Z (Z.of_nat (height (img_pre s))))
                   (inject_Z (Z.of_nat (width (img_pre s)))))
       (fun r => forall s', r = Some s' ->
                   (x_ok s -> x_ok s') /\ (y_ok s -> y_ok s')).
Proof.
  unfold crop_trial. eapply post_bind; [apply post_tick|]. intros _ _.
  eapply post_bind; [apply post_uniform|]. intros w (uw & Hw0 & Hw1 & ->).
  eapply post_bind; [apply post_uniform|]. intros h (uh & Hh0 & Hh1 & ->).
  destruct (Qeq_bool _ 0); [apply post_raise|].
  destruct (_ || _); [apply post_ret; discriminate|].
  eapply post_bind; [apply post_uniform|]. intros left (ul & Hl0 & Hl1 & ->).
  eapply post_bind; [apply post_uniform|]. intros top (ut & Ht0 & Ht1 & ->).
  pose proof (trial_offset_nonneg (width (img_pre s)) uw ul Hw0 Hw1 Hl0 Hl1)
    as Hleft.
  pose proof (trial_offset_nonneg (height (img_pre s)) uh ut Hh0 Hh1 Ht0 Ht1)
    as Htop.
  cbv zeta in Hleft, Htop.
  eapply post_bind; [apply post_lift; intros r Hr; exact Hr|].
  intros [[[pi pb] pl]|] Hpre; [|apply post_ret; discriminate].
  cbv beta in Hpre.
  destruct (crop_boxes_in_frame _ _ _ _ _ _ _ _ _ _ _ _ _ _ _ Hleft Htop Hpre)
    as (Eph & Epw & Hpx & Hpy).
  destruct (img_next s) as [next|] eqn:En.
  - destruct (boxes_next s) as [bn|] eqn:Eb; [|apply post_raise].
    eapply post_bind; [apply post_lift; intros r Hr; exact Hr|].
    intros [[[ni nb] nl]|] Hnext; [|apply post_ret; discriminate].
    cbv beta in Hnext.
    destruct (crop_boxes_in_frame _ _ _ _ _ _ _ _ _ _ _ _ _ _ _ Hleft Htop Hnext)
      as (Enh & Enw & Hnx & Hny).
    apply post_ret. intros s' Hs'. inversion Hs'; subst s'; clear Hs'.
    split; intro Hok; apply boxes_satisfy_unpack in Hok;
      destruct Hok as [Hp Hn]; destruct (Hn next En) as (Hh & Hw & Hb);
      specialize (Hb bn Eb);
      unfold x_ok, y_ok, boxes_satisfy;
      cbn [img_pre img_next boxes_pre boxes_next];
      (split; [auto|]); (split; [congruence|]); (split; [congruence|]); auto.
  - apply post_ret. intros s' Hs'. inversion Hs'; subst s'; clear Hs'.
    split; intros [Hp _]; unfold x_ok, y_ok, boxes_satisfy;
      cbn [img_pre img_next boxes_pre boxes_next]; (split; [auto | exact I]).
Qed.

Lemma crop_trials_post (n : nat) (self : RandomSampleCrop) (s : sample)
    (md : mode) (min_iou max_iou : bound) :
  post (crop_trials iou n self s md min_iou max_iou
                    (inject_Z (Z.of_nat (height (img_pre s))))
                    (inject_Z (Z.of_nat (width (img_pre s)))))
       (fun r => forall s', r = Some s' ->
                   (x_ok s -> x_ok s') /\ (y_ok s -> y_ok s')).
Proof.
  induction n as [|n IH]; cbn [crop_trials].
  - apply post_ret. discriminate.
  - eapply post_bind; [apply crop_trial_post|].
    intros [s1|] Hs1; [|exact IH].
    apply post_ret. intros s' Hs'. inversion Hs'; subst s'. now apply Hs1.
Qed.

Lemma call_pass_post (self : RandomSampleCrop) (s : sample) :
  post (call_pass iou self s)
       (fun r => forall s', r = Some s' ->
                   (x_ok s -> x_ok s') /\ (y_ok s -> y_ok s')).
Proof.
  unfold call_pass. eapply post_bind; [apply post_choice|].
  intros [[lo hi]|] _.
  - apply crop_trials_post.
  - apply post_ret. intros s' Hs'. inversion Hs'; subst s'. tauto.
Qed.

Lemma RandomSampleCrop_call_post (fuel : nat) (self : RandomSampleCrop)
    (s s' : sample) (wd wd' : world) :
  unit_tape wd ->
  RandomSampleCrop_call iou fuel self s wd = (Some (Ok s'), wd') ->
  unit_tape wd' /\ (x_ok s -> x_ok s') /\ (y_ok s -> y_ok s').
Proof.
  revert wd. induction fuel as [|fuel IH]; intros wd Ht H;
    cbn [RandomSampleCrop_call] in H; [discriminate H|].
  pose proof (call_pass_post self s wd) as Hp.
  destruct (call_pass iou self s wd) as [[[s1|]|e] wd1].
  - inversion H; subst s1 wd1; clear H.
    destruct (Hp _ _ Ht eq_refl) as [Ht' Hs]. split; [exact Ht'|].
    now apply Hs.
  - destruct (Hp _ _ Ht eq_refl) as [Ht' _]. exact (IH wd1 Ht' H).
  - discriminate H.
Qed.

End GeometricProperties.

Lemma boxes_satisfy_impl (P Q : image -> box -> Prop) (s : sample) :
  (forall im b, P im b -> Q im b) -> boxes_satisfy P s -> boxes_satisfy Q s.
Proof.
  intros HPQ [Hp Hn]. split.
  - eapply Forall_impl; [|exact Hp]. intros b. apply HPQ.
  - destruct (img_next s) as [next|]; [|exact I].
    destruct Hn as (Hh & Hw & Hb). split; [exact Hh|]. split; [exact Hw|].
    destruct (boxes_next s) as [bn|]; [|exact I].
    eapply Forall_impl; [|exact Hb]. intros b. apply HPQ.
Qed.

Lemma x_ok_within (s : sample) : x_ok s -> x_within_ok s.
Proof.
  apply boxes_satisfy_impl. intros im b (H0 & H1 & H2).
  unfold x_within_closed_frame. repeat split; lra.
Qed.

Lemma x_reversed_within (s : sample) : x_reversed_ok s -> x_within_ok s.
Proof.
  apply boxes_satisfy_impl. intros im b (H0 & H1 & H2).
  unfold x_within_closed_frame. repeat split; lra.
Qed.

Section SequenceProperties.

Variable iou : list (Q * Q * Q * Q) -> Q * Q * Q * Q -> list Q.

Lemma apply_geometric_post (g : geometric) (s s' : sample) (wd wd' : world) :
  unit_tape wd -> expands_by_at_least_one g ->
  apply_geometric iou g s wd = (Some (Ok s'), wd') ->
  unit_tape wd' /\
  (y_ok s -> y_ok s') /\
  (is_mirror g = false -> x_ok s -> x_ok s').
Proof.
  intros Ht Hg H. destruct g as [|e|c fuel]; cbn [apply_geometric] in H.
  - destruct (RandomMirror_call s wd) as [r wd1] eqn:E.
    inversion H; subst r wd1; clear H.
    destruct (RandomMirror_post s wd s' wd' Ht E) as [Ht' [Hy _]].
    split; [exact Ht'|]. split; [exact Hy | discriminate].
  - destruct (Expand_call e s wd) as [r wd1] eqn:E.
    inversion H; subst r wd1; clear H.
    destruct (Expand_post e s Hg wd s' wd' Ht E) as [Ht' [Hx Hy]].
    split; [exact Ht'|]. split; [exact Hy | intros _; exact Hx].
  - destruct (RandomSampleCrop_call_post iou fuel c s s' wd wd' Ht H)
      as [Ht' [Hx Hy]].
    split; [exact Ht'|]. split; [exact Hy | intros _; exact Hx].
Qed.

Lemma apply_sequence_post (gs : list geometric) (s s' : sample)
    (wd wd' : world) :
  unit_tape wd -> Forall expands_by_at_least_one gs ->
  apply_sequence iou gs s wd = (Some (Ok s'), wd') ->
  unit_tape wd' /\
  (y_ok s -> y_ok s') /\
  (existsb is_mirror gs = false -> x_ok s -> x_ok s').
Proof.
  revert s wd. induction gs as [|g gs IH]; intros s wd Ht Hgs H;
    cbn [apply_sequence] in H.
  - inversion H; subst s' wd'. tauto.
  - inversion Hgs as [|g' gs' Hg Hgs']; subst g' gs'.
    destruct (apply_geometric iou g s wd) as [[[s1|e]|] wd1] eqn:E;
      try discriminate H.
    destruct (apply_geometric_post g s s1 wd wd1 Ht Hg E) as (Ht1 & Hy1 & Hx1).
    destruct (IH s1 wd1 Ht1 Hgs' H) as (Ht2 & Hy2 & Hx2).
    split; [exact Ht2|]. split; [tauto|].
    cbn [existsb]. intros Hm Hx. apply orb_false_iff in Hm.
    destruct Hm as [Hm1 Hm2]. auto.
Qed.

(** C3, amended.  Let the boxes of a sample be in their frames with the
    far edges included (0 <= x1 <= x2 <= width, 0 <= y1 <= y2 <= height),
    the draws of the generator be in [0, 1) and every [Expand] have
    [max_expand >= 1].  After any sequence of [RandomMirror], [Expand] and
    [RandomSampleCrop] that returns, every box satisfies
    0 <= y1 <= y2 <= height of its frame.  After a sequence without
    [RandomMirror] every box also satisfies 0 <= x1 <= x2 <= width of its
    frame; and after a [RandomMirror] applied to the result of such a
    sequence, x1 and x2 are both in [0, width]. *)
Theorem geometric_sequence_boxes (gs : list geometric) (s s' : sample)
    (wd wd' : world) :
  unit_tape wd -> Forall expands_by_at_least_one gs ->
  apply_sequence iou gs s wd = (Some (Ok s'), wd') ->
  (y_ok s -> y_ok s') /\
  (existsb is_mirror gs = false -> x_ok s -> x_ok s') /\
  (existsb is_mirror gs = false -> x_ok s -> y_ok s ->
   forall m wd'',
     RandomMirror_call s' wd' = (Ok m, wd'') -> y_ok m /\ x_within_ok m).
Proof.
  intros Ht Hgs H.
  destruct (apply_sequence_post gs s s' wd wd' Ht Hgs H) as (Ht' & Hy & Hx).
  split; [exact Hy|]. split; [exact Hx|].
  intros Hm Hxs Hys m wd'' Hmir.
  destruct (RandomMirror_post s' wd' m wd'' Ht' Hmir) as [_ [Hmy Hmx]].
  split; [apply Hmy; exact (Hy Hys)|].
  destruct (Hmx (Hx Hm Hxs)) as [-> | Hrev].
  - apply x_ok_within. exact (Hx Hm Hxs).
  - apply x_reversed_within. exact Hrev.
Qed.

End SequenceProperties.

Lemma accepting_world_unit : unit_tape Examples.accepting_world.
Proof.
  intro n. cbn [tape Examples.accepting_world].
  destruct (n =? 0)%nat; [split; [discriminate | reflexivity]|].
  destruct (n =? 4)%nat; split; try discriminate; reflexivity.
Qed.

Lemma two_box_sample_ok :
  x_ok Examples.two_box_sample /\ y_ok Examples.two_box_sample.
Proof.
  unfold x_ok, y_ok, boxes_satisfy, x_in_closed_frame, y_in_closed_frame,
    interval_ok.
  cbn. repeat split; try discriminate; repeat constructor; discriminate.
Qed.

(** The theorem on a 100 x 100 pair with boxes (10, 10, 30, 30) and
    (50, 50, 80, 80): expanded by 1.5 at (25, 25), then cropped to
    (8, 8, 143, 143), the boxes are (27, 27, 47, 47) and (67, 67, 97, 97)
    in a frame of 135 x 135. *)
Lemma geometric_sequence_boxes_witness :
  unit_tape Examples.accepting_world /\
  Forall expands_by_at_least_one Examples.expand_then_crop /\
  exists s' wd',
    apply_sequence iou_xywh Examples.expand_then_crop
                   Examples.two_box_sample Examples.accepting_world
    = (Some (Ok s'), wd') /\
    shape (img_pre s') = (135, 135, 3)%nat /\
    boxes_pre s' = [mkBox 27 27 47 47; mkBox 67 67 97 97] /\
    y_ok s' /\ x_ok s'.
Proof.
  split; [exact accepting_world_unit|].
  assert (Hgs : Forall expands_by_at_least_one Examples.expand_then_crop).
  { repeat constructor. cbn. discriminate. }
  split; [exact Hgs|].
  assert (Hrun : exists s' wd',
             apply_sequence iou_xywh Examples.expand_then_crop
                            Examples.two_box_sample Examples.accepting_world
             = (Some (Ok s'), wd') /\
             shape (img_pre s') = (135, 135, 3)%nat /\
             boxes_pre s' = [mkBox 27 27 47 47; mkBox 67 67 97 97]).
  { eexists. eexists. split; [lazy; reflexivity|]. split; reflexivity. }
  destruct Hrun as (s' & wd' & Hrun & Hshape & Hboxes).
  exists s', wd'. split; [exact Hrun|]. split; [exact Hshape|].
  split; [exact Hboxes|].
  destruct (geometric_sequence_boxes iou_xywh Examples.expand_then_crop
              Examples.two_box_sample s' Examples.accepting_world wd'
              accepting_world_unit Hgs Hrun) as (Hy & Hx & _).
  split; [exact (Hy (proj2 two_box_sample_ok))
         | exact (Hx eq_refl (proj1 two_box_sample_ok))].
Defined.

(** C3 fails as stated.  A valid box set, mirrored: the boxes
    (10, 10, 30, 30) and (50, 50, 80, 80) of a 100 x 100 frame become
    (90, 10, 70, 30) and (50, 50, 20, 80), with x1 > x2.  And a crop that
    clips: the box (50, 50, 95, 95) cropped to the rectangle
    (10, 10, 90, 90) becomes (40, 40, 80, 80) in a frame of width 80, so
    x2 is the frame width and not below it. *)
Lemma mirror_reverses_x_order :
  (Forall (box_in_frame 100 100) Examples.two_boxes /\
   exists s' wd',
     apply_sequence iou_xywh [Mirror] Examples.two_box_sample
                    Examples.half_world = (Some (Ok s'), wd') /\
     shape (img_pre s') = (100, 100, 3)%nat /\
     boxes_pre s' = [mkBox 90 10 70 30; mkBox 50 50 20 80] /\
     ~ Forall (box_in_frame 100 100) (boxes_pre s')) /\
  (box_in_frame 100 100 Examples.edge_box /\
   exists im' lab',
     crop iou_xywh Examples.crop1 Examples.frame100 [Examples.edge_box]
          (Some Examples.lab1) (Some (None, None)) NegInf PosInf
          80 80 10 10 true
     = Ok (Some (im', [mkBox 40 40 80 80], lab')) /\
     shape im' = (80, 80, 3)%nat /\
     ~ Forall (box_in_frame 80 80) [mkBox 40 40 80 80]).
Proof.
  split.
  - split.
    + repeat constructor; cbn; discriminate.
    + eexists. eexists. split; [lazy; reflexivity|].
      split; [reflexivity|]. split; [reflexivity|].
      intro H. inversion H as [|b l Hb _]; subst.
      destruct Hb as [Hb _]. cbn in Hb. apply Hb. reflexivity.
  - split.
    + repeat split; cbn; discriminate.
    + eexists. eexists. split; [lazy; reflexivity|].
      split; [reflexivity|].
      intro H. inversion H as [|b l Hb _]; subst.
      destruct Hb as (_ & _ & _ & Hb & _). cbn in Hb. discriminate Hb.
Qed.

(** * Further properties of the transforms *)

(** ** Compose *)

(** X1.  [Compose] of a concatenated list of transforms is [Compose] of
    the first list followed by [Compose] of the second on its result; and
    when the first list raises, the whole chain raises the same exception
    in the same world, without running the second list. *)
Theorem Compose_call_app (ts1 ts2 : list transform) (s : sample) (wd : world) :
  Compose_call (ts1 ++ ts2) s wd
  = bind (Compose_call ts1 s) (Compose_call ts2) wd /\
  forall e wd',
    Compose_call ts1 s wd = (Raised e, wd') ->
    Compose_call (ts1 ++ ts2) s wd = (Raised e, wd').
Proof.
  assert (Happ : forall ts s0 wd0,
             Compose_call (ts ++ ts2) s0 wd0
             = bind (Compose_call ts s0) (Compose_call ts2) wd0).
  { induction ts as [|t ts IH]; intros s0 wd0; cbn [Compose_call app].
    - reflexivity.
    - unfold bind. destruct (t s0 wd0) as [[s1|e] wd1]; [|reflexivity].
      rewrite IH. reflexivity. }
  split; [apply Happ|].
  intros e wd' H. rewrite Happ. unfold bind. rewrite H. reflexivity.
Qed.

(** ** RandomMirror.mirror *)

(** X2.  Mirroring twice gives back the frame and the boxes: the shape is
    unchanged, every pixel inside the frame is the original pixel, and
    every box has its original coordinates. *)
Theorem mirror_involution (im : image) (boxes : list box) :
  let once := mirror im boxes in
  let twice := mirror (fst once) (snd once) in
  shape (fst twice) = shape im /\
  (forall r c k, (c < width im)%nat ->
     px (fst twice) r c k = px im r c k) /\
  Forall2 box_eq (snd twice) boxes.
Proof.
  cbv zeta. unfold mirror. cbn [fst snd shape height width depth px].
  split; [reflexivity|]. split.
  - intros r c k Hc. f_equal. lia.
  - rewrite map_map. induction boxes as [|b bs IH]; cbn [map]; constructor.
    + unfold box_eq. cbn [x1 y1 x2 y2]. repeat split; try reflexivity; ring.
    + exact IH.
Qed.

(** ** RandomSampleCrop: what an accepted trial needs and gives *)

Lemma floor_within (x : Q) :
  0 <= x -> inject_Z (py_int x) <= x /\ x < inject_Z (py_int x) + 1.
Proof.
  intro Hx. rewrite py_int_floor by exact Hx. split; [apply Qfloor_le|].
  pose proof (Qlt_floor x) as H. rewrite inject_Z_plus in H. exact H.
Qed.

(** The side of the cropped frame along an axis of length [n]: at most
    [n], and at least four fifths of it up to the truncation of the
    rectangle to whole pixels. *)
Lemma trial_side_kept (n : nat) (u v : Q) :
  0 <= u -> u < 1 -> 0 <= v -> v < 1 -> (1 <= n)%nat ->
  let size := inject_Z (Z.of_nat n) in
  let w := (8 # 10) * size + (size - (8 # 10) * size) * u in
  let left := (size - w) + (1 - (size - w)) * v in
  let len := snd (py_slice n (py_int left) (py_int (left + w))) in
  (len <= n)%nat /\ (4 * n <= 5 * len + 4)%nat.
Proof.
  intros Hu0 Hu1 Hv0 Hv1 Hn size w left len.
  assert (Hsize : 1 <= size).
  { subst size. change 1 with (inject_Z 1). rewrite <- Zle_Qle. lia. }
  assert (Hle : (8 # 10) * size <= size) by lra.
  destruct (uniform_between ((8 # 10) * size) size u Hu0 Hu1) as [Hb _].
  specialize (Hb Hle). fold w in Hb.
  pose proof (trial_offset_nonneg n u v Hu0 Hu1 Hv0 Hv1) as Hleft.
  cbv zeta in Hleft. fold size in Hleft. fold w in Hleft. fold left in Hleft.
  assert (Hlw : 0 <= left + w) by lra.
  destruct (floor_within left Hleft) as [Hl1 Hl2].
  destruct (floor_within (left + w) Hlw) as [Hr1 Hr2].
  pose proof (py_int_nonneg left Hleft) as Hr0.
  pose proof (py_int_nonneg (left + w) Hlw) as Hr2'.
  set (r0 := py_int left) in *. set (r2 := py_int (left + w)) in *.
  subst len. unfold py_slice, slice_end. cbn [snd].
  destruct (r0 <? 0)%Z eqn:E0; [apply Z.ltb_lt in E0; lia|].
  destruct (r2 <? 0)%Z eqn:E2; [apply Z.ltb_lt in E2; lia|].
  split; [lia|].
  destruct (uniform_between (size - w) 1 v Hv0 Hv1) as [H1 H2].
  fold left in H1, H2.
  destruct (Qlt_le_dec 1 (size - w)) as [Hgt | Hsmall].
  - (* the offset is drawn in [1, size - w]: the rectangle is inside *)
    assert (Hge : 1 <= size - w) by lra. specialize (H2 Hge).
    assert (Hr2n : (r2 <= Z.of_nat n)%Z).
    { rewrite Zle_Qle. fold size. lra. }
    assert (Hlen : inject_Z (4 * Z.of_nat n - 5) < inject_Z (5 * (r2 - r0))).
    { unfold Z.sub.
      repeat (rewrite inject_Z_plus || rewrite inject_Z_mult
              || rewrite inject_Z_opp).
      fold size. change (inject_Z 4) with 4. change (inject_Z 5) with 5.
      lra. }
    rewrite <- Zlt_Qlt in Hlen. lia.
  - (* the offset is drawn in [size - w, 1]: the rectangle reaches the edge *)
    specialize (H1 Hsmall).
    assert (Hr2n : (Z.of_nat n <= r2)%Z).
    { apply le_py_int; [exact Hlw|]. fold size. lra. }
    assert (Hr01 : (r0 <= 1)%Z).
    { assert (Hq : inject_Z r0 < inject_Z 2)
        by (change (inject_Z 2) with 2; lra).
      rewrite <- Zlt_Qlt in Hq. lia. }
    lia.
Qed.

(** ** The tape of draws is read, never written *)

Lemma keeps_tape_ret {A : Type} (a : A) : keeps_tape (ret a).
Proof. intro wd. reflexivity. Qed.

Lemma keeps_tape_raise {A : Type} (e : exn) : keeps_tape (@raise A e).
Proof. intro wd. reflexivity. Qed.

Lemma keeps_tape_lift {A : Type} (r : result A) : keeps_tape (lift r).
Proof. intro wd. reflexivity. Qed.

Lemma keeps_tape_bind {A B : Type} (c : M A) (k : A -> M B) :
  keeps_tape c -> (forall a, keeps_tape (k a)) -> keeps_tape (bind c k).
Proof.
  intros Hc Hk wd. unfold bind. specialize (Hc wd).
  destruct (c wd) as [[a|e] wd1]; simpl in *.
  - rewrite (Hk a wd1). exact Hc.
  - exact Hc.
Qed.

Lemma keeps_tape_tick : keeps_tape tick.
Proof. intro wd. reflexivity. Qed.

Lemma keeps_tape_random : keeps_tape random_random.
Proof. intro wd. reflexivity. Qed.

Lemma keeps_tape_uniform (lo hi : Q) : keeps_tape (random_uniform lo hi).
Proof.
  apply keeps_tape_bind; [apply keeps_tape_random | intro; apply keeps_tape_ret].
Qed.

Lemma keeps_tape_randint (n : nat) : keeps_tape (random_randint n).
Proof.
  apply keeps_tape_bind; [apply keeps_tape_random | intro; apply keeps_tape_ret].
Qed.

Lemma keeps_tape_choice {A : Type} (l : list A) : keeps_tape (random_choice l).
Proof.
  apply keeps_tape_bind; [apply keeps_tape_randint|].
  intro i. destruct (nth_error l i);
    [apply keeps_tape_ret | apply keeps_tape_raise].
Qed.

Create HintDb tape.
#[local] Hint Resolve keeps_tape_ret keeps_tape_raise keeps_tape_lift
  keeps_tape_tick keeps_tape_uniform keeps_tape_randint keeps_tape_choice
  : tape.

Section CropRuns.

Variable iou : list (Q * Q * Q * Q) -> Q * Q * Q * Q -> list Q.

Lemma crop_trial_keeps_tape (self : RandomSampleCrop) (s : sample) (md : mode)
    (mn mx : bound) (hh ww : Q) :
  keeps_tape (crop_trial iou self s md mn mx hh ww).
Proof.
  unfold crop_trial.
  apply keeps_tape_bind; [auto with tape|]. intros _.
  apply keeps_tape_bind; [auto with tape|]. intro w.
  apply keeps_tape_bind; [auto with tape|]. intro h.
  destruct (Qeq_bool w 0); [auto with tape|].
  destruct (Qltb (h / w) (1 # 2) || Qltb 2 (h / w)); [auto with tape|].
  apply keeps_tape_bind; [auto with tape|]. intro left.
  apply keeps_tape_bind; [auto with tape|]. intro top.
  apply keeps_tape_bind; [auto with tape|].
  intros [[[pi pb] pl]|]; [|auto with tape].
  destruct (img_next s); [|auto with tape].
  destruct (boxes_next s); [|auto with tape].
  apply keeps_tape_bind; [auto with tape|].
  intros [[[ni nb] nl]|]; auto with tape.
Qed.

(** What a trial that returns has drawn and done: the four draws are the
    next four entries of the tape, the width drawn is not zero and the
    aspect test passed, the crop of frame A was accepted and,
    for a pair, so was the crop of frame B with the same rectangle and
    the matrix the first crop returned. *)
Lemma crop_trial_accepted (self : RandomSampleCrop) (s s' : sample)
    (md : mode) (mn mx : bound) (hh ww : Q) (wd wd' : world) :
  crop_trial iou self s md mn mx hh ww wd = (Ok (Some s'), wd') ->
  let w := (8 # 10) * ww + (ww - (8 # 10) * ww) * tape wd (cursor wd) in
  let h := (8 # 10) * hh + (hh - (8 # 10) * hh) * tape wd (S (cursor wd)) in
  let left := (ww - w) + (1 - (ww - w)) * tape wd (S (S (cursor wd))) in
  let top := (hh - h) + (1 - (hh - h)) * tape wd (S (S (S (cursor wd)))) in
  ~ w == 0 /\
  Qltb (h / w) (1 # 2) || Qltb 2 (h / w) = false /\
  exists pi pb pl,
    crop iou self (img_pre s) (boxes_pre s) (labels s) md mn mx w h left top
         true = Ok (Some (pi, pb, pl)) /\
    match img_next s with
    | None => s' = mkSample pi None pb (boxes_next s) (labels s)
    | Some next =>
        exists bn ni nb nl,
          boxes_next s = Some bn /\
          crop iou self next bn (Some pl) md mn mx w h left top false
          = Ok (Some (ni, nb, nl)) /\
          s' = mkSample pi (Some ni) pb (Some nb) (Some nl)
    end.
Proof.
  intros H w h left top.
  cbv [crop_trial bind tick random_uniform random_random ret lift raise] in H.
  cbn [tape cursor trials] in H. fold w in H. fold h in H.
  destruct (Qeq_bool w 0) eqn:Ew; [discriminate H|].
  destruct (Qltb (h / w) (1 # 2) || Qltb 2 (h / w)) eqn:Ea;
    [discriminate H|].
  cbn [tape cursor trials] in H. fold left in H. fold top in H.
  split.
  { intro E. apply Qeq_bool_iff in E. congruence. }
  split; [reflexivity|].
  destruct (crop iou self (img_pre s) (boxes_pre s) (labels s) md mn mx
                 w h left top true) as [[[[pi pb] pl]|]|e] eqn:Epre;
    try discriminate H.
  exists pi, pb, pl. split; [reflexivity|].
  destruct (img_next s) as [next|].
  - destruct (boxes_next s) as [bn|]; [|discriminate H].
    destruct (crop iou self next bn (Some pl) md mn mx w h left top false)
      as [[[[ni nb] nl]|]|e] eqn:Enext; try discriminate H.
    inversion H; subst. exists bn, ni, nb, nl.
    split; [reflexivity|]. split; [first [exact Enext | reflexivity] | reflexivity].
  - inversion H; subst. reflexivity.
Qed.

(** A loop of trials that returns a sample returned it from one trial. *)
Lemma crop_trials_accepted (n : nat) (self : RandomSampleCrop) (s s' : sample)
    (md : mode) (mn mx : bound) (hh ww : Q) (wd wd' : world) :
  crop_trials iou n self s md mn mx hh ww wd = (Ok (Some s'), wd') ->
  exists wd1,
    tape wd1 = tape wd /\
    crop_trial iou self s md mn mx hh ww wd1 = (Ok (Some s'), wd').
Proof.
  revert wd. induction n as [|n IH]; intros wd H; cbn [crop_trials] in H.
  - discriminate H.
  - unfold bind in H.
    pose proof (crop_trial_keeps_tape self s md mn mx hh ww wd) as Ht.
    destruct (crop_trial iou self s md mn mx hh ww wd) as [[[s1|]|e] wd1] eqn:E;
      try discriminate H.
    + unfold ret in H. inversion H; subst s1 wd1. exists wd. split; [reflexivity | exact E].
    + cbn [snd] in Ht. destruct (IH wd1 H) as (wd2 & Ht2 & H2).
      exists wd2. split; [congruence | exact H2].
Qed.

Lemma call_pass_keeps_tape_on_retry (self : RandomSampleCrop) (s : sample)
    (wd wd' : world) (r : result (option sample)) :
  call_pass iou self s wd = (r, wd') -> tape wd' = tape wd.
Proof.
  intro H.
  assert (Hk : keeps_tape (call_pass iou self s)).
  { unfold call_pass. apply keeps_tape_bind; [auto with tape|].
    intros [[lo hi]|]; [|auto with tape].
    generalize 50%nat. intro n. induction n as [|n IH]; cbn [crop_trials];
      [auto with tape|].
    apply keeps_tape_bind; [apply crop_trial_keeps_tape|].
    intros [s1|]; [auto with tape | exact IH]. }
  specialize (Hk wd). rewrite H in Hk. exact Hk.
Qed.

(** A call that returns either returns its input or the sample of an
    accepted trial, run on the tape the call was given. *)
Lemma call_returns (fuel : nat) (self : RandomSampleCrop) (s s' : sample)
    (wd wd' : world) :
  RandomSampleCrop_call iou fuel self s wd = (Some (Ok s'), wd') ->
  s' = s \/
  exists md mn mx wd1,
    tape wd1 = tape wd /\
    crop_trial iou self s md mn mx
               (inject_Z (Z.of_nat (height (img_pre s))))
               (inject_Z (Z.of_nat (width (img_pre s)))) wd1
    = (Ok (Some s'), wd').
Proof.
  revert wd. induction fuel as [|fuel IH]; intros wd H;
    cbn [RandomSampleCrop_call] in H; [discriminate H|].
  destruct (call_pass iou self s wd) as [[[s1|]|e] wd1] eqn:E;
    try discriminate H.
  - inversion H; subst s1 wd1; clear H.
    unfold call_pass, bind in E.
    pose proof (keeps_tape_choice (sample_options self) wd) as Hc.
    destruct (random_choice (sample_options self) wd) as [[[[lo hi]|]|e] wd0];
      try discriminate E.
    + cbn [snd] in Hc. apply crop_trials_accepted in E.
      destruct E as (wd2 & Ht & E). right.
      exists (Some (lo, hi)), (bound_of lo NegInf), (bound_of hi PosInf), wd2.
      split; [congruence | exact E].
    + unfold ret in E. inversion E. now left.
  - apply call_pass_keeps_tape_on_retry in E.
    destruct (IH wd1 H) as [-> | (md & mn & mx & wd2 & Ht & H2)];
      [now left|].
    right. exists md, mn, mx, wd2. split; [congruence | exact H2].
Qed.

End CropRuns.

Section CropExtras.

Variable iou : list (Q * Q * Q * Q) -> Q * Q * Q * Q -> list Q.

(** What [crop] has checked by the time it returns a crop. *)
Lemma crop_accepted_needs (self : RandomSampleCrop) (im : image)
    (boxes : list box) (labels : option matrix) (md : mode)
    (min_iou max_iou : bound) (w h left top : Q) (isPre : bool)
    (im' : image) (boxes' : list box) (lab' : matrix) :
  crop iou self im boxes labels md min_iou max_iou w h left top isPre
  = Ok (Some (im', boxes', lab')) ->
  iou (map to_xywh boxes) (left, top, w, h) <> [] /\
  boxes' <> [] /\
  (length boxes <= max_object self)%nat /\
  exists lab,
    labels = Some lab /\
    (if isPre then nrow lab else ncol lab) = max_object self.
Proof.
  intro H. unfold crop in H. cbn [crop_rect] in H.
  crop_cases H; inversion H; subst; clear H;
    (split; [discriminate|]);
    match goal with
    | E : negb (existsb _ _) = false |- _ =>
        apply negb_false_iff in E; rewrite existsb_id_map in E;
        apply existsb_exists in E; destruct E as [b [Hin Hb]]
    end;
    (split;
     [ rewrite bool_index_map_filter; intro Hnil;
       apply (f_equal (@length box)) in Hnil; rewrite length_map in Hnil;
       assert (Hf : In b (filter (center_mask (py_int left, py_int top,
                                               py_int (left + w),
                                               py_int (top + h))) boxes))
         by (apply filter_In; split; assumption);
       destruct (filter _ boxes); [contradiction | discriminate Hnil]
     | ]);
    match goal with
    | E : (max_object self <? length _)%nat = false |- _ =>
        apply Nat.ltb_ge in E; rewrite length_map in E
    end;
    (split; [assumption|]);
    eexists; (split; [reflexivity|]);
    match goal with
    | E : negb (Nat.eqb (length ?ix) _) = false |- _ =>
        apply negb_false_iff, Nat.eqb_eq in E;
        rewrite !length_map, length_app, length_map, repeat_length in E;
        cbn [nrow ncol]; lia
    end.
Qed.

Lemma crop_needs_labels (self : RandomSampleCrop) (im : image)
    (boxes : list box) (md : mode) (min_iou max_iou : bound)
    (w h left top : Q) (isPre : bool)
    (res : image * list box * matrix) :
  crop iou self im boxes None md min_iou max_iou w h left top isPre
  <> Ok (Some res).
Proof.
  intro H. destruct res as [[im' boxes'] lab'].
  apply crop_accepted_needs in H.
  destruct H as (_ & _ & _ & lab & Hl & _). discriminate Hl.
Qed.

(** The matrix of an accepted trial, in terms of the positions of the
    surviving boxes. *)
Lemma crop_accepted_labels (self : RandomSampleCrop) (im : image)
    (boxes : list box) (md : mode) (min_iou max_iou : bound)
    (w h left top : Q) (lab : matrix) (isPre : bool)
    (im' : image) (boxes' : list box) (lab' : matrix) :
  crop iou self im boxes (Some lab) md min_iou max_iou w h left top isPre
  = Ok (Some (im', boxes', lab')) ->
  let rect := crop_rect w h left top in
  let kept := true_indices (map (center_mask rect) boxes) in
  nrow lab' = nrow lab /\ ncol lab' = ncol lab /\
  length boxes' = length kept /\
  (forall k, (k < length kept)%nat ->
     nth_error boxes' k
     = option_map (clip_rebase rect) (nth_error boxes (nth k kept 0%nat))) /\
  (forall i j,
     entry lab' i j
     = if isPre
       then if (i <? length kept)%nat then entry lab (nth i kept 0%nat) j
            else 0
       else if (j <? length kept)%nat then entry lab i (nth j kept 0%nat)
            else 0).
Proof.
  intros H rect kept. unfold crop in H. cbn [crop_rect] in H. fold rect in H.
  crop_cases H; inversion H; subst im' boxes' lab'; clear H;
    match goal with
    | E : negb (Nat.eqb (length ?ix) _) = false |- _ =>
        apply negb_false_iff, Nat.eqb_eq in E;
        pose proof (true_indices_from_length 0 ix) as Hle;
        fold (true_indices ix) in Hle;
        unfold take_rows, take_cols, pad_rows, pad_cols; cbn [nrow ncol entry];
        rewrite crop_index_positions in *; fold kept in Hle |- *
    end;
    (split; [lia|]); (split; [lia|]);
    rewrite bool_index_map_filter, length_map;
    (split; [symmetry; apply true_indices_from_filter|]);
    (split; [intros k Hk; rewrite nth_error_map;
             rewrite (bool_index_nth_error (center_mask rect) boxes 0 k Hk);
             rewrite Nat.sub_0_r; reflexivity
            | intros i j; reflexivity]).
Qed.

(** X3.  [crop] returns a crop only when the box set is not larger than
    [max_object] and the correspondence matrix is present and already has
    exactly [max_object] rows (frame A) or columns (frame B); then [iou]
    returned at least one value and at least one box is returned. *)
Theorem crop_accepts_only_padded_labels (self : RandomSampleCrop)
    (im : image) (boxes : list box) (labels : option matrix) (md : mode)
    (min_iou max_iou : bound) (w h left top : Q) (isPre : bool)
    (im' : image) (boxes' : list box) (lab' : matrix) :
  crop iou self im boxes labels md min_iou max_iou w h left top isPre
  = Ok (Some (im', boxes', lab')) ->
  iou (map to_xywh boxes) (left, top, w, h) <> [] /\
  boxes' <> [] /\
  (length boxes <= max_object self)%nat /\
  exists lab,
    labels = Some lab /\
    (if isPre then nrow lab else ncol lab) = max_object self.
Proof. apply crop_accepted_needs. Qed.

(** Without a matrix no trial is accepted. *)
Lemma call_needs_labels (fuel : nat)
    (self : RandomSampleCrop) (s s' : sample) (wd wd' : world) :
  labels s = None ->
  RandomSampleCrop_call iou fuel self s wd = (Some (Ok s'), wd') ->
  s' = s.
Proof.
  intros Hl H. apply call_returns in H.
  destruct H as [-> | (md & mn & mx & wd1 & _ & H)]; [reflexivity|].
  apply crop_trial_accepted in H. cbv zeta in H.
  destruct H as (_ & _ & pi & pb & pl & Hpre & _).
  rewrite Hl in Hpre. exfalso. exact (crop_needs_labels _ _ _ _ _ _ _ _ _ _ _ _ Hpre).
Qed.

(** X4.  On a sample without a correspondence matrix
    [RandomSampleCrop.__call__] never returns a crop: whenever it
    returns, it returns the sample it was given. *)
Theorem call_without_labels_returns_input (fuel : nat)
    (self : RandomSampleCrop) (s s' : sample) (wd wd' : world) :
  labels s = None ->
  RandomSampleCrop_call iou fuel self s wd = (Some (Ok s'), wd') ->
  s' = s.
Proof. exact (call_needs_labels fuel self s s' wd wd'). Qed.

(** X5.  When [RandomSampleCrop.__call__] returns a crop of a pair, the
    matrix it returns has the shape of the matrix it was given, and its
    entry (i, j) is the given entry at (the position of the i-th surviving
    box of frame A, the position of the j-th surviving box of frame B),
    and zero outside those rows and columns; the boxes returned for each
    frame are the boxes at those positions, clipped and re-based. *)
Theorem call_pair_labels_follow_boxes (fuel : nat) (self : RandomSampleCrop)
    (s s' : sample) (wd wd' : world) (next : image) (bn : list box)
    (lab : matrix) :
  img_next s = Some next -> boxes_next s = Some bn -> labels s = Some lab ->
  RandomSampleCrop_call iou fuel self s wd = (Some (Ok s'), wd') ->
  s' = s \/
  exists (rect : Z * Z * Z * Z) (lab' : matrix) (bn' : list box),
    let kept_pre := true_indices (map (center_mask rect) (boxes_pre s)) in
    let kept_next := true_indices (map (center_mask rect) bn) in
    labels s' = Some lab' /\ boxes_next s' = Some bn' /\
    nrow lab' = nrow lab /\ ncol lab' = ncol lab /\
    length (boxes_pre s') = length kept_pre /\
    length bn' = length kept_next /\
    (forall i, (i < length kept_pre)%nat ->
       nth_error (boxes_pre s') i
       = option_map (clip_rebase rect)
           (nth_error (boxes_pre s) (nth i kept_pre 0%nat))) /\
    (forall j, (j < length kept_next)%nat ->
       nth_error bn' j
       = option_map (clip_rebase rect) (nth_error bn (nth j kept_next 0%nat))) /\
    (forall i j,
       entry lab' i j
       = if ((i <? length kept_pre) && (j <? length kept_next))%nat
         then entry lab (nth i kept_pre 0%nat) (nth j kept_next 0%nat)
         else 0).
Proof.
  intros En Eb El H. apply call_returns in H.
  destruct H as [-> | (md & mn & mx & wd1 & _ & H)]; [now left|]. right.
  apply crop_trial_accepted in H. cbv zeta in H.
  destruct H as (_ & _ & pi & pb & pl & Hpre & Hnext).
  rewrite En in Hnext. destruct Hnext as (bn0 & ni & nb & nl & Eb0 & Hn & ->).
  rewrite Eb in Eb0. inversion Eb0; subst bn0; clear Eb0.
  rewrite El in Hpre.
  apply crop_accepted_labels in Hpre. apply crop_accepted_labels in Hn.
  cbv zeta in Hpre, Hn.
  destruct Hpre as (Hr1 & Hc1 & Hl1 & Hb1 & He1).
  destruct Hn as (Hr2 & Hc2 & Hl2 & Hb2 & He2).
  eexists. exists nl, nb. cbv zeta. cbn [labels boxes_next boxes_pre].
  split; [reflexivity|]. split; [reflexivity|].
  split; [congruence|]. split; [congruence|].
  split; [exact Hl1|]. split; [exact Hl2|].
  split; [exact Hb1|]. split; [exact Hb2|].
  intros i j. rewrite He2, He1.
  destruct (i <? _)%nat, (j <? _)%nat; reflexivity.
Qed.

(** The size of the frame that a returned crop keeps. *)
Lemma call_returns_size (fuel : nat) (self : RandomSampleCrop)
    (s s' : sample) (wd wd' : world) :
  unit_tape wd ->
  RandomSampleCrop_call iou fuel self s wd = (Some (Ok s'), wd') ->
  s' = s \/
  ((width (img_pre s') <= width (img_pre s))%nat /\
   (4 * width (img_pre s) <= 5 * width (img_pre s') + 4)%nat /\
   (height (img_pre s') <= height (img_pre s))%nat /\
   (4 * height (img_pre s) <= 5 * height (img_pre s') + 4)%nat /\
   boxes_pre s' <> []).
Proof.
  intros Ht H. apply call_returns in H.
  destruct H as [-> | (md & mn & mx & wd1 & Htape & H)]; [now left|]. right.
  assert (Ht1 : unit_tape wd1) by (intro n; rewrite Htape; apply Ht).
  apply crop_trial_accepted in H. cbv zeta in H.
  destruct (Ht1 (cursor wd1)) as [Hu0 Hu1].
  destruct (Ht1 (S (cursor wd1))) as [Hv0 Hv1].
  destruct (Ht1 (S (S (cursor wd1)))) as [Hl0 Hl1].
  destruct (Ht1 (S (S (S (cursor wd1))))) as [Hp0 Hp1].
  pose proof (trial_side_kept (width (img_pre s)) _ _ Hu0 Hu1 Hl0 Hl1) as Hsw.
  pose proof (trial_side_kept (height (img_pre s)) _ _ Hv0 Hv1 Hp0 Hp1) as Hsh.
  cbv zeta in Hsw, Hsh.
  set (W := inject_Z (Z.of_nat (width (img_pre s)))) in *.
  set (Hq := inject_Z (Z.of_nat (height (img_pre s)))) in *.
  set (w := (8 # 10) * W + (W - (8 # 10) * W) * tape wd1 (cursor wd1)) in *.
  set (h := (8 # 10) * Hq + (Hq - (8 # 10) * Hq) * tape wd1 (S (cursor wd1)))
    in *.
  set (left := W - w + (1 - (W - w)) * tape wd1 (S (S (cursor wd1)))) in *.
  set (top := Hq - h + (1 - (Hq - h)) * tape wd1 (S (S (S (cursor wd1)))))
    in *.
  destruct H as (Hw0 & Hasp & pi & pb & pl & Hpre & Hrest).
  pose proof (crop_accepted_needs _ _ _ _ _ _ _ _ _ _ _ _ _ _ _ Hpre)
    as (_ & Hne & _).
  pose proof (crop_accepted iou _ _ _ _ _ _ _ _ _ _ _ _ _ _ _ Hpre)
    as [Him _].
  assert (Hdims : img_pre s' = pi /\ boxes_pre s' = pb).
  { destruct (img_next s) as [next|].
    - destruct Hrest as (bn & ni & nb & nl & _ & _ & ->). split; reflexivity.
    - subst s'. split; reflexivity. }
  destruct Hdims as [-> ->].
  destruct (image_slice_shape (img_pre s) (py_int top) (py_int (top + h))
              (py_int left) (py_int (left + w))) as [Eh Ew].
  rewrite <- Him in Eh, Ew. rewrite Eh, Ew.
  assert (Hn1 : (1 <= width (img_pre s))%nat).
  { destruct (width (img_pre s)) as [|n] eqn:En; [|lia].
    exfalso. apply Hw0. subst w W. cbn. ring. }
  assert (Hh1 : (1 <= height (img_pre s))%nat).
  { destruct (height (img_pre s)) as [|n] eqn:En; [|lia].
    exfalso. apply orb_false_iff in Hasp. destruct Hasp as [Ha _].
    apply Qltb_ge in Ha.
    assert (Hh0 : h == 0) by (subst h Hq; cbn; ring).
    assert (Hd : h / w == 0) by (rewrite Hh0; unfold Qdiv; ring).
    rewrite Hd in Ha. revert Ha. apply Qlt_not_le. reflexivity. }
  destruct (Hsw Hn1) as [Hw1 Hw2]. destruct (Hsh Hh1) as [Hh2 Hh3].
  repeat split; assumption.
Qed.

(** X6.  When [RandomSampleCrop.__call__] returns a crop, under draws in
    [0, 1), the cropped frame A is not larger than the frame it was cut
    from and keeps at least four fifths of each side, up to the
    truncation of the rectangle to whole pixels (5 * side' + 4 >= 4 *
    side), and at least one box is returned with it. *)
Theorem call_crop_keeps_four_fifths (fuel : nat) (self : RandomSampleCrop)
    (s s' : sample) (wd wd' : world) :
  unit_tape wd ->
  RandomSampleCrop_call iou fuel self s wd = (Some (Ok s'), wd') ->
  s' = s \/
  ((width (img_pre s') <= width (img_pre s))%nat /\
   (4 * width (img_pre s) <= 5 * width (img_pre s') + 4)%nat /\
   (height (img_pre s') <= height (img_pre s))%nat /\
   (4 * height (img_pre s) <= 5 * height (img_pre s') + 4)%nat /\
   boxes_pre s' <> []).
Proof. exact (call_returns_size fuel self s s' wd wd'). Qed.

End CropExtras.

Lemma drop_world_unit : unit_tape Cases.drop_world.
Proof.
  intro n. cbn [tape Cases.drop_world].
  destruct (n =? 0)%nat; split; try discriminate; reflexivity.
Qed.

(** X3 on a 100 x 100 frame with two boxes, a 2 x 2 matrix and
    [max_object = 2]. *)
Lemma crop_accepts_only_padded_labels_witness :
  exists im' lab',
    crop iou_xywh Examples.crop2 Examples.frame100 Examples.two_boxes
         (Some Examples.lab2) (Some (None, None)) NegInf PosInf
         80 80 20 20 true
    = Ok (Some (im', [mkBox 30 30 60 60], lab')) /\
    iou_xywh (map to_xywh Examples.two_boxes) (20, 20, 80, 80) <> [] /\
    [mkBox 30 30 60 60] <> [] /\
    (length Examples.two_boxes <= max_object Examples.crop2)%nat /\
    exists lab,
      Some Examples.lab2 = Some lab /\
      (if true then nrow lab else ncol lab) = max_object Examples.crop2.
Proof.
  assert (Hrun : exists im' lab',
             crop iou_xywh Examples.crop2 Examples.frame100 Examples.two_boxes
                  (Some Examples.lab2) (Some (None, None)) NegInf PosInf
                  80 80 20 20 true
             = Ok (Some (im', [mkBox 30 30 60 60], lab')))
    by (eexists; eexists; reflexivity).
  destruct Hrun as (im' & lab' & Hrun). exists im', lab'.
  split; [exact Hrun|].
  exact (crop_accepts_only_padded_labels iou_xywh _ _ _ _ _ _ _ _ _ _ _ _ _ _ _
           Hrun).
Defined.

(** X4 on a single frame without a matrix, with a first draw of 0. *)
Lemma call_without_labels_returns_input_witness :
  labels Examples.single_sample = None /\
  exists s' wd',
    RandomSampleCrop_call iou_xywh 1 Examples.crop80 Examples.single_sample
                          Examples.zero_world = (Some (Ok s'), wd') /\
    s' = Examples.single_sample.
Proof.
  split; [reflexivity|].
  assert (Hrun : exists s' wd',
             RandomSampleCrop_call iou_xywh 1 Examples.crop80
               Examples.single_sample Examples.zero_world
             = (Some (Ok s'), wd'))
    by (eexists; eexists; reflexivity).
  destruct Hrun as (s' & wd' & Hrun). exists s', wd'.
  split; [exact Hrun|].
  exact (call_without_labels_returns_input iou_xywh 1 Examples.crop80
           Examples.single_sample s' Examples.zero_world wd' eq_refl Hrun).
Defined.

(** X5 on a pair of 100 x 100 frames with the boxes (10, 10, 30, 30) and
    (50, 50, 80, 80) in each and the 2 x 2 identity: the crop to
    (20, 20, 100, 100) drops the first box of each frame. *)
Lemma call_pair_labels_follow_boxes_witness :
  exists s' wd',
    RandomSampleCrop_call iou_xywh 1 Examples.crop2 Examples.two_box_sample
                          Cases.drop_world = (Some (Ok s'), wd') /\
    boxes_pre s' = [mkBox 30 30 60 60] /\
    (s' = Examples.two_box_sample \/
     exists (rect : Z * Z * Z * Z) (lab' : matrix) (bn' : list box),
       let kept_pre :=
         true_indices (map (center_mask rect)
                           (boxes_pre Examples.two_box_sample)) in
       let kept_next :=
         true_indices (map (center_mask rect) Examples.two_boxes) in
       labels s' = Some lab' /\ boxes_next s' = Some bn' /\
       nrow lab' = nrow Examples.lab2 /\ ncol lab' = ncol Examples.lab2 /\
       length (boxes_pre s') = length kept_pre /\
       length bn' = length kept_next /\
       (forall i, (i < length kept_pre)%nat ->
          nth_error (boxes_pre s') i
          = option_map (clip_rebase rect)
              (nth_error (boxes_pre Examples.two_box_sample)
                         (nth i kept_pre 0%nat))) /\
       (forall j, (j < length kept_next)%nat ->
          nth_error bn' j
          = option_map (clip_rebase rect)
              (nth_error Examples.two_boxes (nth j kept_next 0%nat))) /\
       (forall i j,
          entry lab' i j
          = if ((i <? length kept_pre) && (j <? length kept_next))%nat
            then entry Examples.lab2 (nth i kept_pre 0%nat)
                       (nth j kept_next 0%nat)
            else 0)).
Proof.
  assert (Hrun : exists s' wd',
             RandomSampleCrop_call iou_xywh 1 Examples.crop2
               Examples.two_box_sample Cases.drop_world
             = (Some (Ok s'), wd') /\
             boxes_pre s' = [mkBox 30 30 60 60])
    by (eexists; eexists; split; [lazy; reflexivity | reflexivity]).
  destruct Hrun as (s' & wd' & Hrun & Hb). exists s', wd'.
  split; [exact Hrun|]. split; [exact Hb|].
  exact (call_pair_labels_follow_boxes iou_xywh 1 Examples.crop2
           Examples.two_box_sample s' Cases.drop_world wd'
           Examples.frame100 Examples.two_boxes Examples.lab2
           eq_refl eq_refl eq_refl Hrun).
Defined.

(** X6 on the same run: the 100 x 100 frame is cropped to 80 x 80. *)
Lemma call_crop_keeps_four_fifths_witness :
  unit_tape Cases.drop_world /\
  exists s' wd',
    RandomSampleCrop_call iou_xywh 1 Examples.crop2 Examples.two_box_sample
                          Cases.drop_world = (Some (Ok s'), wd') /\
    shape (img_pre s') = (80, 80, 3)%nat /\
    (s' = Examples.two_box_sample \/
     ((width (img_pre s') <= width (img_pre Examples.two_box_sample))%nat /\
      (4 * width (img_pre Examples.two_box_sample)
       <= 5 * width (img_pre s') + 4)%nat /\
      (height (img_pre s') <= height (img_pre Examples.two_box_sample))%nat /\
      (4 * height (img_pre Examples.two_box_sample)
       <= 5 * height (img_pre s') + 4)%nat /\
      boxes_pre s' <> [])).
Proof.
  split; [exact drop_world_unit|].
  assert (Hrun : exists s' wd',
             RandomSampleCrop_call iou_xywh 1 Examples.crop2
               Examples.two_box_sample Cases.drop_world
             = (Some (Ok s'), wd') /\
             shape (img_pre s') = (80, 80, 3)%nat)
    by (eexists; eexists; split; [lazy; reflexivity | reflexivity]).
  destruct Hrun as (s' & wd' & Hrun & Hs). exists s', wd'.
  split; [exact Hrun|]. split; [exact Hs|].
  exact (call_crop_keeps_four_fifths iou_xywh 1 Examples.crop2
           Examples.two_box_sample s' Cases.drop_world wd'
           drop_world_unit Hrun).
Defined.

(** ** MoveBoxes *)

Lemma np_clip_range (v lo hi : Q) :
  lo <= hi -> lo <= np_clip v lo hi /\ np_clip v lo hi <= hi.
Proof.
  intro H. unfold np_clip. split.
  - apply Q.min_glb; [apply Q.le_max_r | exact H].
  - apply Q.le_min_r.
Qed.

Lemma Qmax_cases (a b : Q) :
  a <= Qmax a b /\ b <= Qmax a b /\ (Qmax a b <= a \/ Qmax a b <= b).
Proof.
  split; [apply Q.le_max_l|]. split; [apply Q.le_max_r|].
  destruct (Q.max_spec a b) as [[_ E] | [_ E]]; rewrite E;
    [right | left]; apply Qle_refl.
Qed.

Lemma Qmin_cases (a b : Q) :
  Qmin a b <= a /\ Qmin a b <= b /\ (a <= Qmin a b \/ b <= Qmin a b).
Proof.
  split; [apply Q.le_min_l|]. split; [apply Q.le_min_r|].
  destruct (Q.min_spec a b) as [[_ E] | [_ E]]; rewrite E;
    [left | right]; apply Qle_refl.
Qed.

(** [np.clip] is monotone and moves two values no further apart. *)
Lemma np_clip_step (a b lo hi : Q) :
  a <= b ->
  np_clip a lo hi <= np_clip b lo hi /\
  np_clip b lo hi - np_clip a lo hi <= b - a.
Proof.
  intro H. unfold np_clip.
  destruct (Qmax_cases a lo) as (A1 & A2 & A3).
  destruct (Qmax_cases b lo) as (B1 & B2 & B3).
  destruct (Qmin_cases (Qmax a lo) hi) as (C1 & C2 & C3).
  destruct (Qmin_cases (Qmax b lo) hi) as (D1 & D2 & D3).
  destruct A3, B3, C3, D3; split; lra.
Qed.

Lemma random_random_n_returns (n : nat) (wd : world) :
  exists l wd', random_random_n n wd = (Ok l, wd') /\ length l = n.
Proof.
  revert wd. induction n as [|n IH]; intro wd; cbn [random_random_n].
  - exists [], wd. split; reflexivity.
  - unfold bind at 1. cbn [random_random].
    destruct (IH (mkWorld (tape wd) (S (cursor wd)) (trials wd)))
      as (l & wd' & E & Hl).
    unfold bind at 1. rewrite E. eexists. eexists.
    split; [reflexivity|]. cbn [length]. now rewrite Hl.
Qed.

(** One moved box: clipped into the frame, in order when it was, and not
    larger than it was. *)
Lemma move_box_clipped (self : MoveBoxes) (im : image) (sx sy : Q) (b : box)
    (r : Q * Q) :
  (1 <= width im)%nat -> (1 <= height im)%nat ->
  let b' := move_box self (inject_Z (Z.of_nat (height im)))
                     (inject_Z (Z.of_nat (width im))) sx sy b r in
  box_in_pixels im b' /\
  (box_ordered b ->
   box_ordered b' /\
   x2 b' - x1 b' <= x2 b - x1 b /\ y2 b' - y1 b' <= y2 b - y1 b).
Proof.
  intros Hw Hh b'.
  assert (Hw' : 0 <= inject_Z (Z.of_nat (width im)) - 1).
  { assert (H1 : inject_Z 1 <= inject_Z (Z.of_nat (width im)))
      by (rewrite <- Zle_Qle; lia).
    change (inject_Z 1) with 1 in H1. lra. }
  assert (Hh' : 0 <= inject_Z (Z.of_nat (height im)) - 1).
  { assert (H1 : inject_Z 1 <= inject_Z (Z.of_nat (height im)))
      by (rewrite <- Zle_Qle; lia).
    change (inject_Z 1) with 1 in H1. lra. }
  subst b'. unfold move_box, box_in_pixels, box_ordered. cbn [x1 y1 x2 y2].
  split.
  - repeat split; apply np_clip_range; assumption.
  - intros [Hx Hy].
    set (cx := (x1 b + x2 b) / 2
               + (x2 b - x1 b) * (range self * fst r + offset_low self) * sx).
    set (cy := (y1 b + y2 b) / 2
               + (y2 b - y1 b) * (range self * snd r + offset_low self) * sy).
    assert (Hbx : cx - (x2 b - x1 b) / 2 <= cx + (x2 b - x1 b) / 2).
    { assert (E : (x2 b - x1 b) / 2 == (x2 b - x1 b) * (1 # 2)) by field.
      rewrite E. lra. }
    assert (Hby : cy - (y2 b - y1 b) / 2 <= cy + (y2 b - y1 b) / 2).
    { assert (E : (y2 b - y1 b) / 2 == (y2 b - y1 b) * (1 # 2)) by field.
      rewrite E. lra. }
    destruct (np_clip_step _ _ 0 (inject_Z (Z.of_nat (width im)) - 1) Hbx)
      as [Hx1 Hx2].
    destruct (np_clip_step _ _ 0 (inject_Z (Z.of_nat (height im)) - 1) Hby)
      as [Hy1 Hy2].
    assert (Ex : cx + (x2 b - x1 b) / 2 - (cx - (x2 b - x1 b) / 2)
                 == x2 b - x1 b) by field.
    assert (Ey : cy + (y2 b - y1 b) / 2 - (cy - (y2 b - y1 b) / 2)
                 == y2 b - y1 b) by field.
    rewrite Ex in Hx2. rewrite Ey in Hy2.
    repeat split; assumption.
Qed.

Lemma move_returns (self : MoveBoxes) (im : image) (boxes bs' : list box)
    (wd wd' : world) :
  move self im boxes wd = (Ok bs', wd') ->
  (1 <= width im)%nat -> (1 <= height im)%nat ->
  length bs' = length boxes /\
  Forall (box_in_pixels im) bs' /\
  (Forall box_ordered boxes ->
   Forall box_ordered bs' /\ boxes_not_larger bs' boxes).
Proof.
  intros H Hw Hh. unfold move in H. unfold shape in H.
  apply bind_Ok in H. destruct H as (rws & wd1 & Hrw & H).
  apply bind_Ok in H. destruct H as (rhs & wd2 & Hrh & H).
  apply bind_Ok in H. destruct H as (sx & wd3 & _ & H).
  apply bind_Ok in H. destruct H as (sy & wd4 & _ & H).
  apply ret_Ok in H. destruct H as [-> _].
  destruct (random_random_n_returns (length boxes) wd) as (l1 & w1 & E1 & L1).
  rewrite E1 in Hrw. inversion Hrw; subst l1 w1; clear Hrw.
  destruct (random_random_n_returns (length boxes) wd1) as (l2 & w2 & E2 & L2).
  rewrite E2 in Hrh. inversion Hrh; subst l2 w2; clear Hrh.
  clear E1 E2.
  revert rws rhs L1 L2.
  induction boxes as [|b bs IH]; intros [|rw rws] [|rh rhs] L1 L2;
    cbn [length] in L1, L2; try discriminate; cbn [combine map length].
  - split; [reflexivity|]. split; [constructor|].
    intros _. split; constructor.
  - destruct (IH rws rhs) as (Hlen & Hall & Hord); [lia | lia |].
    destruct (move_box_clipped self im sx sy b (rw, rh) Hw Hh) as [Hb Hbo].
    cbv zeta in Hb, Hbo. cbn [fst snd].
    split; [now rewrite Hlen|]. split; [constructor; assumption|].
    intro Hall0. inversion Hall0 as [|b0 l0 Hb0 Hbs0]; subst.
    destruct (Hord Hbs0) as [Ho Hn]. destruct (Hbo Hb0) as (Ho1 & Hn1 & Hn2).
    split; constructor; try assumption. split; assumption.
Qed.

(** X7.  Whenever [MoveBoxes.__call__] returns, on frames of at least one
    pixel, it returns the frames and the matrix it was given and one box
    per given box; every coordinate of every returned box is clipped to
    [0, width - 1] x [0, height - 1] of its frame; and boxes given with
    x1 <= x2 and y1 <= y2 are returned in that order and not wider or
    taller than given. *)
Theorem MoveBoxes_call_clips_boxes (self : MoveBoxes) (s s' : sample)
    (wd wd' : world) :
  MoveBoxes_call self s wd = (Ok s', wd') ->
  (1 <= width (img_pre s))%nat -> (1 <= height (img_pre s))%nat ->
  match img_next s with
  | Some next => (1 <= width next)%nat /\ (1 <= height next)%nat
  | None => True
  end ->
  img_pre s' = img_pre s /\ img_next s' = img_next s /\
  labels s' = labels s /\
  length (boxes_pre s') = length (boxes_pre s) /\
  Forall (box_in_pixels (img_pre s)) (boxes_pre s') /\
  (Forall box_ordered (boxes_pre s) ->
   Forall box_ordered (boxes_pre s')
   /\ boxes_not_larger (boxes_pre s') (boxes_pre s)) /\
  match boxes_next s, boxes_next s', img_next s with
  | Some bn, Some bn', Some next =>
      length bn' = length bn /\
      Forall (box_in_pixels next) bn' /\
      (Forall box_ordered bn ->
       Forall box_ordered bn' /\ boxes_not_larger bn' bn)
  | None, None, _ => True
  | _, _, _ => False
  end.
Proof.
  intros H Hw Hh Hn. unfold MoveBoxes_call in H.
  apply bind_Ok in H. destruct H as (bp & wd1 & Hp & H).
  destruct (move_returns _ _ _ _ _ _ Hp Hw Hh) as (Lp & Ap & Op).
  destruct (boxes_next s) as [bn|].
  - destruct (img_next s) as [next|]; [|discriminate H].
    apply bind_Ok in H. destruct H as (bn' & wd2 & Hnx & H).
    apply ret_Ok in H. destruct H as [-> _].
    destruct Hn as [Hnw Hnh].
    destruct (move_returns _ _ _ _ _ _ Hnx Hnw Hnh) as (Ln & An & On).
    cbn [img_pre img_next labels boxes_pre boxes_next].
    repeat split; try assumption; apply Op || apply On; assumption.
  - apply ret_Ok in H. destruct H as [-> _].
    cbn [img_pre img_next labels boxes_pre boxes_next].
    repeat split; try assumption; apply Op; assumption.
Qed.

(** X7 on a pair of 100 x 100 frames with two boxes each, every draw
    1/2. *)
Lemma MoveBoxes_call_clips_boxes_witness :
  exists s' wd',
    MoveBoxes_call Cases.mover Examples.two_box_sample Examples.half_world
    = (Ok s', wd') /\
    img_pre s' = img_pre Examples.two_box_sample /\
    img_next s' = img_next Examples.two_box_sample /\
    labels s' = labels Examples.two_box_sample /\
    length (boxes_pre s') = length (boxes_pre Examples.two_box_sample) /\
    Forall (box_in_pixels (img_pre Examples.two_box_sample)) (boxes_pre s') /\
    (Forall box_ordered (boxes_pre Examples.two_box_sample) ->
     Forall box_ordered (boxes_pre s')
     /\ boxes_not_larger (boxes_pre s') (boxes_pre Examples.two_box_sample)) /\
    match boxes_next Examples.two_box_sample, boxes_next s',
          img_next Examples.two_box_sample with
    | Some bn, Some bn', Some next =>
        length bn' = length bn /\
        Forall (box_in_pixels next) bn' /\
        (Forall box_ordered bn ->
         Forall box_ordered bn' /\ boxes_not_larger bn' bn)
    | None, None, _ => True
    | _, _, _ => False
    end.
Proof.
  assert (Hrun : exists s' wd',
             MoveBoxes_call Cases.mover Examples.two_box_sample
                            Examples.half_world = (Ok s', wd'))
    by (eexists; eexists; lazy; reflexivity).
  destruct Hrun as (s' & wd' & Hrun). exists s', wd'.
  split; [exact Hrun|].
  apply (MoveBoxes_call_clips_boxes Cases.mover Examples.two_box_sample s'
           Examples.half_world wd' Hrun).
  - cbn. lia.
  - cbn. lia.
  - cbn. split; lia.
Defined.

(** ** Expand *)

Lemma py_int_shift (x : Q) (z : Z) :
  0 <= x -> (0 <= z)%Z -> py_int (x + inject_Z z) = (py_int x + z)%Z.
Proof.
  intros Hx Hz.
  assert (Hz' : 0 <= inject_Z z)
    by (change 0 with (inject_Z 0); rewrite <- Zle_Qle; exact Hz).
  assert (Hxz : 0 <= x + inject_Z z) by lra.
  destruct (floor_within x Hx) as [H1 H2].
  destruct (floor_within (x + inject_Z z) Hxz) as [H3 H4].
  assert (Ha : inject_Z (py_int x + z) < inject_Z (py_int (x + inject_Z z) + 1)).
  { rewrite !inject_Z_plus. change (inject_Z 1) with 1. lra. }
  assert (Hb : inject_Z (py_int (x + inject_Z z)) < inject_Z (py_int x + z + 1)).
  { rewrite !inject_Z_plus. change (inject_Z 1) with 1. lra. }
  rewrite <- Zlt_Qlt in Ha, Hb. lia.
Qed.

(** The window of the canvas that [expand] assigns the frame to, when the
    offset was drawn as [Expand.__call__] draws it. *)
Lemma expand_window (n : nat) (ratio off : Q) :
  1 <= ratio -> 0 <= off ->
  off <= inject_Z (Z.of_nat n) * ratio - inject_Z (Z.of_nat n) ->
  py_slice (Z.to_nat (py_int (inject_Z (Z.of_nat n) * ratio)))
           (py_int off) (py_int (off + inject_Z (Z.of_nat n)))
  = (Z.to_nat (py_int off), n) /\
  (Z.to_nat (py_int off) + n
   <= Z.to_nat (py_int (inject_Z (Z.of_nat n) * ratio)))%nat.
Proof.
  intros Hr H0 Hoff.
  pose proof (inject_nat_nonneg n) as Hn.
  assert (Hnr : 0 <= inject_Z (Z.of_nat n) * ratio) by nra.
  pose proof (py_int_nonneg _ Hnr) as Hc.
  pose proof (py_int_nonneg _ H0) as Hd.
  pose proof (py_int_le _ H0) as Hle.
  assert (Hfit : (py_int off + Z.of_nat n
                  <= py_int (inject_Z (Z.of_nat n) * ratio))%Z).
  { apply le_py_int; [exact Hnr|]. rewrite inject_Z_plus. lra. }
  rewrite py_int_shift by (assumption || lia).
  unfold py_slice, slice_end.
  destruct (py_int off <? 0)%Z eqn:E1; [apply Z.ltb_lt in E1; lia|].
  destruct (py_int off + Z.of_nat n <? 0)%Z eqn:E2;
    [apply Z.ltb_lt in E2; lia|].
  split; [f_equal; lia | lia].
Qed.

(** [expand] on a frame of the shape it is told, with a mean of one value
    per channel (or a single value) and an offset drawn as
    [Expand.__call__] draws it: the canvas it returns. *)
Lemma expand_returns (self : Expand) (im : image) (ratio left top : Q) :
  broadcasts_to (length (mean self)) (depth im) = true ->
  1 <= ratio -> 0 <= left -> 0 <= top ->
  left <= inject_Z (Z.of_nat (width im)) * ratio - inject_Z (Z.of_nat (width im)) ->
  top <= inject_Z (Z.of_nat (height im)) * ratio - inject_Z (Z.of_nat (height im)) ->
  exists im',
    expand self im (height im) (width im) (depth im) ratio left top = Ok im' /\
    let dx := Z.to_nat (py_int left) in
    let dy := Z.to_nat (py_int top) in
    depth im' = depth im /\
    (dx + width im <= width im')%nat /\ (dy + height im <= height im')%nat /\
    (forall r c k,
       (r < height im)%nat -> (c < width im)%nat -> (k < depth im)%nat ->
       px im' (dy + r) (dx + c) k = px im r c k) /\
    (forall r c k,
       (r < dy \/ dy + height im <= r \/ c < dx \/ dx + width im <= c)%nat ->
       px im' r c k
       = nth (broadcast_index (length (mean self)) k) (mean self) 0).
Proof.
  intros Hm Hr Hl0 Ht0 Hl1 Ht1.
  destruct (expand_window (height im) ratio top Hr Ht0 Ht1) as [Ewh Hfh].
  destruct (expand_window (width im) ratio left Hr Hl0 Hl1) as [Eww Hfw].
  pose proof (inject_nat_nonneg (width im)) as Hwn.
  pose proof (inject_nat_nonneg (height im)) as Hhn.
  assert (Hrows : (0 <= py_int (inject_Z (Z.of_nat (height im)) * ratio))%Z)
    by (apply py_int_nonneg; nra).
  assert (Hcols : (0 <= py_int (inject_Z (Z.of_nat (width im)) * ratio))%Z)
    by (apply py_int_nonneg; nra).
  unfold expand, shape.
  replace (py_int (inject_Z (Z.of_nat (height im)) * ratio) <? 0)%Z
    with false by (symmetry; apply Z.ltb_ge; exact Hrows).
  replace (py_int (inject_Z (Z.of_nat (width im)) * ratio) <? 0)%Z
    with false by (symmetry; apply Z.ltb_ge; exact Hcols).
  cbn [orb]. rewrite Hm. cbn [negb]. rewrite Ewh, Eww.
  unfold broadcasts_to at 1 2 3. rewrite !Nat.eqb_refl. cbn [orb andb negb].
  eexists. split; [reflexivity|]. cbv zeta. cbn [depth width height px].
  split; [reflexivity|]. split; [exact Hfw|]. split; [exact Hfh|]. split.
  - intros r c k Hr' Hc' Hk'.
    replace ((Z.to_nat (py_int top) <=? Z.to_nat (py_int top) + r)
             && (Z.to_nat (py_int top) + r <? Z.to_nat (py_int top) + height im)
             && (Z.to_nat (py_int left) <=? Z.to_nat (py_int left) + c)
             && (Z.to_nat (py_int left) + c <? Z.to_nat (py_int left) + width im))%nat
      with true.
    + unfold broadcast_index.
      replace (Z.to_nat (py_int top) + r - Z.to_nat (py_int top))%nat with r by lia.
      replace (Z.to_nat (py_int left) + c - Z.to_nat (py_int left))%nat with c by lia.
      destruct (height im =? 1)%nat eqn:E1;
        destruct (width im =? 1)%nat eqn:E2;
        destruct (depth im =? 1)%nat eqn:E3;
        try apply Nat.eqb_eq in E1; try apply Nat.eqb_eq in E2;
        try apply Nat.eqb_eq in E3; f_equal; lia.
    + symmetry. rewrite !andb_true_iff. repeat split;
        (apply Nat.leb_le || apply Nat.ltb_lt); lia.
  - intros r c k Hout.
    replace ((Z.to_nat (py_int top) <=? r)
             && (r <? Z.to_nat (py_int top) + height im)
             && (Z.to_nat (py_int left) <=? c)
             && (c <? Z.to_nat (py_int left) + width im))%nat
      with false; [reflexivity|].
    symmetry. rewrite !andb_false_iff.
    destruct Hout as [H | [H | [H | H]]].
    + left. left. left. apply Nat.leb_gt. exact H.
    + left. left. right. apply Nat.ltb_ge. exact H.
    + left. right. apply Nat.leb_gt. exact H.
    + right. apply Nat.ltb_ge. exact H.
Qed.

Lemma expand_checked_mean (self : Expand) (im im' : image) (h w d : nat)
    (ratio left top : Q) :
  expand self im h w d ratio left top = Ok im' ->
  broadcasts_to (length (mean self)) d = true.
Proof.
  intro H. unfold expand in H. crop_cases H.
  match goal with
  | E : negb (broadcasts_to (length (mean self)) d) = false |- _ =>
      apply negb_false_iff in E; exact E
  end.
Qed.

(** What a call of [Expand] that returns has drawn and done. *)
Lemma Expand_call_returned (self : Expand) (s s' : sample) (wd wd' : world) :
  Expand_call self s wd = (Ok s', wd') ->
  s' = s \/
  let W := inject_Z (Z.of_nat (width (img_pre s))) in
  let H := inject_Z (Z.of_nat (height (img_pre s))) in
  let ratio := 1 + (max_expand self - 1) * tape wd (S (cursor wd)) in
  let left := 0 + (W * ratio - W - 0) * tape wd (S (S (cursor wd))) in
  let top := 0 + (H * ratio - H - 0) * tape wd (S (S (S (cursor wd)))) in
  exists pre,
    expand self (img_pre s) (height (img_pre s)) (width (img_pre s))
           (depth (img_pre s)) ratio left top = Ok pre /\
    match img_next s with
    | None =>
        s' = mkSample pre None
                      (map (shift_box (py_int left) (py_int top)) (boxes_pre s))
                      (boxes_next s) (labels s)
    | Some next =>
        exists nxt bn,
          expand self next (height (img_pre s)) (width (img_pre s))
                 (depth (img_pre s)) ratio left top = Ok nxt /\
          boxes_next s = Some bn /\
          s' = mkSample pre (Some nxt)
                        (map (shift_box (py_int left) (py_int top)) (boxes_pre s))
                        (Some (map (shift_box (py_int left) (py_int top)) bn))
                        (labels s)
    end.
Proof.
  intro E. 
  cbv [Expand_call bind random_randint random_uniform random_random ret lift
       raise] in E.
  cbn [tape cursor trials] in E.
  destruct (negb (Z.to_nat _ =? 0)%nat).
  - inversion E. now left.
  - right. cbv zeta.
    destruct (expand self (img_pre s) _ _ _ _ _ _) as [pre|e] eqn:Epre;
      [|discriminate E].
    exists pre. split; [reflexivity|].
    destruct (img_next s) as [next|].
    + destruct (expand self next _ _ _ _ _ _) as [nxt|e] eqn:Enxt;
        [|discriminate E].
      destruct (boxes_next s) as [bn|]; [|discriminate E].
      inversion E. exists nxt, bn. repeat split; reflexivity.
    + inversion E. reflexivity.
Qed.

(** The offsets of a call under draws in [0, 1) and [max_expand >= 1]. *)
Lemma expand_draws (n : nat) (mx u v : Q) :
  1 <= mx -> 0 <= u -> u < 1 -> 0 <= v -> v < 1 ->
  let size := inject_Z (Z.of_nat n) in
  let ratio := 1 + (mx - 1) * u in
  let off := 0 + (size * ratio - size - 0) * v in
  1 <= ratio /\ 0 <= off /\ off <= size * ratio - size.
Proof.
  intros Hm Hu0 Hu1 Hv0 Hv1 size ratio off.
  pose proof (inject_nat_nonneg n) as Hn. fold size in Hn.
  assert (Hr : 1 <= ratio) by (subst ratio; nra).
  assert (Hd : 0 <= size * ratio - size) by nra.
  destruct (uniform_between 0 (size * ratio - size) v Hv0 Hv1) as [Hb _].
  specialize (Hb Hd). fold off in Hb. tauto.
Qed.

(** Where [Expand.__call__] puts the frames and the boxes. *)
Lemma Expand_call_placed (self : Expand) (s s' : sample)
    (wd wd' : world) :
  unit_tape wd -> 1 <= max_expand self ->
  Expand_call self s wd = (Ok s', wd') ->
  s' = s \/
  exists dx dy : nat,
    labels s' = labels s /\
    boxes_pre s'
    = map (shift_box (Z.of_nat dx) (Z.of_nat dy)) (boxes_pre s) /\
    placed_at (mean self) (img_pre s) (img_pre s') dx dy /\
    match img_next s with
    | None => img_next s' = None /\ boxes_next s' = boxes_next s
    | Some next =>
        exists nxt bn,
          img_next s' = Some nxt /\ boxes_next s = Some bn /\
          boxes_next s'
          = Some (map (shift_box (Z.of_nat dx) (Z.of_nat dy)) bn) /\
          (shape next = shape (img_pre s) ->
           placed_at (mean self) next nxt dx dy)
    end.
Proof.
  intros Ht Hmax E. apply Expand_call_returned in E.
  destruct E as [-> | E]; [now left|]. right. cbv zeta in E.
  destruct (Ht (S (cursor wd))) as [Hu0 Hu1].
  destruct (Ht (S (S (cursor wd)))) as [Hl0 Hl1].
  destruct (Ht (S (S (S (cursor wd))))) as [Hp0 Hp1].
  destruct (expand_draws (width (img_pre s)) _ _ _ Hmax Hu0 Hu1 Hl0 Hl1)
    as (Hr & Hleft0 & Hleft1).
  destruct (expand_draws (height (img_pre s)) _ _ _ Hmax Hu0 Hu1 Hp0 Hp1)
    as (_ & Htop0 & Htop1).
  set (W := inject_Z (Z.of_nat (width (img_pre s)))) in *.
  set (H := inject_Z (Z.of_nat (height (img_pre s)))) in *.
  set (ratio := 1 + (max_expand self - 1) * tape wd (S (cursor wd))) in *.
  set (left := 0 + (W * ratio - W - 0) * tape wd (S (S (cursor wd)))) in *.
  set (top := 0 + (H * ratio - H - 0) * tape wd (S (S (S (cursor wd))))) in *.
  destruct E as (pre & Epre & Erest).
  pose proof (expand_checked_mean _ _ _ _ _ _ _ _ _ Epre) as Hmean.
  destruct (expand_returns self (img_pre s) ratio left top Hmean Hr Hleft0
              Htop0 Hleft1 Htop1) as (pre' & Epre' & Hplaced).
  rewrite Epre in Epre'. inversion Epre'; subst pre'; clear Epre'.
  cbv zeta in Hplaced.
  exists (Z.to_nat (py_int left)), (Z.to_nat (py_int top)).
  rewrite !Z2Nat.id by (apply py_int_nonneg; assumption).
  destruct (img_next s) as [next|].
  - destruct Erest as (nxt & bn & Enxt & Eb & ->).
    cbn [labels boxes_pre boxes_next img_pre img_next].
    split; [reflexivity|]. split; [reflexivity|]. split; [exact Hplaced|].
    exists nxt, bn. split; [reflexivity|]. split; [exact Eb|].
    split; [reflexivity|].
    intro Hshape. unfold shape in Hshape. inversion Hshape as [[Eh Ew Ed]].
    rewrite <- Eh, <- Ew, <- Ed in Enxt.
    assert (Hmean' : broadcasts_to (length (mean self)) (depth next) = true)
      by (rewrite Ed; exact Hmean).
    assert (HW : inject_Z (Z.of_nat (width next)) = W)
      by (subst W; now rewrite Ew).
    assert (HH : inject_Z (Z.of_nat (height next)) = H)
      by (subst H; now rewrite Eh).
    destruct (expand_returns self next ratio left top Hmean' Hr Hleft0
                Htop0) as (nxt' & Enxt' & Hp');
      [rewrite HW; exact Hleft1 | rewrite HH; exact Htop1 |].
    rewrite Enxt in Enxt'. inversion Enxt'; subst nxt'.
    exact Hp'.
  - subst s'. cbn [labels boxes_pre boxes_next img_pre img_next].
    split; [reflexivity|]. split; [reflexivity|]. split; [exact Hplaced|].
    split; reflexivity.
Qed.

(** X8.  When [Expand.__call__] returns, under draws in [0, 1) and with
    [max_expand >= 1], either it returns the sample it was given, or there
    are offsets dx, dy such that the frame is found unchanged at column
    dx, row dy of a larger canvas that shows the mean everywhere else,
    every box is translated by (dx, dy), and the matrix is the one given;
    a second frame of the same shape is placed at the same offsets and
    its boxes are translated by them. *)
Theorem Expand_call_places_frame (self : Expand) (s s' : sample)
    (wd wd' : world) :
  unit_tape wd -> 1 <= max_expand self ->
  Expand_call self s wd = (Ok s', wd') ->
  s' = s \/
  exists dx dy : nat,
    labels s' = labels s /\
    boxes_pre s'
    = map (shift_box (Z.of_nat dx) (Z.of_nat dy)) (boxes_pre s) /\
    placed_at (mean self) (img_pre s) (img_pre s') dx dy /\
    match img_next s with
    | None => img_next s' = None /\ boxes_next s' = boxes_next s
    | Some next =>
        exists nxt bn,
          img_next s' = Some nxt /\ boxes_next s = Some bn /\
          boxes_next s'
          = Some (map (shift_box (Z.of_nat dx) (Z.of_nat dy)) bn) /\
          (shape next = shape (img_pre s) ->
           placed_at (mean self) next nxt dx dy)
    end.
Proof. exact (Expand_call_placed self s s' wd wd'). Qed.

(** X9.  [Expand.__call__] never fails on a well-formed sample: under
    draws in [0, 1), with [max_expand >= 1] and a mean of one value per
    channel of the frame (or a single value), it returns, for a single
    frame and for a pair of frames of the same shape with boxes for the
    second frame. *)
Theorem Expand_call_returns (self : Expand) (s : sample) (wd : world) :
  unit_tape wd -> 1 <= max_expand self ->
  broadcasts_to (length (mean self)) (depth (img_pre s)) = true ->
  match img_next s with
  | None => True
  | Some next => shape next = shape (img_pre s) /\ boxes_next s <> None
  end ->
  exists s' wd', Expand_call self s wd = (Ok s', wd').
Proof.
  intros Ht Hmax Hmean Hnext.
  cbv [Expand_call bind random_randint random_uniform random_random ret lift
       raise].
  cbn [tape cursor trials].
  destruct (negb (Z.to_nat _ =? 0)%nat); [eexists; eexists; reflexivity|].
  cbn [tape cursor trials].
  destruct (Ht (S (cursor wd))) as [Hu0 Hu1].
  destruct (Ht (S (S (cursor wd)))) as [Hl0 Hl1].
  destruct (Ht (S (S (S (cursor wd))))) as [Hp0 Hp1].
  destruct (expand_draws (width (img_pre s)) _ _ _ Hmax Hu0 Hu1 Hl0 Hl1)
    as (Hr & Hleft0 & Hleft1).
  destruct (expand_draws (height (img_pre s)) _ _ _ Hmax Hu0 Hu1 Hp0 Hp1)
    as (_ & Htop0 & Htop1).
  set (W := inject_Z (Z.of_nat (width (img_pre s)))) in *.
  set (H := inject_Z (Z.of_nat (height (img_pre s)))) in *.
  set (ratio := 1 + (max_expand self - 1) * tape wd (S (cursor wd))) in *.
  set (left := 0 + (W * ratio - W - 0) * tape wd (S (S (cursor wd)))) in *.
  set (top := 0 + (H * ratio - H - 0) * tape wd (S (S (S (cursor wd))))) in *.
  destruct (expand_returns self (img_pre s) ratio left top Hmean Hr Hleft0
              Htop0 Hleft1 Htop1) as (pre & -> & _).
  destruct (img_next s) as [next|]; [|eexists; eexists; reflexivity].
  cbv beta iota. cbn [tape cursor trials].
  destruct Hnext as [Hshape Hbn].
  unfold shape in Hshape. inversion Hshape as [[Eh Ew Ed]].
  assert (Hmean' : broadcasts_to (length (mean self)) (depth next) = true)
    by (rewrite Ed; exact Hmean).
  assert (HW : inject_Z (Z.of_nat (width next)) = W)
    by (subst W; now rewrite Ew).
  assert (HH : inject_Z (Z.of_nat (height next)) = H)
    by (subst H; now rewrite Eh).
  destruct (expand_returns self next ratio left top Hmean' Hr Hleft0 Htop0)
    as (nxt & Enxt & _);
    [rewrite HW; exact Hleft1 | rewrite HH; exact Htop1 |].
  rewrite Enxt.
  destruct (boxes_next s) as [bn|]; [|contradiction].
  eexists. eexists. reflexivity.
Qed.

(** X8 on a pair of 100 x 100 frames: with draws 0, 1/2, 1/2, 1/2 the
    frames are placed at (25, 25) of 150 x 150 canvases. *)
Lemma Expand_call_places_frame_witness :
  unit_tape Examples.accepting_world /\
  1 <= max_expand Cases.expander /\
  exists s' wd',
    Expand_call Cases.expander Examples.two_box_sample
                Examples.accepting_world = (Ok s', wd') /\
    shape (img_pre s') = (150, 150, 3)%nat /\
    boxes_pre s' = [mkBox 35 35 55 55; mkBox 75 75 105 105] /\
    (s' = Examples.two_box_sample \/
     exists dx dy : nat,
       labels s' = labels Examples.two_box_sample /\
       boxes_pre s'
       = map (shift_box (Z.of_nat dx) (Z.of_nat dy))
             (boxes_pre Examples.two_box_sample) /\
       placed_at (mean Cases.expander) (img_pre Examples.two_box_sample)
                 (img_pre s') dx dy /\
       match img_next Examples.two_box_sample with
       | None => img_next s' = None
                 /\ boxes_next s' = boxes_next Examples.two_box_sample
       | Some next =>
           exists nxt bn,
             img_next s' = Some nxt /\
             boxes_next Examples.two_box_sample = Some bn /\
             boxes_next s'
             = Some (map (shift_box (Z.of_nat dx) (Z.of_nat dy)) bn) /\
             (shape next = shape (img_pre Examples.two_box_sample) ->
              placed_at (mean Cases.expander) next nxt dx dy)
       end).
Proof.
  split; [exact accepting_world_unit|].
  assert (Hmax : 1 <= max_expand Cases.expander) by (cbn; discriminate).
  split; [exact Hmax|].
  assert (Hrun : exists s' wd',
             Expand_call Cases.expander Examples.two_box_sample
                         Examples.accepting_world = (Ok s', wd') /\
             shape (img_pre s') = (150, 150, 3)%nat /\
             boxes_pre s' = [mkBox 35 35 55 55; mkBox 75 75 105 105])
    by (eexists; eexists; split; [lazy; reflexivity | split; reflexivity]).
  destruct Hrun as (s' & wd' & Hrun & Hs & Hb). exists s', wd'.
  split; [exact Hrun|]. split; [exact Hs|]. split; [exact Hb|].
  exact (Expand_call_places_frame Cases.expander Examples.two_box_sample s'
           Examples.accepting_world wd' accepting_world_unit Hmax Hrun).
Defined.

(** X9 on the same pair. *)
Lemma Expand_call_returns_witness :
  unit_tape Examples.accepting_world /\
  1 <= max_expand Cases.expander /\
  broadcasts_to (length (mean Cases.expander))
                (depth (img_pre Examples.two_box_sample)) = true /\
  exists s' wd',
    Expand_call Cases.expander Examples.two_box_sample
                Examples.accepting_world = (Ok s', wd').
Proof.
  split; [exact accepting_world_unit|].
  assert (Hmax : 1 <= max_expand Cases.expander) by (cbn; discriminate).
  split; [exact Hmax|]. split; [reflexivity|].
  apply (Expand_call_returns Cases.expander Examples.two_box_sample
           Examples.accepting_world accepting_world_unit Hmax eq_refl).
  cbn. split; [reflexivity | discriminate].
Defined.

(** ** ResizeShuffleBoxes: the shuffle is a permutation *)

Lemma half_world_unit : unit_tape Examples.half_world.
Proof. intro n. cbn. split; [discriminate | reflexivity]. Qed.

Lemma list_set_nth {A : Type} (l : list A) (i k : nat) (v d : A) :
  nth k (list_set l i v) d
  = if ((k =? i) && (i <? length l))%nat then v else nth k l d.
Proof.
  revert i k. induction l as [|a l IH]; intros i k.
  - cbn [list_set length]. rewrite andb_false_r.
    destruct i; reflexivity.
  - destruct i as [|i], k as [|k]; cbn [list_set nth length]; try reflexivity.
    apply IH.
Qed.

Lemma list_swap_nth (l : list nat) (i j k : nat) :
  (i < length l)%nat -> (j < length l)%nat ->
  nth k (list_swap l i j) 0%nat
  = nth (if (k =? j)%nat then i else if (k =? i)%nat then j else k) l 0%nat.
Proof.
  intros Hi Hj. unfold list_swap. rewrite !list_set_nth, list_set_length.
  apply Nat.ltb_lt in Hi, Hj. rewrite Hi, Hj, !andb_true_r.
  destruct (k =? j)%nat; [reflexivity|]. destruct (k =? i)%nat; reflexivity.
Qed.

Lemma list_swap_perm (l : list nat) (i j : nat) :
  (i < length l)%nat -> (j < length l)%nat ->
  Permutation (list_swap l i j) l.
Proof.
  intros Hi Hj. symmetry. apply (FinFun.Permutation_nth l (list_swap l i j) 0%nat).
  cbv zeta. split; [unfold list_swap; now rewrite !list_set_length|].
  exists (fun k => if (k =? j)%nat then i else if (k =? i)%nat then j else k).
  split; [|split].
  - intros x Hx. destruct (x =? j)%nat; [exact Hi|].
    destruct (x =? i)%nat; assumption.
  - intros x y Hx Hy.
    destruct (Nat.eqb_spec x j), (Nat.eqb_spec y j),
             (Nat.eqb_spec x i), (Nat.eqb_spec y i); lia.
  - intros x _. apply list_swap_nth; assumption.
Qed.

(** A draw of [randint(i + 1)] under draws in [0, 1) is at most [i]. *)
Lemma post_randint_le (i : nat) :
  post (random_randint (S i)) (fun j => (j <= i)%nat).
Proof.
  unfold random_randint. eapply post_bind; [apply post_random|].
  intros u [Hu0 Hu1]. apply post_ret.
  set (n := inject_Z (Z.of_nat (S i))).
  assert (Hn : 0 < n) by (unfold n; change 0 with (inject_Z 0); rewrite <- Zlt_Qlt; lia).
  assert (Hlt : u * n < n) by nra.
  assert (Hfl : (Qfloor (u * n) < Z.of_nat (S i))%Z).
  { rewrite Zlt_Qlt. fold n. eapply Qle_lt_trans; [apply Qfloor_le | exact Hlt]. }
  lia.
Qed.

Lemma shuffle_from_perm (i : nat) (l : list nat) :
  (i < length l \/ i = 0)%nat ->
  post (shuffle_from i l) (fun l' => Permutation l' l).
Proof.
  revert l. induction i as [|i IH]; intros l Hi; cbn [shuffle_from].
  - apply post_ret. reflexivity.
  - destruct Hi as [Hi|Hi]; [|discriminate Hi].
    eapply post_bind; [apply post_randint_le|].
    intros j Hj. cbv beta in Hj |- *.
    assert (Hs : Permutation (list_swap l (S i) j) l)
      by (apply list_swap_perm; lia).
    intros wd l' wd' Ht H.
    destruct (IH (list_swap l (S i) j)) with (wd := wd) (a := l') (wd' := wd')
      as [Ht' Hp]; try assumption.
    + left. unfold list_swap. rewrite !list_set_length. lia.
    + split; [exact Ht'|]. now rewrite Hp.
Qed.

Lemma random_shuffle_perm (n : nat) :
  post (random_shuffle (seq 0 n)) (fun l => Permutation l (seq 0 n)).
Proof.
  unfold random_shuffle. apply shuffle_from_perm. rewrite length_seq. lia.
Qed.

(** ** ResizeShuffleBoxes: rows and masks *)

Lemma map_nth_seq {A : Type} (l : list A) (d : A) :
  map (fun i => nth i l d) (seq 0 (length l)) = l.
Proof.
  induction l as [|a l IH]; [reflexivity|].
  cbn [length seq map nth]. f_equal.
  rewrite <- seq_shift, map_map. exact IH.
Qed.

Lemma padded_rows_length (M : nat) (boxes : list box) :
  (length boxes <= M)%nat -> length (padded_rows M boxes) = M.
Proof.
  intro H. unfold padded_rows. rewrite length_app, length_map, repeat_length. lia.
Qed.

Lemma padded_rows_nth (M : nat) (boxes : list box) (i : nat) :
  (forall b, nth_error boxes i = Some b ->
             nth i (padded_rows M boxes) inf_row = row_of_box b) /\
  ((length boxes <= i)%nat -> nth i (padded_rows M boxes) inf_row = inf_row).
Proof.
  unfold padded_rows. split.
  - intros b Hb.
    assert (Hi : (i < length boxes)%nat)
      by (apply nth_error_Some; rewrite Hb; discriminate).
    rewrite app_nth1 by (now rewrite length_map).
    apply nth_error_nth. rewrite nth_error_map, Hb. reflexivity.
  - intro Hi. rewrite app_nth2 by (now rewrite length_map).
    apply nth_repeat.
Qed.

Lemma count_below (n m k : nat) :
  count_occ Bool.bool_dec (map (fun i => (i <? n)%nat) (seq k m)) true
  = (Nat.min (k + m) n - Nat.min k n)%nat.
Proof.
  revert k. induction m as [|m IH]; intro k; cbn [seq map count_occ].
  - rewrite Nat.add_0_r. lia.
  - destruct (Bool.bool_dec (k <? n)%nat true) as [E|E]; rewrite IH.
    + apply Nat.ltb_lt in E. lia.
    + apply not_true_is_false, Nat.ltb_ge in E. lia.
Qed.

(** The rows and the mask that [__call__] builds from a permutation of
    [arange(M)]. *)
Lemma shuffled_copy_of_perm (M : nat) (boxes : list box) (indexes : list nat) :
  (length boxes <= M)%nat -> Permutation indexes (seq 0 M) ->
  shuffled_copy M boxes
    (map (fun i => nth i (padded_rows M boxes) inf_row) indexes)
    (map (fun i => (i <? length boxes)%nat) indexes ++ [true]).
Proof.
  intros Hn Hp.
  assert (Hlen : length indexes = M)
    by (rewrite (Permutation_length Hp); apply length_seq).
  assert (Hmask : forall k, (k < M)%nat ->
            nth k (map (fun i => (i <? length boxes)%nat) indexes ++ [true])
                false
            = (nth k indexes 0 <? length boxes)%nat).
  { intros k Hk. rewrite app_nth1 by (now rewrite length_map, Hlen).
    rewrite (nth_indep _ false ((0 <? length boxes)%nat))
      by (now rewrite length_map, Hlen).
    apply (map_nth (fun i => (i <? length boxes)%nat)). }
  assert (Hrow : forall k, (k < M)%nat ->
            nth k (map (fun i => nth i (padded_rows M boxes) inf_row) indexes)
                inf_row
            = nth (nth k indexes 0%nat) (padded_rows M boxes) inf_row).
  { intros k Hk.
    rewrite (nth_indep _ inf_row (nth 0 (padded_rows M boxes) inf_row))
      by (now rewrite length_map, Hlen).
    apply (map_nth (fun i => nth i (padded_rows M boxes) inf_row)). }
  unfold shuffled_copy. split; [|split; [|split; [|split; [|split]]]].
  - pose proof (map_nth_seq (padded_rows M boxes) inf_row) as E.
    rewrite padded_rows_length in E by exact Hn.
    eapply Permutation_trans; [apply Permutation_map; exact Hp|].
    rewrite E. reflexivity.
  - rewrite length_app, length_map, Hlen. cbn. lia.
  - rewrite app_nth2 by (rewrite length_map, Hlen; lia).
    rewrite length_map, Hlen, Nat.sub_diag. reflexivity.
  - intros k Hk Ht. rewrite Hmask in Ht by exact Hk. apply Nat.ltb_lt in Ht.
    destruct (nth_error boxes (nth k indexes 0%nat)) as [b|] eqn:Eb;
      [|apply nth_error_None in Eb; lia].
    exists b. split; [eapply nth_error_In; exact Eb|].
    rewrite Hrow by exact Hk. now apply padded_rows_nth.
  - intros k Hk Hf. rewrite Hmask in Hf by exact Hk. apply Nat.ltb_ge in Hf.
    rewrite Hrow by exact Hk. now apply padded_rows_nth.
  - rewrite count_occ_app. cbn [count_occ].
    destruct (Bool.bool_dec true true) as [_|E]; [|congruence].
    rewrite (proj1 (Permutation_count_occ Bool.bool_dec
                      (map (fun i => (i <? length boxes)%nat) indexes)
                      (map (fun i => (i <? length boxes)%nat) (seq 0 M)))
                   (Permutation_map _ Hp) true).
    rewrite count_below. lia.
Qed.

(** ** ResizeShuffleBoxes: the whole call *)

Lemma forallb_perm_bound (M n : nat) (indexes : list nat) :
  Permutation indexes (seq 0 M) ->
  forallb (fun i => (i <? n)%nat) indexes = true -> (M <= n)%nat.
Proof.
  intros Hp Hf. destruct M as [|M]; [lia|].
  rewrite forallb_forall in Hf.
  assert (Hin : In M indexes).
  { apply (Permutation_in M (Permutation_sym Hp)). apply in_seq. lia. }
  apply Hf, Nat.ltb_lt in Hin. lia.
Qed.

Lemma resize_f_Ok (self : ResizeShuffleBoxes) (boxes : list box) (n : nat)
    (rows : list padded_box) :
  resize_f self boxes = Ok (n, rows) ->
  (length boxes <= rsb_max_object self)%nat /\ n = length boxes /\
  rows = padded_rows (rsb_max_object self) boxes.
Proof.
  unfold resize_f, padded_rows.
  destruct (rsb_max_object self <? length boxes)%nat eqn:E; [discriminate|].
  apply Nat.ltb_ge in E. intro H. inversion H. repeat split; assumption || reflexivity.
Qed.

(** What a run of [ResizeShuffleBoxes.__call__] that returns has drawn and
    built, under draws in [0, 1). *)
Lemma ResizeShuffleBoxes_run (self : ResizeShuffleBoxes) (s : sample)
    (wd wd' : world) (r : shuffled) :
  unit_tape wd ->
  ResizeShuffleBoxes_call self s wd = (Ok r, wd') ->
  let M := rsb_max_object self in
  exists indexes_pre : list nat,
    Permutation indexes_pre (seq 0 M) /\
    (length (boxes_pre s) <= M)%nat /\
    sh_boxes_pre r
    = (map (fun i => nth i (padded_rows M (boxes_pre s)) inf_row) indexes_pre,
       map (fun i => (i <? length (boxes_pre s))%nat) indexes_pre ++ [true]) /\
    match img_next s with
    | None =>
        sh_boxes_next r = (option_map (map row_of_box) (boxes_next s), None) /\
        sh_labels r = labels s
    | Some _ =>
        exists (indexes_next : list nat) (bn : list box) (lab0 : matrix),
          Permutation indexes_next (seq 0 M) /\
          boxes_next s = Some bn /\ labels s = Some lab0 /\
          (length bn <= M)%nat /\ (M <= nrow lab0)%nat /\
          (M <= ncol lab0)%nat /\
          sh_boxes_next r
          = (Some (map (fun i => nth i (padded_rows M bn) inf_row)
                       indexes_next),
             Some (map (fun i => (i <? length bn)%nat) indexes_next
                   ++ [true])) /\
          let mask_pre :=
            map (fun i => (i <? length (boxes_pre s))%nat) indexes_pre in
          let mask_next := map (fun i => (i <? length bn)%nat) indexes_next in
          let lab := index_cols (index_rows lab0 indexes_pre) indexes_next in
          sh_labels r
          = Some (concat_row
                    (concat_col lab
                       (zero_where (map negb mask_pre)
                          (map (fun i => is_zero_float (row_sum lab i))
                               (seq 0 (nrow lab)))))
                    (zero_where (map negb mask_next)
                       (map (fun j => is_zero_float (col_sum lab j))
                            (seq 0 (ncol lab))) ++ [0]))
    end.
Proof.
  intros Ht H M. unfold ResizeShuffleBoxes_call in H.
  apply bind_Ok in H. destruct H as [[size_pre bp] [wd1 [Hr H]]].
  apply lift_Ok in Hr. destruct Hr as [Hr ->].
  apply resize_f_Ok in Hr. destruct Hr as (Hn & -> & ->). fold M in Hn |- *.
  apply bind_Ok in H. destruct H as [indexes_pre [wd2 [Hp H]]].
  destruct (random_shuffle_perm M wd indexes_pre wd2 Ht Hp) as [Ht2 Hperm].
  exists indexes_pre. split; [exact Hperm|]. split; [exact Hn|].
  destruct (img_next s) as [next|].
  - destruct (boxes_next s) as [bn|]; [|discriminate H].
    apply bind_Ok in H. destruct H as [[size_next bn'] [wd3 [Hr H]]].
    apply lift_Ok in Hr. destruct Hr as [Hr ->].
    apply resize_f_Ok in Hr. destruct Hr as (Hn2 & -> & ->). fold M in Hn2, H.
    apply bind_Ok in H. destruct H as [indexes_next [wd4 [Hp2 H]]].
    destruct (random_shuffle_perm M wd2 indexes_next wd4 Ht2 Hp2)
      as [Ht4 Hperm2].
    destruct (labels s) as [lab0|]; [|discriminate H].
    destruct (forallb (fun i => (i <? nrow lab0)%nat) indexes_pre) eqn:Ef;
      cbn [negb] in H; [|discriminate H].
    destruct (forallb (fun j => (j <? ncol (index_rows lab0 indexes_pre))%nat)
                      indexes_next) eqn:Eg;
      cbn [negb] in H; [|discriminate H].
    apply ret_Ok in H. destruct H as [-> _]. cbn [sh_boxes_pre sh_boxes_next sh_labels].
    split; [reflexivity|].
    exists indexes_next, bn, lab0.
    split; [exact Hperm2|]. split; [reflexivity|]. split; [reflexivity|].
    split; [exact Hn2|].
    split; [exact (forallb_perm_bound _ _ _ Hperm Ef)|].
    split; [exact (forallb_perm_bound _ _ _ Hperm2 Eg)|].
    split; reflexivity.
  - apply ret_Ok in H. destruct H as [-> _]. cbn [sh_boxes_pre sh_boxes_next sh_labels].
    split; [reflexivity|]. split; reflexivity.
Qed.

(** X10.  Under draws in [0, 1), what [ResizeShuffleBoxes.__call__]
    returns for a frame is a shuffled copy of its boxes at capacity M: the
    rows are the boxes and the rows of [np.inf] in some order, the mask is
    [True] exactly at the rows that are boxes and at its last entry, and
    it counts the boxes.  For a pair this holds for both frames. *)
Theorem ResizeShuffleBoxes_call_marks_real_boxes (self : ResizeShuffleBoxes)
    (s : sample) (wd wd' : world) (r : shuffled) :
  unit_tape wd ->
  ResizeShuffleBoxes_call self s wd = (Ok r, wd') ->
  let M := rsb_max_object self in
  shuffled_copy M (boxes_pre s) (fst (sh_boxes_pre r)) (snd (sh_boxes_pre r)) /\
  match img_next s with
  | None => snd (sh_boxes_next r) = None
  | Some _ =>
      exists (bn : list box) (rows : list padded_box) (mask : list bool),
        boxes_next s = Some bn /\
        sh_boxes_next r = (Some rows, Some mask) /\
        shuffled_copy M bn rows mask
  end.
Proof.
  intros Ht H M.
  destruct (ResizeShuffleBoxes_run self s wd wd' r Ht H)
    as (ip & Hp & Hn & -> & Hrest).
  fold M in Hp, Hn, Hrest |- *. cbn [fst snd].
  split; [now apply shuffled_copy_of_perm|].
  destruct (img_next s) as [next|].
  - destruct Hrest as (inx & bn & lab0 & Hp2 & Eb & _ & Hn2 & _ & _ & -> & _).
    exists bn. eexists. eexists. split; [exact Eb|]. split; [reflexivity|].
    now apply shuffled_copy_of_perm.
  - destruct Hrest as [-> _]. reflexivity.
Qed.

(** ** ResizeShuffleBoxes: the matrix follows the boxes *)

Lemma fold_sum_acc (f : nat -> Q) (l : list nat) (a b : Q) :
  a == b ->
  fold_left (fun acc i => acc + f i) l a
  == fold_left (fun acc i => acc + f i) l b.
Proof.
  revert a b. induction l as [|i l IH]; intros a b H; cbn [fold_left].
  - exact H.
  - apply IH. rewrite H. reflexivity.
Qed.

Lemma fold_sum_perm (f : nat -> Q) (l l' : list nat) (a : Q) :
  Permutation l l' ->
  fold_left (fun acc i => acc + f i) l a
  == fold_left (fun acc i => acc + f i) l' a.
Proof.
  intro Hp. revert a. induction Hp as [|x l l' _ IH|x y l|l l' l'' _ IH1 _ IH2];
    intro a; cbn [fold_left].
  - reflexivity.
  - apply IH.
  - apply fold_sum_acc. ring.
  - rewrite IH1. apply IH2.
Qed.

Lemma fold_sum_map (f : nat -> Q) (g : nat -> nat) (l : list nat) (a : Q) :
  fold_left (fun acc i => acc + f (g i)) l a
  = fold_left (fun acc i => acc + f i) (map g l) a.
Proof.
  revert a. induction l as [|i l IH]; intro a; cbn [fold_left map];
    [reflexivity | apply IH].
Qed.

(** Summing over the images of a permutation of [arange(M)] is summing
    over [arange(M)]. *)
Lemma fold_sum_shuffled (f : nat -> Q) (M : nat) (indexes : list nat) :
  Permutation indexes (seq 0 M) ->
  fold_left (fun acc j => acc + f (nth j indexes 0%nat)) (seq 0 M) 0
  == fold_left (fun acc c => acc + f c) (seq 0 M) 0.
Proof.
  intro Hp.
  assert (Hlen : length indexes = M)
    by (rewrite (Permutation_length Hp); apply length_seq).
  rewrite (fold_sum_map f (fun j => nth j indexes 0%nat)).
  rewrite <- Hlen at 1. rewrite map_nth_seq. now apply fold_sum_perm.
Qed.

(** X11.  Under draws in [0, 1), the matrix that [ResizeShuffleBoxes]
    returns for a pair is the matrix it was given, read through the two
    permutations that also moved the boxes: the box at row i of frame A
    came from position p(i), the box at row j of frame B from position
    q(j), and entry (i, j) is the given entry (p(i), q(j)).  The no-match
    entry (i, M) is 1 exactly when position p(i) held a box of frame A
    and its given row sums to zero over the first M columns; likewise
    (M, j) for frame B and the given columns. *)
Theorem ResizeShuffleBoxes_call_labels_follow_boxes
    (self : ResizeShuffleBoxes) (s : sample) (next : image)
    (wd wd' : world) (r : shuffled) :
  unit_tape wd -> img_next s = Some next ->
  ResizeShuffleBoxes_call self s wd = (Ok r, wd') ->
  let M := rsb_max_object self in
  exists (from_pre from_next : list nat) (bn : list box) (lab0 lab : matrix)
         (rows_next : list padded_box),
    Permutation from_pre (seq 0 M) /\ Permutation from_next (seq 0 M) /\
    boxes_next s = Some bn /\ labels s = Some lab0 /\
    fst (sh_boxes_next r) = Some rows_next /\ sh_labels r = Some lab /\
    (forall i, (i < M)%nat ->
       nth i (fst (sh_boxes_pre r)) inf_row
       = nth (nth i from_pre 0%nat) (padded_rows M (boxes_pre s)) inf_row) /\
    (forall j, (j < M)%nat ->
       nth j rows_next inf_row
       = nth (nth j from_next 0%nat) (padded_rows M bn) inf_row) /\
    (forall i j, (i < M)%nat -> (j < M)%nat ->
       entry lab i j
       = entry lab0 (nth i from_pre 0%nat) (nth j from_next 0%nat)) /\
    (forall i, (i < M)%nat ->
       (entry lab i M == 1 <->
        (nth i from_pre 0 < length (boxes_pre s))%nat /\
        row_sum_first lab0 (nth i from_pre 0%nat) M == 0)) /\
    (forall j, (j < M)%nat ->
       (entry lab M j == 1 <->
        (nth j from_next 0 < length bn)%nat /\
        col_sum_first lab0 (nth j from_next 0%nat) M == 0)).
Proof.
  intros Ht En H M.
  destruct (ResizeShuffleBoxes_run self s wd wd' r Ht H)
    as (ip & Hp & Hn & Ebp & Hrest).
  rewrite En in Hrest.
  destruct Hrest as (inx & bn & lab0 & Hp2 & Eb & El & Hn2 & Hr & Hc & Ebn & Hlab).
  cbv zeta in Hlab. fold M in Hp, Hn, Hp2, Hn2, Hr, Hc, Ebp, Ebn.
  assert (Hlp : length ip = M)
    by (rewrite (Permutation_length Hp); apply length_seq).
  assert (Hln : length inx = M)
    by (rewrite (Permutation_length Hp2); apply length_seq).
  assert (Hnth : forall (A B : Type) (g : nat -> B) (l : list nat) (d : B) k,
             (k < length l)%nat -> nth k (map g l) d = g (nth k l 0%nat)).
  { intros A B g l d k Hk. rewrite (nth_indep _ d (g 0%nat))
      by (now rewrite length_map). apply map_nth. }
  exists ip, inx, bn, lab0. eexists. eexists.
  split; [exact Hp|]. split; [exact Hp2|]. split; [exact Eb|].
  split; [exact El|]. rewrite Ebp, Ebn. cbn [fst snd].
  split; [reflexivity|]. split; [exact Hlab|].
  split; [intros i Hi; apply (Hnth nat); lia|].
  split; [intros j Hj; apply (Hnth nat); lia|].
  cbn [entry nrow ncol concat_row concat_col index_cols index_rows].
  rewrite Hlp, Hln.
  split; [|split].
  - intros i j Hi Hj. apply Nat.ltb_lt in Hi, Hj. rewrite Hi, Hj. reflexivity.
  - intros i Hi. pose proof Hi as Hi'. apply Nat.ltb_lt in Hi'.
    rewrite Hi', Nat.ltb_irrefl.
    rewrite false_object_nth by (rewrite ?length_map; lia).
    rewrite (Hnth nat) by lia.
    destruct (nth i ip 0 <? length (boxes_pre s))%nat eqn:E.
    + apply Nat.ltb_lt in E. rewrite is_zero_float_one.
      unfold row_sum, row_sum_first.
      cbn [entry nrow ncol index_cols index_rows]. rewrite Hln.
      rewrite (fold_sum_shuffled (fun c => entry lab0 (nth i ip 0%nat) c) M inx Hp2).
      tauto.
    + apply Nat.ltb_ge in E. split; [intro H0; discriminate H0 | intros [H0 _]; lia].
  - intros j Hj. pose proof Hj as Hj'. apply Nat.ltb_lt in Hj'.
    rewrite Nat.ltb_irrefl.
    rewrite app_nth1
      by (rewrite zero_where_length, length_map, length_seq; exact Hj).
    rewrite false_object_nth by (rewrite ?length_map; lia).
    rewrite (Hnth nat) by lia.
    destruct (nth j inx 0 <? length bn)%nat eqn:E.
    + apply Nat.ltb_lt in E. rewrite is_zero_float_one.
      unfold col_sum, col_sum_first.
      cbn [entry nrow ncol index_cols index_rows]. rewrite Hlp.
      rewrite (fold_sum_shuffled (fun c => entry lab0 c (nth j inx 0%nat)) M ip Hp).
      tauto.
    + apply Nat.ltb_ge in E. split; [intro H0; discriminate H0 | intros [H0 _]; lia].
Qed.

(** X12.  Under draws in [0, 1), [ResizeShuffleBoxes.__call__] returns on
    a pair exactly when neither frame has more than M boxes, the boxes of
    frame B and the matrix are present, and the matrix has at least M rows
    and M columns; on a single frame, exactly when it has at most M
    boxes.  A frame A with more than M boxes raises [ValueError] before
    anything is drawn. *)
Theorem ResizeShuffleBoxes_call_returns_iff (self : ResizeShuffleBoxes)
    (s : sample) (wd : world) :
  unit_tape wd ->
  let M := rsb_max_object self in
  ((exists r wd', ResizeShuffleBoxes_call self s wd = (Ok r, wd')) <->
   (length (boxes_pre s) <= M)%nat /\
   match img_next s with
   | None => True
   | Some _ =>
       exists (bn : list box) (lab : matrix),
         boxes_next s = Some bn /\ labels s = Some lab /\
         (length bn <= M)%nat /\ (M <= nrow lab)%nat /\ (M <= ncol lab)%nat
   end) /\
  ((M < length (boxes_pre s))%nat ->
   ResizeShuffleBoxes_call self s wd = (Raised ValueError, wd)).
Proof.
  intros Ht M. split; [split|].
  - intros (r & wd' & H).
    destruct (ResizeShuffleBoxes_run self s wd wd' r Ht H)
      as (ip & _ & Hn & _ & Hrest).
    split; [exact Hn|]. destruct (img_next s) as [next|]; [|exact I].
    destruct Hrest as (inx & bn & lab0 & _ & Eb & El & Hn2 & Hr & Hc & _).
    exists bn, lab0. repeat split; assumption.
  - intros [Hn Hrest]. destruct (img_next s) as [next|] eqn:En.
    + destruct Hrest as (bn & lab & Eb & El & Hn2 & Hr & Hc).
      exact (ResizeShuffleBoxes_returns self s next bn lab wd En Eb El
               Hn Hn2 Hr Hc).
    + unfold ResizeShuffleBoxes_call, resize_f. rewrite En.
      replace (rsb_max_object self <? length (boxes_pre s))%nat with false
        by (symmetry; apply Nat.ltb_ge; exact Hn).
      unfold bind at 1. cbn [lift]. unfold bind at 1.
      destruct (random_shuffle_arange (rsb_max_object self) wd)
        as (ip & wd1 & -> & _).
      eexists. eexists. reflexivity.
  - intro Hn. unfold ResizeShuffleBoxes_call, resize_f.
    apply Nat.ltb_lt in Hn. fold M. rewrite Hn. reflexivity.
Qed.

(** X10 on a pair with two boxes per frame at capacity 3. *)
Lemma ResizeShuffleBoxes_call_marks_real_boxes_witness :
  unit_tape Examples.half_world /\
  exists (r : shuffled) (wd' : world),
    ResizeShuffleBoxes_call Examples.shuffle3 Examples.pair3
                            Examples.half_world = (Ok r, wd') /\
    snd (sh_boxes_pre r) = [true; false; true; true] /\
    shuffled_copy 3 (boxes_pre Examples.pair3)
                  (fst (sh_boxes_pre r)) (snd (sh_boxes_pre r)) /\
    match img_next Examples.pair3 with
    | None => snd (sh_boxes_next r) = None
    | Some _ =>
        exists (bn : list box) (rows : list padded_box) (mask : list bool),
          boxes_next Examples.pair3 = Some bn /\
          sh_boxes_next r = (Some rows, Some mask) /\
          shuffled_copy 3 bn rows mask
    end.
Proof.
  split; [exact half_world_unit|].
  assert (Hrun : exists r wd',
             ResizeShuffleBoxes_call Examples.shuffle3 Examples.pair3
                                     Examples.half_world = (Ok r, wd') /\
             snd (sh_boxes_pre r) = [true; false; true; true])
    by (eexists; eexists; split; [lazy; reflexivity | reflexivity]).
  destruct Hrun as (r & wd' & Hrun & Hm). exists r, wd'.
  split; [exact Hrun|]. split; [exact Hm|].
  exact (ResizeShuffleBoxes_call_marks_real_boxes Examples.shuffle3
           Examples.pair3 Examples.half_world wd' r half_world_unit Hrun).
Defined.

(** X11 on the same pair. *)
Lemma ResizeShuffleBoxes_call_labels_follow_boxes_witness :
  unit_tape Examples.half_world /\
  exists (r : shuffled) (wd' : world),
    ResizeShuffleBoxes_call Examples.shuffle3 Examples.pair3
                            Examples.half_world = (Ok r, wd') /\
    exists (from_pre from_next : list nat) (bn : list box)
           (lab0 lab : matrix) (rows_next : list padded_box),
      Permutation from_pre (seq 0 3) /\ Permutation from_next (seq 0 3) /\
      boxes_next Examples.pair3 = Some bn /\
      labels Examples.pair3 = Some lab0 /\
      fst (sh_boxes_next r) = Some rows_next /\ sh_labels r = Some lab /\
      (forall i, (i < 3)%nat ->
         nth i (fst (sh_boxes_pre r)) inf_row
         = nth (nth i from_pre 0%nat)
               (padded_rows 3 (boxes_pre Examples.pair3)) inf_row) /\
      (forall j, (j < 3)%nat ->
         nth j rows_next inf_row
         = nth (nth j from_next 0%nat) (padded_rows 3 bn) inf_row) /\
      (forall i j, (i < 3)%nat -> (j < 3)%nat ->
         entry lab i j
         = entry lab0 (nth i from_pre 0%nat) (nth j from_next 0%nat)) /\
      (forall i, (i < 3)%nat ->
         (entry lab i 3 == 1 <->
          (nth i from_pre 0 < length (boxes_pre Examples.pair3))%nat /\
          row_sum_first lab0 (nth i from_pre 0%nat) 3 == 0)) /\
      (forall j, (j < 3)%nat ->
         (entry lab 3 j == 1 <->
          (nth j from_next 0 < length bn)%nat /\
          col_sum_first lab0 (nth j from_next 0%nat) 3 == 0)).
Proof.
  split; [exact half_world_unit|].
  assert (Hrun : exists r wd',
             ResizeShuffleBoxes_call Examples.shuffle3 Examples.pair3
                                     Examples.half_world = (Ok r, wd'))
    by (eexists; eexists; lazy; reflexivity).
  destruct Hrun as (r & wd' & Hrun). exists r, wd'.
  split; [exact Hrun|].
  exact (ResizeShuffleBoxes_call_labels_follow_boxes Examples.shuffle3
           Examples.pair3 Examples.frame100 Examples.half_world wd' r
           half_world_unit eq_refl Hrun).
Defined.

(** X12 on the same pair, which fits the capacity, and at capacity 1,
    which its two boxes exceed. *)
Lemma ResizeShuffleBoxes_call_returns_iff_witness :
  unit_tape Examples.half_world /\
  (exists r wd',
     ResizeShuffleBoxes_call Examples.shuffle3 Examples.pair3
                             Examples.half_world = (Ok r, wd')) /\
  ResizeShuffleBoxes_call (mkResizeShuffleBoxes 1) Examples.pair3
                          Examples.half_world
  = (Raised ValueError, Examples.half_world).
Proof.
  split; [exact half_world_unit|]. split.
  - apply (ResizeShuffleBoxes_call_returns_iff Examples.shuffle3
             Examples.pair3 Examples.half_world half_world_unit).
    split; [cbn; lia|]. cbn [img_next Examples.pair3].
    exists Examples.two_boxes, Examples.lab3.
    split; [reflexivity|]. split; [reflexivity|]. cbn. lia.
  - apply (ResizeShuffleBoxes_call_returns_iff (mkResizeShuffleBoxes 1)
             Examples.pair3 Examples.half_world half_world_unit).
    cbn. lia.
Defined.

(** ** The no-match row and column *)

Lemma mask_nth (n : nat) (indexes : list nat) (k : nat) :
  (k < length indexes)%nat ->
  nth k (map (fun i => (i <? n)%nat) indexes ++ [true]) false
  = (nth k indexes 0 <? n)%nat.
Proof.
  intro Hk. rewrite app_nth1 by (now rewrite length_map).
  rewrite (nth_indep _ false ((0 <? n)%nat)) by (now rewrite length_map).
  apply (map_nth (fun i => (i <? n)%nat)).
Qed.

Lemma rows_nth (rows : list padded_box) (indexes : list nat) (k : nat) :
  (k < length indexes)%nat ->
  nth k (map (fun i => nth i rows inf_row) indexes) inf_row
  = nth (nth k indexes 0%nat) rows inf_row.
Proof.
  intro Hk.
  rewrite (nth_indep _ inf_row (nth 0 rows inf_row))
    by (now rewrite length_map).
  apply (map_nth (fun i => nth i rows inf_row)).
Qed.

(** A row of the shuffled array is a box where the mask is [True] and
    padding where it is [False]. *)
Lemma row_is_box_or_padding (M : nat) (boxes : list box) (p : nat) :
  ((p <? length boxes)%nat = true ->
   exists b, nth_error boxes p = Some b /\
             nth p (padded_rows M boxes) inf_row = row_of_box b) /\
  ((p <? length boxes)%nat = false ->
   nth_error boxes p = None /\ nth p (padded_rows M boxes) inf_row = inf_row).
Proof.
  destruct (padded_rows_nth M boxes p) as [Hb Hi]. split; intro H.
  - apply Nat.ltb_lt in H.
    destruct (nth_error boxes p) as [b|] eqn:E;
      [|apply nth_error_None in E; lia].
    exists b. split; [reflexivity | now apply Hb].
  - apply Nat.ltb_ge in H. split; [now apply nth_error_None | now apply Hi].
Qed.

(** C6.  Under draws in [0, 1), [ResizeShuffleBoxes] returns on every pair
    with at most M boxes per frame and a matrix of at least M rows and M
    columns, and whenever it returns on a pair: the matrix is
    (M + 1) x (M + 1) and both masks have length M + 1 and end in [True];
    row i < M of frame A is the box at position p(i) when [mask_pre[i]]
    is [True] and padding when it is [False], likewise row j of frame B
    and q(j), for two permutations p, q of 0 .. M - 1; entry (i, j) is
    the given entry (p(i), q(j)); entry (i, M) is 1 exactly when
    [mask_pre[i]] is [True] and the first M entries of row i sum to zero,
    which is the sum of the given row p(i), and entry (M, j) is 1 exactly
    when [mask_next[j]] is [True] and the first M entries of column j sum
    to zero, the sum of the given column q(j).  So every box whose given
    row, or column, sums to zero has its no-match entry set. *)
Theorem no_match_row_and_column (self : ResizeShuffleBoxes) (s : sample)
    (next : image) (wd : world) :
  unit_tape wd -> img_next s = Some next ->
  let M := rsb_max_object self in
  (forall (bn : list box) (lab0 : matrix),
     boxes_next s = Some bn -> labels s = Some lab0 ->
     (length (boxes_pre s) <= M)%nat -> (length bn <= M)%nat ->
     (M <= nrow lab0)%nat -> (M <= ncol lab0)%nat ->
     exists r wd', ResizeShuffleBoxes_call self s wd = (Ok r, wd')) /\
  (forall (r : shuffled) (wd' : world),
     ResizeShuffleBoxes_call self s wd = (Ok r, wd') ->
     exists (bn : list box) (lab0 lab : matrix)
            (rows_pre rows_next : list padded_box)
            (mask_pre mask_next : list bool) (p q : list nat),
       boxes_next s = Some bn /\ labels s = Some lab0 /\
       sh_labels r = Some lab /\
       sh_boxes_pre r = (rows_pre, mask_pre) /\
       sh_boxes_next r = (Some rows_next, Some mask_next) /\
       nrow lab = (M + 1)%nat /\ ncol lab = (M + 1)%nat /\
       length mask_pre = (M + 1)%nat /\ length mask_next = (M + 1)%nat /\
       nth M mask_pre false = true /\ nth M mask_next false = true /\
       Permutation p (seq 0 M) /\ Permutation q (seq 0 M) /\
       (forall i, (i < M)%nat ->
          (nth i mask_pre false = true ->
           exists b, nth_error (boxes_pre s) (nth i p 0%nat) = Some b /\
                     nth i rows_pre inf_row = row_of_box b) /\
          (nth i mask_pre false = false ->
           nth_error (boxes_pre s) (nth i p 0%nat) = None /\
           nth i rows_pre inf_row = inf_row)) /\
       (forall j, (j < M)%nat ->
          (nth j mask_next false = true ->
           exists b, nth_error bn (nth j q 0%nat) = Some b /\
                     nth j rows_next inf_row = row_of_box b) /\
          (nth j mask_next false = false ->
           nth_error bn (nth j q 0%nat) = None /\
           nth j rows_next inf_row = inf_row)) /\
       (forall i j, (i < M)%nat -> (j < M)%nat ->
          entry lab i j = entry lab0 (nth i p 0%nat) (nth j q 0%nat)) /\
       (forall i, (i < M)%nat ->
          (entry lab i M == 1 <->
           nth i mask_pre false = true /\ row_sum_first lab i M == 0) /\
          row_sum_first lab i M == row_sum_first lab0 (nth i p 0%nat) M) /\
       (forall j, (j < M)%nat ->
          (entry lab M j == 1 <->
           nth j mask_next false = true /\ col_sum_first lab j M == 0) /\
          col_sum_first lab j M == col_sum_first lab0 (nth j q 0%nat) M) /\
       (forall k, (k < length (boxes_pre s))%nat ->
          row_sum_first lab0 k M == 0 ->
          exists i, (i < M)%nat /\ nth i p 0%nat = k /\
                    nth i mask_pre false = true /\ entry lab i M == 1) /\
       (forall k, (k < length bn)%nat ->
          col_sum_first lab0 k M == 0 ->
          exists j, (j < M)%nat /\ nth j q 0%nat = k /\
                    nth j mask_next false = true /\ entry lab M j == 1)).
Proof.
  intros Ht En M. split.
  - intros bn lab0 Eb El Hp Hn Hr Hc.
    exact (ResizeShuffleBoxes_returns self s next bn lab0 wd En Eb El
             Hp Hn Hr Hc).
  - intros r wd' H.
    destruct (ResizeShuffleBoxes_run self s wd wd' r Ht H)
      as (p & Hp & Hn & Ebp & Hrest).
    rewrite En in Hrest.
    destruct Hrest
      as (q & bn & lab0 & Hq & Eb & El & Hn2 & Hr & Hc & Ebn & Hlab).
    cbv zeta in Hlab. fold M in Hp, Hn, Hq, Hn2, Hr, Hc, Ebp, Ebn.
    destruct (no_match_flags self s next wd wd' r En H)
      as (lab & mask_pre & mask_next & Elab & Emp & Emn & Sr & Sc & Lp & Ln
          & Tp & Tn & Fp & Fn).
    fold M in Sr, Sc, Lp, Ln, Tp, Tn, Fp, Fn.
    rewrite Ebp in Emp. rewrite Ebn in Emn. cbn [snd] in Emp, Emn.
    inversion Emn as [Emn']; clear Emn. subst mask_pre mask_next.
    assert (Hlp : length p = M)
      by (rewrite (Permutation_length Hp); apply length_seq).
    assert (Hlq : length q = M)
      by (rewrite (Permutation_length Hq); apply length_seq).
    assert (Hent : forall i j, (i < M)%nat -> (j < M)%nat ->
              entry lab i j = entry lab0 (nth i p 0%nat) (nth j q 0%nat)).
    { intros i j Hi Hj. rewrite Hlab in Elab. inversion Elab; subst lab.
      cbn [entry nrow ncol concat_row concat_col index_cols index_rows].
      rewrite Hlp, Hlq. apply Nat.ltb_lt in Hi, Hj. rewrite Hi, Hj.
      reflexivity. }
    assert (Hrs : forall i, (i < M)%nat ->
              row_sum_first lab i M
              == row_sum_first lab0 (nth i p 0%nat) M).
    { intros i Hi. unfold row_sum_first.
      rewrite (fold_sum_ext (fun j => entry lab i j)
                 (fun j => entry lab0 (nth i p 0%nat) (nth j q 0%nat)))
        by (intros j Hj; apply in_seq in Hj; apply Hent; lia).
      exact (fold_sum_shuffled (fun c => entry lab0 (nth i p 0%nat) c) M q Hq). }
    assert (Hcs : forall j, (j < M)%nat ->
              col_sum_first lab j M
              == col_sum_first lab0 (nth j q 0%nat) M).
    { intros j Hj. unfold col_sum_first.
      rewrite (fold_sum_ext (fun i => entry lab i j)
                 (fun i => entry lab0 (nth i p 0%nat) (nth j q 0%nat)))
        by (intros i Hi; apply in_seq in Hi; apply Hent; lia).
      exact (fold_sum_shuffled (fun c => entry lab0 c (nth j q 0%nat)) M p Hp). }
    assert (Hfind : forall (l : list nat) k, Permutation l (seq 0 M) ->
              (k < M)%nat ->
              exists i, (i < M)%nat /\ nth i l 0%nat = k).
    { intros l k Hl Hk.
      assert (Hin : In k l)
        by (apply (Permutation_in k (Permutation_sym Hl)), in_seq; lia).
      destruct (In_nth l k 0%nat Hin) as (i & Hi & Ei).
      exists i. split; [|exact Ei].
      rewrite (Permutation_length Hl), length_seq in Hi. exact Hi. }
    exists bn, lab0, lab. eexists. eexists. eexists. eexists. exists p, q.
    split; [exact Eb|]. split; [exact El|]. split; [exact Elab|].
    split; [exact Ebp|]. split; [exact Ebn|].
    split; [exact Sr|]. split; [exact Sc|].
    split; [exact Lp|]. split; [exact Ln|].
    split; [exact Tp|]. split; [exact Tn|].
    split; [exact Hp|]. split; [exact Hq|].
    split; [|split; [|split; [exact Hent|split; [|split; [|split]]]]].
    + intros i Hi. rewrite mask_nth, rows_nth by lia.
      apply row_is_box_or_padding.
    + intros j Hj. rewrite mask_nth, rows_nth by lia.
      apply row_is_box_or_padding.
    + intros i Hi. split; [exact (Fp i Hi) | exact (Hrs i Hi)].
    + intros j Hj. split; [exact (Fn j Hj) | exact (Hcs j Hj)].
    + intros k Hk H0.
      destruct (Hfind p k Hp) as (i & Hi & Ei); [lia|].
      exists i. split; [exact Hi|]. split; [exact Ei|].
      assert (Hm : nth i (map (fun i0 => (i0 <? length (boxes_pre s))%nat) p
                          ++ [true]) false = true)
        by (rewrite mask_nth by lia; rewrite Ei; apply Nat.ltb_lt; exact Hk).
      split; [exact Hm|]. apply (Fp i Hi). split; [exact Hm|].
      rewrite (Hrs i Hi), Ei. exact H0.
    + intros k Hk H0.
      destruct (Hfind q k Hq) as (j & Hj & Ej); [lia|].
      exists j. split; [exact Hj|]. split; [exact Ej|].
      assert (Hm : nth j (map (fun i0 => (i0 <? length bn)%nat) q
                          ++ [true]) false = true)
        by (rewrite mask_nth by lia; rewrite Ej; apply Nat.ltb_lt; exact Hk).
      split; [exact Hm|]. apply (Fn j Hj). split; [exact Hm|].
      rewrite (Hcs j Hj), Ej. exact H0.
Qed.

(** C6 on a pair with two boxes per frame at capacity 3, of which only the
    first of frame A and the first of frame B correspond, every draw 1/2:
    the call returns, rows 0 and 2 of both frames are boxes and row 1 is
    padding, and the second box of each frame, now at row 2, has its
    no-match entry set; the matrix is
    [[1, 0, 0, 0], [0, 0, 0, 0], [0, 0, 0, 1], [0, 0, 1, 0]]. *)
Lemma no_match_row_and_column_witness :
  unit_tape Examples.half_world /\
  img_next Examples.pair3 = Some Examples.frame100 /\
  (exists r wd',
     ResizeShuffleBoxes_call Examples.shuffle3 Examples.pair3
                             Examples.half_world = (Ok r, wd')) /\
  exists (r : shuffled) (wd' : world) (lab : matrix),
    ResizeShuffleBoxes_call Examples.shuffle3 Examples.pair3
                            Examples.half_world = (Ok r, wd') /\
    sh_labels r = Some lab /\
    snd (sh_boxes_pre r) = [true; false; true; true] /\
    snd (sh_boxes_next r) = Some [true; false; true; true] /\
    (entry lab 0 0 = 1 /\ entry lab 0 1 = 0 /\ entry lab 0 2 = 0 /\
     entry lab 0 3 = 0) /\
    (entry lab 1 0 = 0 /\ entry lab 1 1 = 0 /\ entry lab 1 2 = 0 /\
     entry lab 1 3 = 0) /\
    (entry lab 2 0 = 0 /\ entry lab 2 1 = 0 /\ entry lab 2 2 = 0 /\
     entry lab 2 3 = 1) /\
    (entry lab 3 0 = 0 /\ entry lab 3 1 = 0 /\ entry lab 3 2 = 1 /\
     entry lab 3 3 = 0) /\
    exists (bn : list box) (lab0 lab1 : matrix)
           (rows_pre rows_next : list padded_box)
           (mask_pre mask_next : list bool) (p q : list nat),
      boxes_next Examples.pair3 = Some bn /\
      labels Examples.pair3 = Some lab0 /\
      sh_labels r = Some lab1 /\
      sh_boxes_pre r = (rows_pre, mask_pre) /\
      sh_boxes_next r = (Some rows_next, Some mask_next) /\
      nrow lab1 = (3 + 1)%nat /\ ncol lab1 = (3 + 1)%nat /\
      length mask_pre = (3 + 1)%nat /\ length mask_next = (3 + 1)%nat /\
      nth 3 mask_pre false = true /\ nth 3 mask_next false = true /\
      Permutation p (seq 0 3) /\ Permutation q (seq 0 3) /\
      (forall i, (i < 3)%nat ->
         (nth i mask_pre false = true ->
          exists b, nth_error (boxes_pre Examples.pair3) (nth i p 0%nat)
                    = Some b /\
                    nth i rows_pre inf_row = row_of_box b) /\
         (nth i mask_pre false = false ->
          nth_error (boxes_pre Examples.pair3) (nth i p 0%nat) = None /\
          nth i rows_pre inf_row = inf_row)) /\
      (forall j, (j < 3)%nat ->
         (nth j mask_next false = true ->
          exists b, nth_error bn (nth j q 0%nat) = Some b /\
                    nth j rows_next inf_row = row_of_box b) /\
         (nth j mask_next false = false ->
          nth_error bn (nth j q 0%nat) = None /\
          nth j rows_next inf_row = inf_row)) /\
      (forall i j, (i < 3)%nat -> (j < 3)%nat ->
         entry lab1 i j = entry lab0 (nth i p 0%nat) (nth j q 0%nat)) /\
      (forall i, (i < 3)%nat ->
         (entry lab1 i 3 == 1 <->
          nth i mask_pre false = true /\ row_sum_first lab1 i 3 == 0) /\
         row_sum_first lab1 i 3 == row_sum_first lab0 (nth i p 0%nat) 3) /\
      (forall j, (j < 3)%nat ->
         (entry lab1 3 j == 1 <->
          nth j mask_next false = true /\ col_sum_first lab1 j 3 == 0) /\
         col_sum_first lab1 j 3 == col_sum_first lab0 (nth j q 0%nat) 3) /\
      (forall k, (k < length (boxes_pre Examples.pair3))%nat ->
         row_sum_first lab0 k 3 == 0 ->
         exists i, (i < 3)%nat /\ nth i p 0%nat = k /\
                   nth i mask_pre false = true /\ entry lab1 i 3 == 1) /\
      (forall k, (k < length bn)%nat ->
         col_sum_first lab0 k 3 == 0 ->
         exists j, (j < 3)%nat /\ nth j q 0%nat = k /\
                   nth j mask_next false = true /\ entry lab1 3 j == 1).
Proof.
  split; [exact half_world_unit|]. split; [reflexivity|].
  pose proof (no_match_row_and_column Examples.shuffle3 Examples.pair3
                Examples.frame100 Examples.half_world half_world_unit
                eq_refl) as H.
  cbv zeta in H. destruct H as [Hret Hall].
  split.
  - apply (Hret Examples.two_boxes Examples.lab3 eq_refl eq_refl);
      cbn; lia.
  - assert (Hrun : exists r wd' lab,
               ResizeShuffleBoxes_call Examples.shuffle3 Examples.pair3
                                       Examples.half_world = (Ok r, wd') /\
               sh_labels r = Some lab /\
               snd (sh_boxes_pre r) = [true; false; true; true] /\
               snd (sh_boxes_next r) = Some [true; false; true; true] /\
               (entry lab 0 0 = 1 /\ entry lab 0 1 = 0 /\ entry lab 0 2 = 0 /\
                entry lab 0 3 = 0) /\
               (entry lab 1 0 = 0 /\ entry lab 1 1 = 0 /\ entry lab 1 2 = 0 /\
                entry lab 1 3 = 0) /\
               (entry lab 2 0 = 0 /\ entry lab 2 1 = 0 /\ entry lab 2 2 = 0 /\
                entry lab 2 3 = 1) /\
               (entry lab 3 0 = 0 /\ entry lab 3 1 = 0 /\ entry lab 3 2 = 1 /\
                entry lab 3 3 = 0)).
    { eexists. eexists. eexists. split; [lazy; reflexivity|].
      split; [reflexivity|]. split; [reflexivity|]. split; [reflexivity|].
      repeat split; reflexivity. }
    destruct Hrun as (r & wd' & lab & Hrun & Hl & Hm1 & Hm2 & R0 & R1 & R2 & R3).
    exists r, wd', lab.
    split; [exact Hrun|]. split; [exact Hl|]. split; [exact Hm1|].
    split; [exact Hm2|]. split; [exact R0|]. split; [exact R1|].
    split; [exact R2|]. split; [exact R3|].
    exact (Hall r wd' Hrun).
Defined.

(** ** The photometric transforms *)

Lemma on_frames_pixels_only (f : image -> result image) :
  pixels_only (on_frames f).
Proof.
  intros s wd s' wd' H. unfold on_frames in H.
  apply bind_Ok in H. destruct H as [pre [wd1 [Hp H]]].
  apply lift_Ok in Hp. destruct Hp as [Hp ->].
  destruct (img_next s) as [next|] eqn:En.
  - apply bind_Ok in H. destruct H as [nxt [wd2 [Hn H]]].
    apply lift_Ok in Hn. destruct Hn as [Hn ->].
    apply ret_Ok in H. destruct H as [-> _].
    cbn [boxes_pre boxes_next labels img_next img_pre].
    split; [reflexivity|]. split; [reflexivity|]. split; [reflexivity|].
    split; [split; intro E; discriminate E|].
    intro E. inversion E; subst next. congruence.
  - apply ret_Ok in H. destruct H as [-> _].
    cbn [boxes_pre boxes_next labels img_next img_pre].
    split; [reflexivity|]. split; [reflexivity|]. split; [reflexivity|].
    split; [tauto|]. intro E. discriminate E.
Qed.

Lemma ret_pixels_only : pixels_only (fun s => ret s).
Proof.
  intros s wd s' wd' H. apply ret_Ok in H. destruct H as [-> _].
  repeat split; auto.
Qed.

(** A coin, then a draw, then a transform that touches only pixels. *)
Lemma coin_pixels_only {A : Type} (draw : M A) (k : A -> transform) :
  (forall a, pixels_only (k a)) ->
  pixels_only (fun s => go <- random_randint 2 ;;
                        if negb (go =? 0)%nat then a <- draw ;; k a s
                        else ret s).
Proof.
  intros Hk s wd s' wd' H.
  apply bind_Ok in H. destruct H as [go [wd1 [_ H]]].
  destruct (negb (go =? 0)%nat).
  - apply bind_Ok in H. destruct H as [a [wd2 [_ H]]].
    exact (Hk a s wd2 s' wd' H).
  - exact (ret_pixels_only s wd1 s' wd' H).
Qed.

Lemma RandomBrightness_pixels_only (self : RandomBrightness) :
  pixels_only (RandomBrightness_call self).
Proof.
  apply (coin_pixels_only (random_uniform (- bri_delta self) (bri_delta self))
           (fun delta => on_frames
              (fun im => Ok (map_image (fun v => v + delta) im)))).
  intro a. apply on_frames_pixels_only.
Qed.

Lemma RandomContrast_pixels_only (self : RandomContrast) :
  pixels_only (RandomContrast_call self).
Proof.
  apply (coin_pixels_only (random_uniform (con_lower self) (con_upper self))
           (fun alpha => on_frames
              (fun im => Ok (map_image (fun v => v * alpha) im)))).
  intro a. apply on_frames_pixels_only.
Qed.

Lemma RandomSaturation_pixels_only (self : RandomSaturation) :
  pixels_only (RandomSaturation_call self).
Proof.
  apply (coin_pixels_only (random_uniform (sat_lower self) (sat_upper self))
           (fun alpha => on_frames (map_channel 1 (fun v => v * alpha)))).
  intro a. apply on_frames_pixels_only.
Qed.

Lemma RandomHue_pixels_only (self : RandomHue) :
  pixels_only (RandomHue_call self).
Proof.
  apply (coin_pixels_only (random_uniform (- hue_delta self) (hue_delta self))
           (fun delta => on_frames (map_channel 0 (hue_shift delta)))).
  intro a. apply on_frames_pixels_only.
Qed.

Lemma RandomLightingNoise_pixels_only : pixels_only RandomLightingNoise_call.
Proof.
  apply (coin_pixels_only (random_randint (length perms))
           (fun i s => match nth_error perms i with
                       | None => raise IndexError
                       | Some swap => on_frames (SwapChannels_call swap) s
                       end)).
  intros i s wd s' wd' H. destruct (nth_error perms i) as [swap|].
  - exact (on_frames_pixels_only _ s wd s' wd' H).
  - discriminate H.
Qed.

Lemma Compose_pixels_only (ts : list transform) :
  Forall pixels_only ts -> pixels_only (Compose_call ts).
Proof.
  induction 1 as [|t ts Ht _ IH]; cbn [Compose_call].
  - apply ret_pixels_only.
  - intros s wd s' wd' H. apply bind_Ok in H.
    destruct H as [s1 [wd1 [H1 H2]]].
    destruct (Ht s wd s1 wd1 H1) as (A1 & A2 & A3 & A4 & A5).
    destruct (IH s1 wd1 s' wd' H2) as (B1 & B2 & B3 & B4 & B5).
    split; [congruence|]. split; [congruence|]. split; [congruence|].
    split; [tauto|]. intro E. apply B5, A5, E.
Qed.

Section PhotometricProperties.

Variables cvtColor_BGR2HSV cvtColor_HSV2BGR : image -> image.

Lemma ConvertColor_pixels_only (self : ConvertColor) :
  pixels_only (ConvertColor_call cvtColor_BGR2HSV cvtColor_HSV2BGR self).
Proof.
  intros s wd s' wd' H. unfold ConvertColor_call in H.
  destruct (_ && _).
  - exact (on_frames_pixels_only _ s wd s' wd' H).
  - destruct (_ && _).
    + exact (on_frames_pixels_only _ s wd s' wd' H).
    + discriminate H.
Qed.

(** The members of a [PhotometricDistort] that its constructor built. *)
Lemma PhotometricDistort_init_members (a b c d : Q) (ph : PhotometricDistort) :
  PhotometricDistort_init cvtColor_BGR2HSV cvtColor_HSV2BGR a b c d = Ok ph ->
  Forall pixels_only (pd ph) /\ pixels_only (rand_brightness ph) /\
  pixels_only (rand_light_noise ph).
Proof.
  unfold PhotometricDistort_init. intro H.
  destruct (RandomContrast_init a b) as [c1|]; [|discriminate H].
  destruct (RandomSaturation_init c d) as [sat|]; [|discriminate H].
  destruct (RandomHue_init 18) as [hue|]; [|discriminate H].
  destruct (RandomBrightness_init 32) as [bri|]; [|discriminate H].
  inversion H; subst ph; clear H. cbn [pd rand_brightness rand_light_noise].
  split; [|split].
  - repeat (apply Forall_cons;
            [first [ apply RandomContrast_pixels_only
                   | apply RandomSaturation_pixels_only
                   | apply RandomHue_pixels_only
                   | apply ConvertColor_pixels_only ]|]).
    apply Forall_nil.
  - apply RandomBrightness_pixels_only.
  - apply RandomLightingNoise_pixels_only.
Qed.

Lemma Forall_removelast {A : Type} (P : A -> Prop) (l : list A) :
  Forall P l -> Forall P (removelast l).
Proof.
  induction 1 as [|a l Ha Hl IH]; cbn [removelast]; [constructor|].
  destruct l; [constructor|]. constructor; [exact Ha | exact IH].
Qed.

Lemma Forall_tl {A : Type} (P : A -> Prop) (l : list A) :
  Forall P l -> Forall P (tl l).
Proof. destruct 1; [constructor | assumption]. Qed.

Lemma PhotometricDistort_call_pixels_only (a b c d : Q)
    (ph : PhotometricDistort) :
  PhotometricDistort_init cvtColor_BGR2HSV cvtColor_HSV2BGR a b c d = Ok ph ->
  pixels_only (PhotometricDistort_call ph).
Proof.
  intros Hph s wd s' wd' H.
  destruct (PhotometricDistort_init_members a b c d ph Hph) as (Hpd & Hb & Hl).
  unfold PhotometricDistort_call in H.
  destruct (img_next s) as [next|] eqn:En; [|discriminate H].
  apply bind_Ok in H. destruct H as [s1 [wd1 [H1 H]]].
  apply bind_Ok in H. destruct H as [go [wd2 [_ H]]].
  apply bind_Ok in H. destruct H as [s2 [wd3 [H2 H3]]].
  destruct (Hb _ _ _ _ H1) as (A1 & A2 & A3 & A4 & A5).
  cbn [boxes_pre boxes_next labels img_next img_pre] in A1, A2, A3, A4, A5.
  assert (Hd : pixels_only
                 (if negb (go =? 0)%nat then Compose_call (removelast (pd ph))
                  else Compose_call (tl (pd ph)))).
  { destruct (negb (go =? 0)%nat); apply Compose_pixels_only;
      [apply Forall_removelast | apply Forall_tl]; exact Hpd. }
  destruct (Hd _ _ _ _ H2) as (B1 & B2 & B3 & B4 & B5).
  destruct (Hl _ _ _ _ H3) as (C1 & C2 & C3 & C4 & C5).
  split; [congruence|]. split; [congruence|]. split; [congruence|].
  split; [rewrite C4, B4, A4; split; intro E; discriminate E|].
  intro E. inversion E; subst next. apply C5, B5, A5. reflexivity.
Qed.

(** X13.  [PhotometricDistort.__call__], built by its constructor, changes
    nothing but pixels: whenever it returns, the boxes of both frames and
    the matrix are the ones it was given, and a second frame is returned. *)
Theorem PhotometricDistort_keeps_boxes_and_labels (a b c d : Q)
    (ph : PhotometricDistort) (s s' : sample) (wd wd' : world) :
  PhotometricDistort_init cvtColor_BGR2HSV cvtColor_HSV2BGR a b c d = Ok ph ->
  PhotometricDistort_call ph s wd = (Ok s', wd') ->
  boxes_pre s' = boxes_pre s /\ boxes_next s' = boxes_next s /\
  labels s' = labels s /\ img_next s' <> None.
Proof.
  intros Hph H.
  destruct (PhotometricDistort_call_pixels_only a b c d ph Hph s wd s' wd' H)
    as (A1 & A2 & A3 & A4 & _).
  split; [exact A1|]. split; [exact A2|]. split; [exact A3|].
  intro E. apply A4 in E. unfold PhotometricDistort_call in H.
  rewrite E in H. discriminate H.
Qed.

(** X14.  [PhotometricDistort.__call__] draws once for both frames: given
    the same frame twice, it returns the same frame twice. *)
Theorem PhotometricDistort_same_on_both_frames (a b c d : Q)
    (ph : PhotometricDistort) (s s' : sample) (wd wd' : world) :
  PhotometricDistort_init cvtColor_BGR2HSV cvtColor_HSV2BGR a b c d = Ok ph ->
  img_next s = Some (img_pre s) ->
  PhotometricDistort_call ph s wd = (Ok s', wd') ->
  img_next s' = Some (img_pre s').
Proof.
  intros Hph E H.
  destruct (PhotometricDistort_call_pixels_only a b c d ph Hph s wd s' wd' H)
    as (_ & _ & _ & _ & A5).
  exact (A5 E).
Qed.

End PhotometricProperties.

(** X13 and X14 on a pair that holds the same frame twice, every draw
    1/2, the colour conversions taken as the identity. *)
Lemma PhotometricDistort_keeps_boxes_and_labels_witness :
  exists ph s' wd',
    PhotometricDistort_init (fun im => im) (fun im => im)
                            (7 # 10) (15 # 10) (7 # 10) (15 # 10) = Ok ph /\
    PhotometricDistort_call ph Examples.two_box_sample Examples.half_world
    = (Ok s', wd') /\
    boxes_pre s' = boxes_pre Examples.two_box_sample /\
    boxes_next s' = boxes_next Examples.two_box_sample /\
    labels s' = labels Examples.two_box_sample /\ img_next s' <> None.
Proof.
  assert (Hph : exists ph,
             PhotometricDistort_init (fun im => im) (fun im => im)
               (7 # 10) (15 # 10) (7 # 10) (15 # 10) = Ok ph)
    by (eexists; reflexivity).
  destruct Hph as [ph Hph].
  assert (Hrun : exists s' wd',
             PhotometricDistort_call ph Examples.two_box_sample
                                     Examples.half_world = (Ok s', wd')).
  { inversion Hph; subst ph. eexists. eexists. lazy. reflexivity. }
  destruct Hrun as (s' & wd' & Hrun). exists ph, s', wd'.
  split; [exact Hph|]. split; [exact Hrun|].
  exact (PhotometricDistort_keeps_boxes_and_labels (fun im => im)
           (fun im => im) _ _ _ _ ph Examples.two_box_sample s'
           Examples.half_world wd' Hph Hrun).
Defined.

Lemma PhotometricDistort_same_on_both_frames_witness :
  img_next Examples.two_box_sample = Some (img_pre Examples.two_box_sample) /\
  exists ph s' wd',
    PhotometricDistort_init (fun im => im) (fun im => im)
                            (7 # 10) (15 # 10) (7 # 10) (15 # 10) = Ok ph /\
    PhotometricDistort_call ph Examples.two_box_sample Examples.half_world
    = (Ok s', wd') /\
    img_next s' = Some (img_pre s').
Proof.
  split; [reflexivity|].
  assert (Hph : exists ph,
             PhotometricDistort_init (fun im => im) (fun im => im)
               (7 # 10) (15 # 10) (7 # 10) (15 # 10) = Ok ph)
    by (eexists; reflexivity).
  destruct Hph as [ph Hph].
  assert (Hrun : exists s' wd',
             PhotometricDistort_call ph Examples.two_box_sample
                                     Examples.half_world = (Ok s', wd')).
  { inversion Hph; subst ph. eexists. eexists. lazy. reflexivity. }
  destruct Hrun as (s' & wd' & Hrun). exists ph, s', wd'.
  split; [exact Hph|]. split; [exact Hrun|].
  exact (PhotometricDistort_same_on_both_frames (fun im => im)
           (fun im => im) _ _ _ _ ph Examples.two_box_sample s'
           Examples.half_world wd' Hph eq_refl Hrun).
Defined.

(** ** RandomHue *)

Lemma hue_shift_range (delta d v : Q) :
  0 <= delta -> delta <= 360 -> - delta <= d -> d <= delta ->
  0 <= v -> v <= 360 ->
  0 <= hue_shift d v /\ hue_shift d v <= 360.
Proof.
  intros H0 H1 H2 H3 H4 H5. unfold hue_shift.
  destruct (Qltb 360 (v + d)) eqn:E1.
  - apply Qltb_lt in E1.
    destruct (Qltb (v + d - 360) 0) eqn:E2;
      [apply Qltb_lt in E2 | apply Qltb_ge in E2]; split; lra.
  - apply Qltb_ge in E1.
    destruct (Qltb (v + d) 0) eqn:E2;
      [apply Qltb_lt in E2 | apply Qltb_ge in E2]; split; lra.
Qed.

Lemma RandomHue_init_Ok (delta : Q) (self : RandomHue) :
  RandomHue_init delta = Ok self ->
  0 <= delta /\ delta <= 360 /\ hue_delta self = delta.
Proof.
  unfold RandomHue_init, then_, assert.
  destruct (Qle_bool 0 delta) eqn:E0; [|discriminate].
  destruct (Qle_bool delta 360) eqn:E1; [|discriminate].
  cbn [andb]. intro H. inversion H. cbn [hue_delta].
  apply Qle_bool_iff in E0, E1. repeat split; assumption.
Qed.

Lemma map_channel_hue (delta d : Q) (im im' : image) :
  0 <= delta -> delta <= 360 -> - delta <= d -> d <= delta ->
  map_channel 0 (hue_shift d) im = Ok im' ->
  shape im' = shape im /\
  (forall r c k, k <> 0%nat -> px im' r c k = px im r c k) /\
  (hue_in_range im -> hue_in_range im').
Proof.
  intros H0 H1 H2 H3 H. unfold map_channel in H.
  destruct (0 <? depth im)%nat; [|discriminate H].
  inversion H; subst im'; clear H. cbn [shape height width depth px].
  split; [reflexivity|]. split.
  - intros r c k Hk. destruct (Nat.eqb_spec k 0); [contradiction | reflexivity].
  - intros Hr r c. cbn [px Nat.eqb]. destruct (Hr r c) as [A B].
    exact (hue_shift_range delta d _ H0 H1 H2 H3 A B).
Qed.

(** X15.  [RandomHue.__call__] with a delta its constructor accepts keeps
    hues in range: under draws in [0, 1), if every value of channel 0 of
    the frames given is in [0, 360], so is every value of channel 0 of the
    frames returned; the other channels and the shapes are unchanged. *)
Theorem RandomHue_call_keeps_hue_in_range (delta : Q) (self : RandomHue)
    (s s' : sample) (wd wd' : world) :
  RandomHue_init delta = Ok self -> unit_tape wd ->
  RandomHue_call self s wd = (Ok s', wd') ->
  hue_in_range (img_pre s) ->
  match img_next s with
  | Some next => hue_in_range next
  | None => True
  end ->
  hue_in_range (img_pre s') /\
  shape (img_pre s') = shape (img_pre s) /\
  (forall r c k, k <> 0%nat ->
     px (img_pre s') r c k = px (img_pre s) r c k) /\
  match img_next s, img_next s' with
  | Some next, Some next' =>
      hue_in_range next' /\ shape next' = shape next /\
      (forall r c k, k <> 0%nat -> px next' r c k = px next r c k)
  | None, None => True
  | _, _ => False
  end.
Proof.
  intros Hi Ht H Hp Hn.
  apply RandomHue_init_Ok in Hi. destruct Hi as (H0 & H1 & Hd).
  unfold RandomHue_call in H.
  apply bind_Ok in H. destruct H as [go [wd1 [Hgo H]]].
  destruct (post_randint 2 wd go wd1 Ht Hgo) as [Ht1 _].
  destruct (negb (go =? 0)%nat).
  - apply bind_Ok in H. destruct H as [d [wd2 [Hu H]]].
    destruct (post_uniform _ _ wd1 d wd2 Ht1 Hu) as [_ (u & Hu0 & Hu1 & ->)].
    rewrite Hd in H.
    assert (Hlo : - delta <= - delta + (delta - - delta) * u) by nra.
    assert (Hhi : - delta + (delta - - delta) * u <= delta) by nra.
    unfold on_frames in H.
    apply bind_Ok in H. destruct H as [pre [wd3 [Hpre H]]].
    apply lift_Ok in Hpre. destruct Hpre as [Hpre ->].
    destruct (map_channel_hue delta _ _ _ H0 H1 Hlo Hhi Hpre)
      as (A1 & A2 & A3).
    destruct (img_next s) as [next|].
    + apply bind_Ok in H. destruct H as [nxt [wd4 [Hnxt H]]].
      apply lift_Ok in Hnxt. destruct Hnxt as [Hnxt ->].
      destruct (map_channel_hue delta _ _ _ H0 H1 Hlo Hhi Hnxt)
        as (B1 & B2 & B3).
      apply ret_Ok in H. destruct H as [-> _]. cbn [img_pre img_next].
      split; [exact (A3 Hp)|]. split; [exact A1|]. split; [exact A2|].
      split; [exact (B3 Hn)|]. split; [exact B1 | exact B2].
    + apply ret_Ok in H. destruct H as [-> _]. cbn [img_pre img_next].
      split; [exact (A3 Hp)|]. split; [exact A1|]. split; [exact A2 | exact I].
  - apply ret_Ok in H. destruct H as [-> _].
    split; [exact Hp|]. split; [reflexivity|]. split; [reflexivity|].
    destruct (img_next s); [|exact I].
    split; [exact Hn|]. split; reflexivity.
Qed.

(** X15 on a black pair: the coin says go and the draw is -18, so hue 0
    wraps around to 342. *)
Lemma RandomHue_call_keeps_hue_in_range_witness :
  unit_tape Cases.drop_world /\
  hue_in_range (img_pre Examples.two_box_sample) /\
  exists self s' wd',
    RandomHue_init 18 = Ok self /\
    RandomHue_call self Examples.two_box_sample Cases.drop_world
    = (Ok s', wd') /\
    px (img_pre s') 0 0 0 == 342 /\
    hue_in_range (img_pre s') /\
    shape (img_pre s') = shape (img_pre Examples.two_box_sample) /\
    (forall r c k, k <> 0%nat ->
       px (img_pre s') r c k = px (img_pre Examples.two_box_sample) r c k) /\
    match img_next Examples.two_box_sample, img_next s' with
    | Some next, Some next' =>
        hue_in_range next' /\ shape next' = shape next /\
        (forall r c k, k <> 0%nat -> px next' r c k = px next r c k)
    | None, None => True
    | _, _ => False
    end.
Proof.
  split; [exact drop_world_unit|].
  assert (Hr : hue_in_range Examples.frame100)
    by (intros r c; cbn; split; discriminate).
  split; [exact Hr|].
  assert (Hi : exists self, RandomHue_init 18 = Ok self)
    by (eexists; reflexivity).
  destruct Hi as [self Hi].
  assert (Hrun : exists s' wd',
             RandomHue_call self Examples.two_box_sample Cases.drop_world
             = (Ok s', wd') /\ px (img_pre s') 0 0 0 == 342).
  { inversion Hi; subst self. eexists. eexists.
    split; [lazy; reflexivity | reflexivity]. }
  destruct Hrun as (s' & wd' & Hrun & Hpx). exists self, s', wd'.
  split; [exact Hi|]. split; [exact Hrun|]. split; [exact Hpx|].
  exact (RandomHue_call_keeps_hue_in_range 18 self Examples.two_box_sample s'
           Cases.drop_world wd' Hi drop_world_unit Hrun Hr Hr).
Defined.

(** ** RandomLightingNoise *)

Lemma perms_are_permutations (i : nat) (swap : list nat) :
  nth_error perms i = Some swap -> Permutation swap [0; 1; 2]%nat.
Proof.
  unfold perms. intro H.
  destruct i as [|[|[|[|[|[|i]]]]]]; cbn [nth_error] in H;
    try (inversion H; subst swap; clear H).
  - reflexivity.
  - apply perm_skip, perm_swap.
  - apply perm_swap.
  - symmetry. apply (Permutation_cons_app [1; 2]%nat [] 0%nat). reflexivity.
  - apply (Permutation_cons_app [0; 1]%nat [] 2%nat). reflexivity.
  - apply (Permutation_cons_app [0; 1]%nat [] 2%nat). apply perm_swap.
  - destruct i; discriminate H.
Qed.

Lemma SwapChannels_reorders (swap : list nat) (im : image) :
  Permutation swap [0; 1; 2]%nat -> depth im = 3%nat ->
  exists im', SwapChannels_call swap im = Ok im' /\
              channels_reordered swap im im'.
Proof.
  intros Hp Hd. unfold SwapChannels_call.
  assert (Hall : forallb (fun k => (k <? depth im)%nat) swap = true).
  { apply forallb_forall. intros k Hk. apply Nat.ltb_lt. rewrite Hd.
    apply (Permutation_in k Hp) in Hk. cbn in Hk. lia. }
  rewrite Hall. eexists. split; [reflexivity|].
  unfold channels_reordered, shape. cbn [height width depth px].
  rewrite (Permutation_length Hp), Hd. split; [reflexivity|].
  intros r c k _. reflexivity.
Qed.

(** X16.  On frames of three channels, under draws in [0, 1),
    [RandomLightingNoise.__call__] always returns; the frames keep their
    shape, and the channels returned are the channels given in some order,
    the same order for both frames; boxes and matrix are untouched. *)
Theorem RandomLightingNoise_call_reorders_channels (s : sample) (wd : world) :
  unit_tape wd -> depth (img_pre s) = 3%nat ->
  match img_next s with
  | Some next => depth next = 3%nat
  | None => True
  end ->
  exists (s' : sample) (wd' : world) (order : list nat),
    RandomLightingNoise_call s wd = (Ok s', wd') /\
    Permutation order [0; 1; 2]%nat /\
    channels_reordered order (img_pre s) (img_pre s') /\
    match img_next s, img_next s' with
    | Some next, Some next' => channels_reordered order next next'
    | None, None => True
    | _, _ => False
    end /\
    boxes_pre s' = boxes_pre s /\ boxes_next s' = boxes_next s /\
    labels s' = labels s.
Proof.
  intros Ht Hd Hn. unfold RandomLightingNoise_call.
  unfold bind at 1.
  destruct (random_randint 2 wd) as [[go|e] wd1] eqn:Ego;
    [|discriminate Ego].
  destruct (post_randint 2 wd go wd1 Ht Ego) as [Ht1 _].
  destruct (negb (go =? 0)%nat).
  - unfold bind at 1.
    destruct (random_randint (length perms) wd1) as [[i|e] wd2] eqn:Ei;
      [|discriminate Ei].
    destruct (post_randint_le 5 wd1 i wd2 Ht1 Ei) as [_ Hi].
    cbv beta in Hi.
    destruct (nth_error perms i) as [swap|] eqn:Es;
      [|apply nth_error_None in Es; cbn in Es; lia].
    pose proof (perms_are_permutations i swap Es) as Hp.
    destruct (SwapChannels_reorders swap (img_pre s) Hp Hd)
      as (pre & Epre & Hpre).
    unfold on_frames, bind at 1, lift. rewrite Epre.
    destruct (img_next s) as [next|].
    + destruct (SwapChannels_reorders swap next Hp Hn) as (nxt & Enxt & Hnxt).
      unfold bind, lift. rewrite Enxt.
      eexists. eexists. exists swap. split; [reflexivity|].
      cbn [img_pre img_next boxes_pre boxes_next labels].
      split; [exact Hp|]. split; [exact Hpre|]. split; [exact Hnxt|].
      split; [reflexivity|]. split; reflexivity.
    + eexists. eexists. exists swap. split; [reflexivity|].
      cbn [img_pre img_next boxes_pre boxes_next labels].
      split; [exact Hp|]. split; [exact Hpre|]. split; [exact I|].
      split; [reflexivity|]. split; reflexivity.
  - exists s, wd1, [0; 1; 2]%nat. split; [reflexivity|].
    split; [reflexivity|].
    assert (Hid : forall im, depth im = 3%nat ->
              channels_reordered [0; 1; 2]%nat im im).
    { intros im Him. split; [reflexivity|]. intros r c k Hk. rewrite Him in Hk.
      destruct k as [|[|[|k]]]; try reflexivity. lia. }
    split; [exact (Hid _ Hd)|].
    split; [destruct (img_next s); [exact (Hid _ Hn) | exact I]|].
    split; [reflexivity|]. split; reflexivity.
Qed.

(** X16 on a pair of three-channel frames, the coin says go and the draw
    picks the order (0, 1, 2). *)
Lemma RandomLightingNoise_call_reorders_channels_witness :
  unit_tape Cases.drop_world /\
  depth (img_pre Examples.two_box_sample) = 3%nat /\
  exists (s' : sample) (wd' : world) (order : list nat),
    RandomLightingNoise_call Examples.two_box_sample Cases.drop_world
    = (Ok s', wd') /\
    Permutation order [0; 1; 2]%nat /\
    channels_reordered order (img_pre Examples.two_box_sample) (img_pre s') /\
    match img_next Examples.two_box_sample, img_next s' with
    | Some next, Some next' => channels_reordered order next next'
    | None, None => True
    | _, _ => False
    end /\
    boxes_pre s' = boxes_pre Examples.two_box_sample /\
    boxes_next s' = boxes_next Examples.two_box_sample /\
    labels s' = labels Examples.two_box_sample.
Proof.
  split; [exact drop_world_unit|]. split; [reflexivity|].
  exact (RandomLightingNoise_call_reorders_channels Examples.two_box_sample
           Cases.drop_world drop_world_unit eq_refl eq_refl).
Defined.

(** ** The evaluation chains *)

Lemma ResizeShuffleBoxes_call_frames (self : ResizeShuffleBoxes) (s : sample)
    (wd wd' : world) (r : shuffled) :
  ResizeShuffleBoxes_call self s wd = (Ok r, wd') ->
  sh_img_pre r = img_pre s /\ sh_img_next r = img_next s.
Proof.
  intro H. unfold ResizeShuffleBoxes_call in H.
  apply bind_Ok in H. destruct H as [[size_pre bp] [wd1 [_ H]]].
  apply bind_Ok in H. destruct H as [indexes_pre [wd2 [_ H]]].
  destruct (img_next s) as [next|].
  - destruct (boxes_next s) as [bn|]; [|discriminate H].
    apply bind_Ok in H. destruct H as [[size_next bn'] [wd3 [_ H]]].
    apply bind_Ok in H. destruct H as [indexes_next [wd4 [_ H]]].
    destruct (labels s) as [lab0|]; [|discriminate H].
    destruct (negb _); [discriminate H|].
    destruct (negb _); [discriminate H|].
    apply ret_Ok in H. destruct H as [-> _]. split; reflexivity.
  - apply ret_Ok in H. destruct H as [-> _]. split; reflexivity.
Qed.

Lemma subtract_mean_shape (mean : list Q) (im im' : image) :
  subtract_mean mean im = Ok im' -> shape im' = shape im.
Proof.
  unfold subtract_mean. destruct (broadcasts_to _ _); [|discriminate].
  intro H. inversion H. reflexivity.
Qed.

Section EvaluationProperties.

Variable cv2_resize : image -> nat -> result image.
Variable tensors : Type.
Variable ToTensor_call : formatted -> result tensors.

(** What the head of the evaluation chains returns: the boxes of both
    frames divided by the shape of the first frame. *)
Lemma evaluation_head_returns (mean : list Q) (size : nat) (s s1 : sample)
    (wd wd1 : world) :
  evaluation_head cv2_resize mean size s wd = (Ok s1, wd1) ->
  let w := inject_Z (Z.of_nat (width (img_pre s))) in
  let h := inject_Z (Z.of_nat (height (img_pre s))) in
  boxes_pre s1 = map (percent_box w h) (boxes_pre s) /\
  boxes_next s1 = option_map (map (percent_box w h)) (boxes_next s) /\
  labels s1 = labels s /\
  (img_next s1 = None <-> img_next s = None) /\
  wd1 = wd.
Proof.
  intros H w h. unfold evaluation_head in H. cbn [Compose_call] in H.
  apply bind_Ok in H. destruct H as [sa [wda [Ha H]]].
  apply bind_Ok in H. destruct H as [sb [wdb [Hb H]]].
  apply bind_Ok in H. destruct H as [sc [wdc [Hc H]]].
  apply bind_Ok in H. destruct H as [sd [wdd [Hd H]]].
  apply ret_Ok in H. destruct H as [-> ->].
  assert (Ea : img_pre sa = img_pre s /\ img_next sa = img_next s /\
               boxes_pre sa = boxes_pre s /\ boxes_next sa = boxes_next s /\
               labels sa = labels s /\ wda = wd).
  { unfold ConvertFromInts_call in Ha.
    destruct (img_next s) as [next|] eqn:En.
    - destruct (boxes_next s) as [bn|]; [|discriminate Ha].
      apply ret_Ok in Ha. destruct Ha as [-> ->]. repeat split; reflexivity.
    - apply ret_Ok in Ha. destruct Ha as [-> ->]. repeat split; reflexivity. }
  destruct Ea as (Ea1 & Ea2 & Ea3 & Ea4 & Ea5 & ->).
  unfold ToPercentCoords_call in Hb. apply ret_Ok in Hb.
  destruct Hb as [-> ->].
  destruct (on_frames_pixels_only _ _ _ _ _ Hc) as (C1 & C2 & C3 & C4 & _).
  destruct (on_frames_pixels_only _ _ _ _ _ Hd) as (D1 & D2 & D3 & D4 & _).
  cbn [boxes_pre boxes_next labels img_next] in C1, C2, C3, C4.
  assert (Ewd : wdd = wd).
  { unfold Resize_call, on_frames in Hc. unfold SubtractMeans_call, on_frames in Hd.
    apply bind_Ok in Hc. destruct Hc as [p1 [w1 [Hc1 Hc]]].
    apply lift_Ok in Hc1. destruct Hc1 as [_ ->].
    apply bind_Ok in Hd. destruct Hd as [p2 [w2 [Hd1 Hd]]].
    apply lift_Ok in Hd1. destruct Hd1 as [_ ->].
    cbn [img_next] in Hc.
    assert (wdc = wd).
    { destruct (img_next sa).
      - apply bind_Ok in Hc. destruct Hc as [q1 [w3 [Hc1 Hc]]].
        apply lift_Ok in Hc1. destruct Hc1 as [_ ->].
        apply ret_Ok in Hc. tauto.
      - apply ret_Ok in Hc. tauto. }
    subst wdc. destruct (img_next sc).
    - apply bind_Ok in Hd. destruct Hd as [q1 [w3 [Hd1 Hd]]].
      apply lift_Ok in Hd1. destruct Hd1 as [_ ->].
      apply ret_Ok in Hd. tauto.
    - apply ret_Ok in Hd. tauto. }
  rewrite D1, C1, D2, C2, D3, C3, D4, C4, Ea1, Ea2, Ea3, Ea4, Ea5.
  fold w h. repeat split; try reflexivity; try tauto.
Qed.

(** X17.  On a single frame the chain of type ['val'] never returns: it
    raises, and when the transforms before [FormatBoxes] return, what it
    raises is the [TypeError] of [FormatBoxes] indexing the list that
    [ResizeShuffleBoxes] built. *)
Theorem val_chain_raises_on_single_frame (mean : list Q)
    (size max_object : nat) (s : sample) (wd : world) :
  img_next s = None ->
  exists (e : exn) (wd' : world),
    DANAugmentation_val cv2_resize tensors ToTensor_call mean size max_object
                        s wd = (Raised e, wd') /\
    (forall s1 wd1 r,
       evaluation_head cv2_resize mean size s wd = (Ok s1, wd1) ->
       ResizeShuffleBoxes_call (mkResizeShuffleBoxes max_object) s1 wd1
       = (Ok r, wd') ->
       e = TypeError).
Proof.
  intro Hn. unfold DANAugmentation_val, val_formatted.
  unfold bind at 1. unfold bind at 1.
  destruct (evaluation_head cv2_resize mean size s wd) as [[s1|e] wd1] eqn:E1.
  - destruct (evaluation_head_returns mean size s s1 wd wd1 E1)
      as (_ & _ & _ & Hn1 & _).
    apply Hn1 in Hn. unfold bind at 1.
    destruct (ResizeShuffleBoxes_call _ s1 wd1) as [[r|e] wd2] eqn:E2.
    + destruct (ResizeShuffleBoxes_call_frames _ _ _ _ _ E2) as [_ Er].
      rewrite Hn in Er.
      assert (Ef : FormatBoxes_call (of_shuffled r) = Raised TypeError).
      { unfold FormatBoxes_call, of_shuffled.
        cbn [t_img_next t_boxes_pre]. rewrite Er. reflexivity. }
      rewrite Ef. cbn [lift]. exists TypeError, wd2.
      split; [reflexivity|]. intros; reflexivity.
    + exists e, wd2. split; [reflexivity|].
      intros s1' wd1' r H1 H2. inversion H1; subst s1' wd1'.
      rewrite E2 in H2. discriminate H2.
  - exists e, wd1. split; [reflexivity|].
    intros s1' wd1' r H1 _. discriminate H1.
Qed.

(** X18.  On a pair the chain of the other types (['test']) never
    returns: it raises, and when the transforms before [FormatBoxes]
    return, what it raises is the [IndexError] of [FormatBoxes] indexing
    a row of the box array. *)
Theorem test_chain_raises_on_pair (mean : list Q) (size : nat) (s : sample)
    (next : image) (wd : world) :
  img_next s = Some next ->
  exists (e : exn) (wd' : world),
    DANAugmentation_test cv2_resize tensors ToTensor_call mean size s wd
    = (Raised e, wd') /\
    (forall s1,
       evaluation_head cv2_resize mean size s wd = (Ok s1, wd') ->
       e = IndexError).
Proof.
  intro Hn. unfold DANAugmentation_test, test_formatted.
  unfold bind at 1. unfold bind at 1.
  destruct (evaluation_head cv2_resize mean size s wd) as [[s1|e] wd1] eqn:E1.
  - destruct (evaluation_head_returns mean size s s1 wd wd1 E1)
      as (_ & _ & _ & Hn1 & _).
    assert (Ef : FormatBoxes_call (of_sample s1) = Raised IndexError).
    { unfold FormatBoxes_call, of_sample. cbn [t_img_next t_boxes_pre].
      destruct (img_next s1) as [n1|]; [reflexivity|].
      rewrite Hn in Hn1. destruct Hn1 as [Hn1 _].
      specialize (Hn1 eq_refl). discriminate Hn1. }
    rewrite Ef. cbn [lift]. exists IndexError, wd1.
    split; [reflexivity|]. intros; reflexivity.
  - exists e, wd1. split; [reflexivity|].
    intros s1' H1. discriminate H1.
Qed.

End EvaluationProperties.

(** ** FormatBoxes on what ResizeShuffleBoxes built *)

Lemma center_row_of_box (b : box) :
  (fun c : coord * coord => (remove_inf (fst c), remove_inf (snd c)))
    (center_row (row_of_box b)) = center_of b.
Proof. reflexivity. Qed.

Lemma format_after_shuffle (M : nat) (boxes : list box)
    (rows : list padded_box) (mask : list bool) :
  (length boxes <= M)%nat -> shuffled_copy M boxes rows mask ->
  centers_follow_mask M boxes
    (map (fun c => (remove_inf (fst c), remove_inf (snd c)))
         (map center_row rows))
    mask.
Proof.
  intros Hn (Hp & Hlm & _ & Ht & Hf & _).
  assert (Hlr : length rows = M)
    by (rewrite (Permutation_length Hp); now apply padded_rows_length).
  assert (Hnth : forall k,
            nth k (map (fun c => (remove_inf (fst c), remove_inf (snd c)))
                       (map center_row rows)) sentinel
            = (fun c => (remove_inf (fst c), remove_inf (snd c)))
                (center_row (nth k rows inf_row))).
  { intro k. rewrite map_map.
    apply (map_nth (fun r => (remove_inf (fst (center_row r)),
                              remove_inf (snd (center_row r))))
                   rows inf_row k). }
  split; [now rewrite !length_map|]. split; [exact Hlm|]. split.
  - intros k Hk Hm. destruct (Ht k Hk Hm) as (b & Hb & Er).
    exists b. split; [exact Hb|]. rewrite Hnth, Er. apply center_row_of_box.
  - intros k Hk Hm. rewrite Hnth, (Hf k Hk Hm). reflexivity.
Qed.

Lemma percent_in_unit (im : image) (b : box) :
  (0 < width im)%nat -> (0 < height im)%nat -> box_within_frame im b ->
  center_in_range
    (center_of (percent_box (inject_Z (Z.of_nat (width im)))
                            (inject_Z (Z.of_nat (height im))) b)).
Proof.
  intros Hw Hh ((A1 & A2) & (B1 & B2) & (C1 & C2) & (D1 & D2)).
  set (w := inject_Z (Z.of_nat (width im))) in *.
  set (h := inject_Z (Z.of_nat (height im))) in *.
  assert (Hw' : 0 < w)
    by (unfold w; change 0 with (inject_Z 0); rewrite <- Zlt_Qlt; lia).
  assert (Hh' : 0 < h)
    by (unfold h; change 0 with (inject_Z 0); rewrite <- Zlt_Qlt; lia).
  assert (U : forall v n, 0 < n -> 0 <= v -> v <= n -> 0 <= v / n /\ v / n <= 1).
  { intros v n Hn H0 H1. split.
    - apply Qle_shift_div_l; [exact Hn|]. lra.
    - apply Qle_shift_div_r; [exact Hn|]. lra. }
  destruct (U _ _ Hw' A1 A2) as [a1 a2]. destruct (U _ _ Hw' B1 B2) as [b1 b2].
  destruct (U _ _ Hh' C1 C2) as [c1 c2]. destruct (U _ _ Hh' D1 D2) as [d1 d2].
  unfold center_in_range, center_of, percent_box. cbn [x1 y1 x2 y2].
  eexists. eexists. split; [reflexivity|]. split; split; lra.
Qed.

Lemma centers_of_percent_in_range (im : image) (M : nat) (boxes : list box)
    (cs : list (coord * coord)) (mask : list bool) :
  (0 < width im)%nat -> (0 < height im)%nat ->
  Forall (box_within_frame im) boxes ->
  centers_follow_mask M
    (map (percent_box (inject_Z (Z.of_nat (width im)))
                      (inject_Z (Z.of_nat (height im)))) boxes) cs mask ->
  centers_in_range M cs mask.
Proof.
  intros Hw Hh Hb (Hl & Hlm & Ht & Hf).
  split; [exact Hl|]. split; [exact Hlm|]. split; [|exact Hf].
  intros k Hk Hm. destruct (Ht k Hk Hm) as (b' & Hin & ->).
  apply in_map_iff in Hin. destruct Hin as (b & <- & Hin).
  rewrite Forall_forall in Hb. now apply percent_in_unit, Hb.
Qed.

(** X19.  Under draws in [0, 1), [FormatBoxes.__call__] returns on
    whatever [ResizeShuffleBoxes.__call__] returned for a pair; frames,
    masks and matrix pass through, and for each frame the array of M
    centers holds (x1 + x2 - 1, y1 + y2 - 1) of a box of the frame
    wherever the mask is [True] and (1.5, 1.5) wherever it is [False]. *)
Theorem FormatBoxes_after_shuffle (self : ResizeShuffleBoxes) (s : sample)
    (next : image) (wd wd' : world) (r : shuffled) :
  unit_tape wd -> img_next s = Some next ->
  ResizeShuffleBoxes_call self s wd = (Ok r, wd') ->
  let M := rsb_max_object self in
  exists (cs_pre cs_next : list (coord * coord)) (bn : list box)
         (mask_next : list bool),
    boxes_next s = Some bn /\
    snd (sh_boxes_next r) = Some mask_next /\
    FormatBoxes_call (of_shuffled r)
    = Ok (mkFormatted (img_pre s) (Some next)
                      (CentersList cs_pre (Some (snd (sh_boxes_pre r))))
                      (CentersList cs_next (Some mask_next))
                      (sh_labels r)) /\
    centers_follow_mask M (boxes_pre s) cs_pre (snd (sh_boxes_pre r)) /\
    centers_follow_mask M bn cs_next mask_next.
Proof.
  intros Ht En H M.
  destruct (ResizeShuffleBoxes_call_frames self s wd wd' r H) as [Ep Enx].
  destruct (ResizeShuffleBoxes_run self s wd wd' r Ht H)
    as (ip & Hp & Hn & Ebp & Hrest).
  rewrite En in Hrest, Enx.
  destruct Hrest as (inx & bn & lab0 & Hp2 & Eb & _ & Hn2 & _ & _ & Ebn & _).
  fold M in Hp, Hn, Hp2, Hn2, Ebp, Ebn.
  eexists. eexists. exists bn. eexists.
  split; [exact Eb|]. rewrite Ebn, Ebp. cbn [fst snd].
  split; [reflexivity|].
  split; [unfold FormatBoxes_call, of_shuffled;
          cbn [t_img_next t_boxes_pre t_boxes_next t_img_pre t_labels
               format_item];
          rewrite Enx, Ep, Ebp, Ebn; cbn [fst snd format_item]; reflexivity|].
  split; apply format_after_shuffle; try assumption;
    now apply shuffled_copy_of_perm.
Qed.

(** The rows and masks that [ResizeShuffleBoxes] and [FormatBoxes] make of
    a pair whose boxes were divided by the shape of a frame they lie in. *)
Lemma shuffle_format_centers (im : image) (M : nat) (s1 : sample)
    (n1 : image) (bp bn : list box) (wd wd2 : world) (r : shuffled)
    (f : formatted) :
  unit_tape wd -> img_next s1 = Some n1 ->
  (0 < width im)%nat -> (0 < height im)%nat ->
  boxes_pre s1 = map (percent_box (inject_Z (Z.of_nat (width im)))
                                  (inject_Z (Z.of_nat (height im)))) bp ->
  boxes_next s1
  = Some (map (percent_box (inject_Z (Z.of_nat (width im)))
                           (inject_Z (Z.of_nat (height im)))) bn) ->
  Forall (box_within_frame im) bp -> Forall (box_within_frame im) bn ->
  ResizeShuffleBoxes_call (mkResizeShuffleBoxes M) s1 wd = (Ok r, wd2) ->
  FormatBoxes_call (of_shuffled r) = Ok f ->
  exists (cs_pre cs_next : list (coord * coord))
         (mask_pre mask_next : list bool),
    f_boxes_pre f = CentersList cs_pre (Some mask_pre) /\
    f_boxes_next f = CentersList cs_next (Some mask_next) /\
    centers_in_range M cs_pre mask_pre /\
    centers_in_range M cs_next mask_next /\
    count_occ Bool.bool_dec mask_pre true = S (length bp) /\
    count_occ Bool.bool_dec mask_next true = S (length bn).
Proof.
  intros Ht En1 Hw Hh B1 B2 Hbp Hbn H2 H.
  destruct (ResizeShuffleBoxes_run _ s1 wd wd2 r Ht H2)
    as (ip & Hp & Hn & Ebp & Hrest).
  destruct (ResizeShuffleBoxes_call_frames _ s1 wd wd2 r H2) as [Ep Enx].
  rewrite En1 in Hrest, Enx.
  destruct Hrest as (inx & bn1 & lab0 & Hp2 & Eb & _ & Hn2 & _ & _ & Ebn & _).
  cbn [rsb_max_object] in Hp, Hn, Hp2, Hn2, Ebp, Ebn.
  rewrite B2 in Eb. inversion Eb; subst bn1; clear Eb.
  unfold FormatBoxes_call, of_shuffled in H.
  cbn [t_img_next t_boxes_pre t_boxes_next t_img_pre t_labels] in H.
  rewrite Enx, Ebp, Ebn in H. cbn [fst snd format_item] in H.
  inversion H; subst f; clear H. cbn [f_boxes_pre f_boxes_next].
  pose proof (shuffled_copy_of_perm M (boxes_pre s1) ip Hn Hp) as Sp.
  pose proof (shuffled_copy_of_perm M _ inx Hn2 Hp2) as Sn.
  eexists. eexists. eexists. eexists.
  split; [reflexivity|]. split; [reflexivity|].
  split; [|split; [|split]].
  - apply (centers_of_percent_in_range im M bp); try assumption.
    rewrite <- B1. now apply format_after_shuffle.
  - apply (centers_of_percent_in_range im M bn); try assumption.
    now apply format_after_shuffle.
  - destruct Sp as (_ & _ & _ & _ & _ & Hc). rewrite Hc, B1, length_map.
    reflexivity.
  - destruct Sn as (_ & _ & _ & _ & _ & Hc). rewrite Hc, length_map.
    reflexivity.
Qed.

Section EvaluationCenters.

Variable cv2_resize : image -> nat -> result image.

(** X20.  Under draws in [0, 1), when the chain of type ['val'] reaches
    [ToTensor] on a pair whose boxes lie in the first frame (far edges
    included; both box sets are divided by the shape of the first frame),
    each frame comes with M centers and a mask of M + 1 entries: a center
    is in [-1, 1] x [-1, 1] where the mask is [True] and is (1.5, 1.5)
    where it is [False], and the mask counts the boxes of the frame. *)
Theorem val_chain_centers (mean : list Q) (size max_object : nat)
    (s : sample) (next : image) (wd wd' : world) (f : formatted) :
  unit_tape wd -> img_next s = Some next ->
  (0 < width (img_pre s))%nat -> (0 < height (img_pre s))%nat ->
  Forall (box_within_frame (img_pre s)) (boxes_pre s) ->
  match boxes_next s with
  | Some bn => Forall (box_within_frame (img_pre s)) bn
  | None => True
  end ->
  val_formatted cv2_resize mean size max_object s wd = (Ok f, wd') ->
  exists (cs_pre cs_next : list (coord * coord)) (mask_pre mask_next : list bool)
         (bn : list box),
    boxes_next s = Some bn /\
    f_boxes_pre f = CentersList cs_pre (Some mask_pre) /\
    f_boxes_next f = CentersList cs_next (Some mask_next) /\
    centers_in_range max_object cs_pre mask_pre /\
    centers_in_range max_object cs_next mask_next /\
    count_occ Bool.bool_dec mask_pre true = S (length (boxes_pre s)) /\
    count_occ Bool.bool_dec mask_next true = S (length bn).
Proof.
  intros Ht En Hw Hh Hbp Hbn H. unfold val_formatted in H.
  apply bind_Ok in H. destruct H as [s1 [wd1 [H1 H]]].
  apply bind_Ok in H. destruct H as [r [wd2 [H2 H]]].
  apply lift_Ok in H. destruct H as [H _].
  destruct (evaluation_head_returns cv2_resize mean size s s1 wd wd1 H1)
    as (B1 & B2 & _ & B4 & ->).
  destruct (img_next s1) as [n1|] eqn:En1;
    [|rewrite En in B4; destruct B4 as [B4 _]; specialize (B4 eq_refl);
      discriminate B4].
  destruct (ResizeShuffleBoxes_run _ s1 wd wd2 r Ht H2)
    as (ip & _ & _ & _ & Hrest).
  rewrite En1 in Hrest. destruct Hrest as (inx & bn1 & lab0 & _ & Eb & _).
  rewrite B2 in Eb. destruct (boxes_next s) as [bn|]; [|discriminate Eb].
  cbn [option_map] in B2.
  destruct (shuffle_format_centers (img_pre s) max_object s1 n1 (boxes_pre s)
              bn wd wd2 r f Ht En1 Hw Hh B1 B2 Hbp Hbn H2 H)
    as (c1 & c2 & m1 & m2 & F).
  exists c1, c2, m1, m2, bn. split; [reflexivity | exact F].
Qed.

(** X21.  When the chain of the other types (['test']) reaches
    [ToTensor] on a single frame, it hands over one center per box, the
    center of the box divided by the shape of the frame, doubled, minus
    one; for boxes that lie in the frame (far edges included) every
    center is in [-1, 1] x [-1, 1].  Nothing is drawn. *)
Theorem test_chain_centers (mean : list Q) (size : nat) (s : sample)
    (wd wd' : world) (f : formatted) :
  img_next s = None ->
  (0 < width (img_pre s))%nat -> (0 < height (img_pre s))%nat ->
  test_formatted cv2_resize mean size s wd = (Ok f, wd') ->
  let w := inject_Z (Z.of_nat (width (img_pre s))) in
  let h := inject_Z (Z.of_nat (height (img_pre s))) in
  wd' = wd /\ f_img_next f = None /\
  f_boxes_pre f
  = Centers (map (fun b => center_of (percent_box w h b)) (boxes_pre s)) /\
  (Forall (box_within_frame (img_pre s)) (boxes_pre s) ->
   Forall center_in_range
          (map (fun b => center_of (percent_box w h b)) (boxes_pre s))).
Proof.
  intros En Hw Hh H w h. unfold test_formatted in H.
  apply bind_Ok in H. destruct H as [s1 [wd1 [H1 H]]].
  apply lift_Ok in H. destruct H as [H ->].
  destruct (evaluation_head_returns cv2_resize mean size s s1 wd wd1 H1)
    as (B1 & _ & _ & B4 & ->).
  fold w h in B1.
  apply B4 in En. unfold FormatBoxes_call, of_sample in H.
  cbn [t_img_next t_boxes_pre t_boxes_next t_img_pre t_labels] in H.
  rewrite En in H. inversion H; subst f; clear H.
  cbn [f_img_next f_boxes_pre].
  assert (Ec : map center_row (map row_of_box (boxes_pre s1))
               = map (fun b => center_of (percent_box w h b)) (boxes_pre s)).
  { rewrite B1, !map_map. apply map_ext. intro b. reflexivity. }
  rewrite Ec.
  split; [reflexivity|]. split; [reflexivity|]. split; [reflexivity|].
  intros Hb. apply Forall_map. apply Forall_forall. intros b Hin.
  rewrite Forall_forall in Hb. now apply percent_in_unit, Hb.
Qed.

End EvaluationCenters.

(** X17 on a single frame with two boxes. *)
Lemma val_chain_raises_on_single_frame_witness :
  img_next Examples.single_sample = None /\
  exists (e : exn) (wd' : world),
    DANAugmentation_val Cases.resize_blank formatted (fun f => Ok f)
                        Cases.mean_pixel 10 3 Examples.single_sample
                        Examples.half_world = (Raised e, wd') /\
    (forall s1 wd1 r,
       evaluation_head Cases.resize_blank Cases.mean_pixel 10
                       Examples.single_sample Examples.half_world
       = (Ok s1, wd1) ->
       ResizeShuffleBoxes_call (mkResizeShuffleBoxes 3) s1 wd1 = (Ok r, wd') ->
       e = TypeError).
Proof.
  split; [reflexivity|].
  exact (val_chain_raises_on_single_frame Cases.resize_blank formatted
           (fun f => Ok f) Cases.mean_pixel 10 3 Examples.single_sample
           Examples.half_world eq_refl).
Defined.

(** X18 on a pair with two boxes per frame. *)
Lemma test_chain_raises_on_pair_witness :
  img_next Examples.pair3 = Some Examples.frame100 /\
  exists (e : exn) (wd' : world),
    DANAugmentation_test Cases.resize_blank formatted (fun f => Ok f)
                         Cases.mean_pixel 10 Examples.pair3
                         Examples.half_world = (Raised e, wd') /\
    (forall s1,
       evaluation_head Cases.resize_blank Cases.mean_pixel 10 Examples.pair3
                       Examples.half_world = (Ok s1, wd') ->
       e = IndexError).
Proof.
  split; [reflexivity|].
  exact (test_chain_raises_on_pair Cases.resize_blank formatted
           (fun f => Ok f) Cases.mean_pixel 10 Examples.pair3
           Examples.frame100 Examples.half_world eq_refl).
Defined.

(** X19 on a pair with two boxes per frame at capacity 3. *)
Lemma FormatBoxes_after_shuffle_witness :
  unit_tape Examples.half_world /\
  exists (r : shuffled) (wd' : world),
    ResizeShuffleBoxes_call Examples.shuffle3 Examples.pair3
                            Examples.half_world = (Ok r, wd') /\
    exists (cs_pre cs_next : list (coord * coord)) (bn : list box)
           (mask_next : list bool),
      boxes_next Examples.pair3 = Some bn /\
      snd (sh_boxes_next r) = Some mask_next /\
      FormatBoxes_call (of_shuffled r)
      = Ok (mkFormatted (img_pre Examples.pair3) (Some Examples.frame100)
                        (CentersList cs_pre (Some (snd (sh_boxes_pre r))))
                        (CentersList cs_next (Some mask_next))
                        (sh_labels r)) /\
      centers_follow_mask 3 (boxes_pre Examples.pair3) cs_pre
                          (snd (sh_boxes_pre r)) /\
      centers_follow_mask 3 bn cs_next mask_next.
Proof.
  split; [exact half_world_unit|].
  assert (Hrun : exists r wd',
             ResizeShuffleBoxes_call Examples.shuffle3 Examples.pair3
                                     Examples.half_world = (Ok r, wd'))
    by (eexists; eexists; lazy; reflexivity).
  destruct Hrun as (r & wd' & Hrun). exists r, wd'.
  split; [exact Hrun|].
  exact (FormatBoxes_after_shuffle Examples.shuffle3 Examples.pair3
           Examples.frame100 Examples.half_world wd' r half_world_unit
           eq_refl Hrun).
Defined.

Lemma two_boxes_within_frame100 :
  Forall (box_within_frame Examples.frame100) Examples.two_boxes.
Proof.
  repeat (apply Forall_cons; [unfold box_within_frame; cbn; repeat split; discriminate|]).
  apply Forall_nil.
Qed.

(** X20 on the same pair. *)
Lemma val_chain_centers_witness :
  unit_tape Examples.half_world /\
  Forall (box_within_frame (img_pre Examples.pair3))
         (boxes_pre Examples.pair3) /\
  exists (f : formatted) (wd' : world),
    val_formatted Cases.resize_blank Cases.mean_pixel 10 3 Examples.pair3
                  Examples.half_world = (Ok f, wd') /\
    exists (cs_pre cs_next : list (coord * coord))
           (mask_pre mask_next : list bool) (bn : list box),
      boxes_next Examples.pair3 = Some bn /\
      f_boxes_pre f = CentersList cs_pre (Some mask_pre) /\
      f_boxes_next f = CentersList cs_next (Some mask_next) /\
      centers_in_range 3 cs_pre mask_pre /\
      centers_in_range 3 cs_next mask_next /\
      count_occ Bool.bool_dec mask_pre true
      = S (length (boxes_pre Examples.pair3)) /\
      count_occ Bool.bool_dec mask_next true = S (length bn).
Proof.
  split; [exact half_world_unit|].
  split; [exact two_boxes_within_frame100|].
  assert (Hrun : exists f wd',
             val_formatted Cases.resize_blank Cases.mean_pixel 10 3
                           Examples.pair3 Examples.half_world = (Ok f, wd'))
    by (eexists; eexists; lazy; reflexivity).
  destruct Hrun as (f & wd' & Hrun). exists f, wd'.
  split; [exact Hrun|].
  apply (val_chain_centers Cases.resize_blank Cases.mean_pixel 10 3
           Examples.pair3 Examples.frame100 Examples.half_world wd' f
           half_world_unit eq_refl).
  - cbn. lia.
  - cbn. lia.
  - exact two_boxes_within_frame100.
  - exact two_boxes_within_frame100.
  - exact Hrun.
Defined.

(** X21 on a single frame with two boxes. *)
Lemma test_chain_centers_witness :
  img_next Examples.single_sample = None /\
  exists (f : formatted) (wd' : world),
    test_formatted Cases.resize_blank Cases.mean_pixel 10
                   Examples.single_sample Examples.half_world = (Ok f, wd') /\
    wd' = Examples.half_world /\ f_img_next f = None /\
    f_boxes_pre f
    = Centers (map (fun b => center_of (percent_box 100 100 b))
                   (boxes_pre Examples.single_sample)) /\
    (Forall (box_within_frame (img_pre Examples.single_sample))
            (boxes_pre Examples.single_sample) ->
     Forall center_in_range
            (map (fun b => center_of (percent_box 100 100 b))
                 (boxes_pre Examples.single_sample))).
Proof.
  split; [reflexivity|].
  assert (Hrun : exists f wd',
             test_formatted Cases.resize_blank Cases.mean_pixel 10
                            Examples.single_sample Examples.half_world
             = (Ok f, wd'))
    by (eexists; eexists; lazy; reflexivity).
  destruct Hrun as (f & wd' & Hrun). exists f, wd'.
  split; [exact Hrun|].
  apply (test_chain_centers Cases.resize_blank Cases.mean_pixel 10
           Examples.single_sample Examples.half_world wd' f eq_refl).
  - cbn. lia.
  - cbn. lia.
  - exact Hrun.
Defined.

(** ** Transforms that keep the geometry *)

Lemma same_geometry_refl (s : sample) : same_geometry s s.
Proof.
  unfold same_geometry. repeat split. destruct (img_next s); [split|]; auto.
Qed.

Lemma same_geometry_trans (s1 s2 s3 : sample) :
  same_geometry s1 s2 -> same_geometry s2 s3 -> same_geometry s1 s3.
Proof.
  intros (A1 & A2 & A3 & A4 & A5 & A6) (B1 & B2 & B3 & B4 & B5 & B6).
  unfold same_geometry.
  split; [congruence|]. split; [congruence|]. split; [congruence|].
  split; [congruence|]. split; [congruence|].
  destruct (img_next s1), (img_next s2), (img_next s3); try contradiction;
    try exact I.
  destruct A6, B6. split; congruence.
Qed.

Lemma boxes_satisfy_same_geometry (P : image -> box -> Prop) (s s' : sample) :
  (forall im im' b, height im' = height im -> width im' = width im ->
                    P im b -> P im' b) ->
  same_geometry s s' -> boxes_satisfy P s -> boxes_satisfy P s'.
Proof.
  intros HP (A1 & A2 & A3 & A4 & A5 & A6) [Hp Hn]. unfold boxes_satisfy.
  rewrite A1, A2. split.
  - eapply Forall_impl; [|exact Hp]. intros b Hb. exact (HP _ _ b A4 A5 Hb).
  - destruct (img_next s) as [n|], (img_next s') as [n'|]; try contradiction;
      try exact I.
    destruct A6 as [A6 A7]. destruct Hn as (Hh & Hw & Hb).
    split; [congruence|]. split; [congruence|].
    destruct (boxes_next s) as [bn|]; [|exact I].
    eapply Forall_impl; [|exact Hb]. intros b Hb'. exact (HP _ _ b A6 A7 Hb').
Qed.

Lemma gentle_ret : gentle (fun s => ret s).
Proof. intro s. apply post_ret. apply same_geometry_refl. Qed.

Lemma gentle_on_frames (f : image -> result image) :
  keeps_size f -> gentle (on_frames f).
Proof.
  intros Hf s. unfold on_frames.
  eapply post_bind; [apply (post_lift _ (fun pre => f (img_pre s) = Ok pre));
                     auto|].
  intros pre Hpre. cbv beta in Hpre. destruct (Hf _ _ Hpre) as [Eh Ew].
  destruct (img_next s) as [next|] eqn:En.
  - eapply post_bind; [apply (post_lift _ (fun nxt => f next = Ok nxt)); auto|].
    intros nxt Hnxt. cbv beta in Hnxt. destruct (Hf _ _ Hnxt) as [Eh' Ew'].
    apply post_ret. unfold same_geometry.
    cbn [boxes_pre boxes_next labels img_pre img_next]. rewrite En.
    repeat split; assumption.
  - apply post_ret. unfold same_geometry.
    cbn [boxes_pre boxes_next labels img_pre img_next]. rewrite En.
    repeat split; assumption.
Qed.

(** A coin, then a draw, then a transform that keeps the geometry. *)
Lemma gentle_coin {A : Type} (draw : M A) (k : A -> transform) :
  post draw (fun _ => True) -> (forall a, gentle (k a)) ->
  gentle (fun s => go <- random_randint 2 ;;
                   if negb (go =? 0)%nat then a <- draw ;; k a s
                   else ret s).
Proof.
  intros Hd Hk s. eapply post_bind; [apply post_randint|].
  intros go _. destruct (negb (go =? 0)%nat).
  - eapply post_bind; [exact Hd|]. intros a _. apply Hk.
  - apply gentle_ret.
Qed.

Lemma post_weaken {A : Type} (c : M A) (P Q : A -> Prop) :
  (forall a, P a -> Q a) -> post c P -> post c Q.
Proof.
  intros HPQ Hc wd a wd' Ht H. destruct (Hc wd a wd' Ht H) as [Ht' Ha].
  split; [exact Ht' | now apply HPQ].
Qed.

Lemma keeps_size_map_image (f : Q -> Q) :
  keeps_size (fun im => Ok (map_image f im)).
Proof. intros im im' H. inversion H. split; reflexivity. Qed.

Lemma keeps_size_map_channel (ch : nat) (f : Q -> Q) :
  keeps_size (map_channel ch f).
Proof.
  intros im im' H. unfold map_channel in H.
  destruct (ch <? depth im)%nat; [|discriminate H].
  inversion H. split; reflexivity.
Qed.

Lemma keeps_size_SwapChannels (swaps : list nat) :
  keeps_size (SwapChannels_call swaps).
Proof.
  intros im im' H. unfold SwapChannels_call in H.
  destruct (forallb _ swaps); [|discriminate H].
  inversion H. split; reflexivity.
Qed.

Lemma keeps_size_subtract_mean (mean : list Q) :
  keeps_size (subtract_mean mean).
Proof.
  intros im im' H. apply subtract_mean_shape in H. inversion H.
  split; reflexivity.
Qed.

Lemma gentle_RandomBrightness (self : RandomBrightness) :
  gentle (RandomBrightness_call self).
Proof.
  apply (gentle_coin (random_uniform (- bri_delta self) (bri_delta self))
           (fun delta => on_frames
              (fun im => Ok (map_image (fun v => v + delta) im)))).
  - eapply post_weaken; [|apply post_uniform]. auto.
  - intro a. apply gentle_on_frames, keeps_size_map_image.
Qed.

Lemma gentle_RandomContrast (self : RandomContrast) :
  gentle (RandomContrast_call self).
Proof.
  apply (gentle_coin (random_uniform (con_lower self) (con_upper self))
           (fun alpha => on_frames
              (fun im => Ok (map_image (fun v => v * alpha) im)))).
  - eapply post_weaken; [|apply post_uniform]. auto.
  - intro a. apply gentle_on_frames, keeps_size_map_image.
Qed.

Lemma gentle_RandomSaturation (self : RandomSaturation) :
  gentle (RandomSaturation_call self).
Proof.
  apply (gentle_coin (random_uniform (sat_lower self) (sat_upper self))
           (fun alpha => on_frames (map_channel 1 (fun v => v * alpha)))).
  - eapply post_weaken; [|apply post_uniform]. auto.
  - intro a. apply gentle_on_frames, keeps_size_map_channel.
Qed.

Lemma gentle_RandomHue (self : RandomHue) : gentle (RandomHue_call self).
Proof.
  apply (gentle_coin (random_uniform (- hue_delta self) (hue_delta self))
           (fun delta => on_frames (map_channel 0 (hue_shift delta)))).
  - eapply post_weaken; [|apply post_uniform]. auto.
  - intro a. apply gentle_on_frames, keeps_size_map_channel.
Qed.

Lemma gentle_RandomLightingNoise : gentle RandomLightingNoise_call.
Proof.
  apply (gentle_coin (random_randint (length perms))
           (fun i s => match nth_error perms i with
                       | None => raise IndexError
                       | Some swap => on_frames (SwapChannels_call swap) s
                       end)).
  - apply post_randint.
  - intros i s. destruct (nth_error perms i) as [swap|].
    + apply gentle_on_frames, keeps_size_SwapChannels.
    + apply post_raise.
Qed.

Lemma gentle_Compose (ts : list transform) :
  Forall gentle ts -> gentle (Compose_call ts).
Proof.
  induction 1 as [|t ts Ht _ IH]; cbn [Compose_call].
  - apply gentle_ret.
  - intro s. eapply post_bind; [apply Ht|].
    intros s1 H1. eapply post_weaken; [|apply IH].
    intros s2 H2. exact (same_geometry_trans _ _ _ H1 H2).
Qed.

Lemma gentle_ConvertFromInts : gentle ConvertFromInts_call.
Proof.
  intro s. unfold ConvertFromInts_call.
  destruct (img_next s) as [next|] eqn:En.
  - destruct (boxes_next s) as [bn|] eqn:Eb; [|apply post_raise].
    apply post_ret. unfold same_geometry.
    cbn [boxes_pre boxes_next labels img_pre img_next]. rewrite En, Eb.
    repeat split; reflexivity.
  - apply post_ret. unfold same_geometry.
    cbn [boxes_pre boxes_next labels img_pre img_next]. rewrite En.
    repeat split; reflexivity.
Qed.

Lemma gentle_SubtractMeans (mean : list Q) : gentle (SubtractMeans_call mean).
Proof. apply gentle_on_frames, keeps_size_subtract_mean. Qed.

(** ** The training chain *)

Lemma keeps_tape_unit {A : Type} (c : M A) (wd : world) :
  keeps_tape c -> unit_tape wd -> unit_tape (snd (c wd)).
Proof. intros Hc Ht n. rewrite (Hc wd). apply Ht. Qed.

Lemma keeps_tape_random_n (n : nat) : keeps_tape (random_random_n n).
Proof.
  induction n as [|n IH]; cbn [random_random_n]; [apply keeps_tape_ret|].
  apply keeps_tape_bind; [apply keeps_tape_random|]. intro u.
  apply keeps_tape_bind; [exact IH|]. intro us. apply keeps_tape_ret.
Qed.

Lemma keeps_tape_move (self : MoveBoxes) (im : image) (boxes : list box) :
  keeps_tape (move self im boxes).
Proof.
  unfold move. cbn [shape].
  apply keeps_tape_bind; [apply keeps_tape_random_n|]. intro rws.
  apply keeps_tape_bind; [apply keeps_tape_random_n|]. intro rhs.
  apply keeps_tape_bind; [apply keeps_tape_choice|]. intro sx.
  apply keeps_tape_bind; [apply keeps_tape_choice|]. intro sy.
  apply keeps_tape_ret.
Qed.

Lemma keeps_tape_MoveBoxes (self : MoveBoxes) (s : sample) :
  keeps_tape (MoveBoxes_call self s).
Proof.
  unfold MoveBoxes_call.
  apply keeps_tape_bind; [apply keeps_tape_move|]. intro bp.
  destruct (boxes_next s) as [bn|]; [|apply keeps_tape_ret].
  destruct (img_next s) as [next|]; [|apply keeps_tape_raise].
  apply keeps_tape_bind; [apply keeps_tape_move|]. intro bn'.
  apply keeps_tape_ret.
Qed.

Lemma pixels_in_closed_frame (im : image) (bs : list box) :
  Forall (box_in_pixels im) bs -> Forall box_ordered bs ->
  Forall (x_in_closed_frame (width im)) bs /\
  Forall (y_in_closed_frame (height im)) bs.
Proof.
  intros Hp Ho. split; apply Forall_forall; intros b Hb;
    rewrite Forall_forall in Hp, Ho;
    destruct (Hp b Hb) as ((A1 & A2) & (B1 & B2) & (C1 & C2) & (D1 & D2));
    destruct (Ho b Hb) as [O1 O2];
    unfold x_in_closed_frame, y_in_closed_frame, interval_ok;
    repeat split; lra.
Qed.

(** After [MoveBoxes], ordered boxes are in their frames. *)
Lemma MoveBoxes_call_in_frame (self : MoveBoxes) (s s' : sample)
    (wd wd' : world) :
  unit_tape wd -> MoveBoxes_call self s wd = (Ok s', wd') ->
  (1 <= width (img_pre s))%nat -> (1 <= height (img_pre s))%nat ->
  match img_next s with
  | Some next => height next = height (img_pre s)
                 /\ width next = width (img_pre s)
  | None => True
  end ->
  Forall box_ordered (boxes_pre s) ->
  match boxes_next s with
  | Some bn => Forall box_ordered bn
  | None => True
  end ->
  unit_tape wd' /\ img_pre s' = img_pre s /\ img_next s' = img_next s /\
  labels s' = labels s /\ x_ok s' /\ y_ok s'.
Proof.
  intros Ht H Hw Hh Hn Hop Hon.
  assert (Ht' : unit_tape wd').
  { pose proof (keeps_tape_unit _ wd (keeps_tape_MoveBoxes self s) Ht) as Hu.
    rewrite H in Hu. exact Hu. }
  split; [exact Ht'|].
  unfold MoveBoxes_call in H.
  apply bind_Ok in H. destruct H as (bp & wd1 & Hp & H).
  destruct (move_returns _ _ _ _ _ _ Hp Hw Hh) as (_ & Ap & Op).
  destruct (Op Hop) as [Op' _].
  destruct (pixels_in_closed_frame _ _ Ap Op') as [Xp Yp].
  destruct (boxes_next s) as [bn|].
  - destruct (img_next s) as [next|]; [|discriminate H].
    apply bind_Ok in H. destruct H as (bn' & wd2 & Hnx & H).
    apply ret_Ok in H. destruct H as [-> _]. destruct Hn as [Hnh Hnw].
    assert (Hw' : (1 <= width next)%nat) by lia.
    assert (Hh' : (1 <= height next)%nat) by lia.
    destruct (move_returns _ _ _ _ _ _ Hnx Hw' Hh') as (_ & An & On).
    destruct (On Hon) as [On' _].
    destruct (pixels_in_closed_frame _ _ An On') as [Xn Yn].
    unfold x_ok, y_ok, boxes_satisfy.
    cbn [img_pre img_next labels boxes_pre boxes_next].
    repeat split; assumption.
  - apply ret_Ok in H. destruct H as [-> _].
    unfold x_ok, y_ok, boxes_satisfy.
    cbn [img_pre img_next labels boxes_pre boxes_next].
    destruct (img_next s) as [next|];
      repeat split; try assumption; tauto.
Qed.

Lemma RandomMirror_call_size (s s' : sample) (wd wd' : world) :
  RandomMirror_call s wd = (Ok s', wd') ->
  height (img_pre s') = height (img_pre s) /\
  width (img_pre s') = width (img_pre s) /\
  labels s' = labels s /\
  (img_next s' = None <-> img_next s = None).
Proof.
  intro H. unfold RandomMirror_call in H.
  apply bind_Ok in H. destruct H as [flip [wd1 [_ H]]].
  destruct (negb (flip =? 0)%nat).
  - destruct (img_next s) as [next|].
    + destruct (boxes_next s) as [bn|]; [|discriminate H].
      apply ret_Ok in H. destruct H as [-> _].
      cbn [img_pre img_next labels mirror fst height width].
      repeat split; intro E; discriminate E.
    + apply ret_Ok in H. destruct H as [-> _].
      cbn [img_pre img_next labels mirror fst height width].
      repeat split; auto.
  - apply ret_Ok in H. destruct H as [-> _]. repeat split; auto.
Qed.

Lemma on_frames_world (f : image -> result image) (s s' : sample)
    (wd wd' : world) :
  on_frames f s wd = (Ok s', wd') -> wd' = wd.
Proof.
  unfold on_frames. intro H.
  apply bind_Ok in H. destruct H as [pre [wd1 [Hp H]]].
  apply lift_Ok in Hp. destruct Hp as [_ ->].
  destruct (img_next s).
  - apply bind_Ok in H. destruct H as [nxt [wd2 [Hn H]]].
    apply lift_Ok in Hn. destruct Hn as [_ ->].
    apply ret_Ok in H. tauto.
  - apply ret_Ok in H. tauto.
Qed.

Section TrainingChain.

Variable iou : list (Q * Q * Q * Q) -> Q * Q * Q * Q -> list Q.
Variables cvtColor_BGR2HSV cvtColor_HSV2BGR : image -> image.
Variable cv2_resize : image -> nat -> result image.

(** OpenCV's colour conversions return a frame of the height and width
    of the frame they are given. *)
Hypothesis BGR2HSV_size :
  forall im, height (cvtColor_BGR2HSV im) = height im
             /\ width (cvtColor_BGR2HSV im) = width im.
Hypothesis HSV2BGR_size :
  forall im, height (cvtColor_HSV2BGR im) = height im
             /\ width (cvtColor_HSV2BGR im) = width im.

Lemma gentle_ConvertColor (self : ConvertColor) :
  gentle (ConvertColor_call cvtColor_BGR2HSV cvtColor_HSV2BGR self).
Proof.
  intro s. unfold ConvertColor_call. destruct (_ && _).
  - apply gentle_on_frames. intros im im' H. inversion H. apply BGR2HSV_size.
  - destruct (_ && _).
    + apply gentle_on_frames. intros im im' H. inversion H.
      apply HSV2BGR_size.
    + apply post_raise.
Qed.

Lemma gentle_PhotometricDistort (a b c d : Q) (ph : PhotometricDistort) :
  PhotometricDistort_init cvtColor_BGR2HSV cvtColor_HSV2BGR a b c d = Ok ph ->
  gentle (PhotometricDistort_call ph).
Proof.
  unfold PhotometricDistort_init. intro H.
  destruct (RandomContrast_init a b) as [c1|]; [|discriminate H].
  destruct (RandomSaturation_init c d) as [sat|]; [|discriminate H].
  destruct (RandomHue_init 18) as [hue|]; [|discriminate H].
  destruct (RandomBrightness_init 32) as [bri|]; [|discriminate H].
  inversion H; subst ph; clear H.
  assert (Hpd : Forall gentle
            [ RandomContrast_call c1;
              ConvertColor_call cvtColor_BGR2HSV cvtColor_HSV2BGR
                                (mkConvertColor BGR HSV);
              RandomSaturation_call sat;
              RandomHue_call hue;
              ConvertColor_call cvtColor_BGR2HSV cvtColor_HSV2BGR
                                (mkConvertColor HSV BGR);
              RandomContrast_call c1 ]).
  { repeat (apply Forall_cons;
            [first [ apply gentle_RandomContrast
                   | apply gentle_RandomSaturation
                   | apply gentle_RandomHue
                   | apply gentle_ConvertColor ]|]).
    apply Forall_nil. }
  intro s. unfold PhotometricDistort_call.
  cbn [pd rand_brightness rand_light_noise].
  destruct (img_next s) as [next|] eqn:En; [|apply post_raise].
  assert (E0 : mkSample (img_pre s) (Some next) (boxes_pre s) (boxes_next s)
                        (labels s) = s)
    by (destruct s; cbn in *; congruence).
  rewrite E0.
  eapply post_bind; [apply gentle_RandomBrightness|]. intros s1 H1.
  eapply post_bind; [apply post_randint|]. intros go _.
  eapply post_bind.
  - apply (post_weaken _ (same_geometry s1)); [intros s2 Hs2; exact Hs2|].
    destruct (negb (go =? 0)%nat); apply gentle_Compose;
      [apply Forall_removelast | apply Forall_tl]; exact Hpd.
  - intros s2 H2. eapply post_weaken; [|apply gentle_RandomLightingNoise].
    intros s3 H3.
    exact (same_geometry_trans _ _ _ H1 (same_geometry_trans _ _ _ H2 H3)).
Qed.

(** What the three transforms at the head of the training chain make of a
    pair of frames of one size with ordered boxes. *)
Lemma train_head_in_frame (mv : MoveBoxes) (a b c d : Q)
    (ph : PhotometricDistort) (s s3 : sample) (next : image)
    (wd wd3 : world) :
  PhotometricDistort_init cvtColor_BGR2HSV cvtColor_HSV2BGR a b c d = Ok ph ->
  unit_tape wd -> img_next s = Some next ->
  (1 <= width (img_pre s))%nat -> (1 <= height (img_pre s))%nat ->
  height next = height (img_pre s) -> width next = width (img_pre s) ->
  Forall box_ordered (boxes_pre s) ->
  match boxes_next s with
  | Some bn => Forall box_ordered bn
  | None => True
  end ->
  Compose_call [ ConvertFromInts_call; MoveBoxes_call mv;
                 PhotometricDistort_call ph ] s wd = (Ok s3, wd3) ->
  unit_tape wd3 /\ x_ok s3 /\ y_ok s3 /\
  height (img_pre s3) = height (img_pre s) /\
  width (img_pre s3) = width (img_pre s) /\
  img_next s3 <> None.
Proof.
  intros Hph Ht En Hw Hh Hnh Hnw Hop Hon H. cbn [Compose_call] in H.
  apply bind_Ok in H. destruct H as [sa [wda [Ha H]]].
  apply bind_Ok in H. destruct H as [sb [wdb [Hb H]]].
  apply bind_Ok in H. destruct H as [sc [wdc [Hc H]]].
  apply ret_Ok in H. destruct H as [-> ->].
  destruct (gentle_ConvertFromInts s wd sa wda Ht Ha)
    as [Hta (A1 & A2 & A3 & A4 & A5 & A6)].
  rewrite En in A6. destruct (img_next sa) as [na|] eqn:Ena; [|contradiction].
  destruct A6 as [A6 A7].
  assert (Hb' := Hb).
  apply (MoveBoxes_call_in_frame mv sa sb wda wdb Hta) in Hb';
    [ | lia | lia | rewrite Ena; split; congruence | rewrite A1; exact Hop
      | rewrite A2; exact Hon ].
  destruct Hb' as (Htb & B1 & B2 & _ & Bx & By).
  destruct (gentle_PhotometricDistort a b c d ph Hph sb wdb sc wdc Htb Hc)
    as [Htc Hg].
  split; [exact Htc|].
  split; [apply (boxes_satisfy_same_geometry _ sb sc); try assumption;
          intros im im' bx _ E Hx; unfold x_in_closed_frame in *;
          rewrite E; exact Hx|].
  split; [apply (boxes_satisfy_same_geometry _ sb sc); try assumption;
          intros im im' bx E _ Hx; unfold y_in_closed_frame in *;
          rewrite E; exact Hx|].
  destruct Hg as (_ & _ & _ & G4 & G5 & G6).
  rewrite B1 in G4, G5. rewrite B2, Ena in G6.
  split; [congruence|]. split; [congruence|].
  destruct (img_next sc); [discriminate | contradiction].
Qed.

(** What the training chain makes, after [PhotometricDistort], of a
    sample whose boxes are in its frames. *)
Lemma train_tail_centers (mean : list Q) (max_expand : Q)
    (max_object size fuel : nat) (s : sample) (wd wd' : world)
    (f : formatted) :
  unit_tape wd -> 1 <= max_expand -> x_ok s -> y_ok s ->
  (2 <= width (img_pre s))%nat -> (2 <= height (img_pre s))%nat ->
  train_tail_formatted iou cv2_resize mean max_expand max_object size fuel
                       s wd = (Ok (Some f), wd') ->
  exists (cs_pre cs_next : list (coord * coord))
         (mask_pre mask_next : list bool),
    f_boxes_pre f = CentersList cs_pre (Some mask_pre) /\
    f_boxes_next f = CentersList cs_next (Some mask_next) /\
    centers_in_range max_object cs_pre mask_pre /\
    centers_in_range max_object cs_next mask_next.
Proof.
  intros Ht Hmax Hx Hy Hw Hh H. unfold train_tail_formatted in H.
  (* Expand *)
  destruct (Expand_call (mkExpand mean max_expand) s wd) as [[s1|e] wd1] eqn:E1;
    [|discriminate H].
  destruct (Expand_post (mkExpand mean max_expand) s Hmax wd s1 wd1 Ht E1)
    as [Ht1 [Hx1 Hy1]].
  specialize (Hx1 Hx). specialize (Hy1 Hy).
  assert (Hsz1 : (2 <= width (img_pre s1))%nat /\
                 (2 <= height (img_pre s1))%nat).
  { destruct (Expand_call_placed (mkExpand mean max_expand) s s1 wd wd1 Ht
                Hmax E1) as [-> | (dx & dy & _ & _ & Hpl & _)];
      [split; assumption|].
    destruct Hpl as (_ & Hpw & Hph & _). split; lia. }
  destruct Hsz1 as [Hw1 Hh1].
  (* RandomSampleCrop *)
  destruct (RandomSampleCrop_call iou fuel (RandomSampleCrop_init max_object)
                                  s1 wd1) as [[[s2|e]|] wd2] eqn:E2;
    try discriminate H.
  destruct (RandomSampleCrop_call_post iou fuel _ s1 s2 wd1 wd2 Ht1 E2)
    as [Ht2 [Hx2 Hy2]].
  specialize (Hx2 Hx1). specialize (Hy2 Hy1).
  assert (Hsz2 : (1 <= width (img_pre s2))%nat /\
                 (1 <= height (img_pre s2))%nat).
  { destruct (call_returns_size iou fuel _ s1 s2 wd1 wd2 Ht1 E2)
      as [-> | (_ & Hcw & _ & Hch & _)]; split; lia. }
  destruct Hsz2 as [Hw2 Hh2].
  (* RandomMirror, ToPercentCoords, Resize, SubtractMeans *)
  apply bind_Ok in H. destruct H as [s3 [wd3 [H3 H]]].
  cbn [Compose_call] in H3.
  apply bind_Ok in H3. destruct H3 as [sm [wdm [Hm H3]]].
  destruct (RandomMirror_post s2 wd2 sm wdm Ht2 Hm) as [Htm [Hym Hxm]].
  specialize (Hym Hy2).
  assert (Hxw : x_within_ok sm).
  { destruct (Hxm Hx2) as [-> | Hr];
      [now apply x_ok_within | now apply x_reversed_within]. }
  destruct (RandomMirror_call_size s2 sm wd2 wdm Hm) as (Mh & Mw & _ & _).
  apply bind_Ok in H3. destruct H3 as [sp [wdp [Hp H3]]].
  unfold ToPercentCoords_call in Hp. apply ret_Ok in Hp.
  destruct Hp as [-> ->].
  apply bind_Ok in H3. destruct H3 as [sr [wdr [Hr H3]]].
  apply bind_Ok in H3. destruct H3 as [ss [wds [Hs H3]]].
  apply ret_Ok in H3. destruct H3 as [-> ->]. rename ss into s3.
  destruct (on_frames_pixels_only _ _ _ _ _ Hr) as (R1 & R2 & _ & R4 & _).
  destruct (on_frames_pixels_only _ _ _ _ _ Hs) as (S1 & S2 & _ & S4 & _).
  apply on_frames_world in Hr, Hs. subst wdr wds.
  cbn [boxes_pre boxes_next img_next] in R1, R2, R4.
  rewrite R1 in S1. rewrite R2 in S2. rewrite R4 in S4.
  (* ResizeShuffleBoxes, FormatBoxes *)
  apply bind_Ok in H. destruct H as [r [wd4 [Hsh H]]].
  apply bind_Ok in H. destruct H as [f0 [wd5 [Hf H]]].
  apply lift_Ok in Hf. destruct Hf as [Hf ->].
  apply ret_Ok in H. destruct H as [H _]. inversion H; subst f0; clear H.
  destruct (img_next s3) as [n3|] eqn:En3.
  - destruct (img_next sm) as [nm|] eqn:Enm;
      [|destruct S4 as [_ S4]; specialize (S4 eq_refl); discriminate S4].
    apply boxes_satisfy_unpack in Hxw, Hym.
    destruct Hxw as [Xp Xn]. destruct Hym as [Yp Yn].
    destruct (Xn nm Enm) as (Nh & Nw & Xb). destruct (Yn nm Enm) as (_ & _ & Yb).
    destruct (ResizeShuffleBoxes_run _ s3 wdm wd4 r Htm Hsh)
      as (ip & _ & _ & _ & Hrest).
    rewrite En3 in Hrest.
    destruct Hrest as (inx & bn3 & lab0 & _ & Eb3 & _).
    rewrite S2 in Eb3. destruct (boxes_next sm) as [bn|] eqn:Ebm;
      [|discriminate Eb3].
    clear Eb3. specialize (Xb bn eq_refl). specialize (Yb bn eq_refl).
    assert (Hin : forall bs,
              Forall (x_within_closed_frame (width (img_pre sm))) bs ->
              Forall (y_in_closed_frame (height (img_pre sm))) bs ->
              Forall (box_within_frame (img_pre sm)) bs).
    { intros bs HX HY. apply Forall_forall. intros b Hb.
      rewrite Forall_forall in HX, HY.
      destruct (HX b Hb) as [[A1 A2] [B1 B2]].
      destruct (HY b Hb) as (C1 & C2 & C3).
      unfold box_within_frame. repeat split; lra. }
    rewrite Nw in Xb. rewrite Nh in Yb.
    assert (Hw0 : (0 < width (img_pre sm))%nat) by lia.
    assert (Hh0 : (0 < height (img_pre sm))%nat) by lia.
    cbn [option_map] in S2.
    destruct (shuffle_format_centers (img_pre sm) max_object s3 n3
                (boxes_pre sm) bn wdm wd4 r f Htm En3 Hw0 Hh0 S1 S2
                (Hin _ Xp Yp) (Hin _ Xb Yb) Hsh Hf)
      as (c1 & c2 & m1 & m2 & F1 & F2 & F3 & F4 & _).
    exists c1, c2, m1, m2.
    split; [exact F1|]. split; [exact F2|]. split; [exact F3 | exact F4].
  - destruct (ResizeShuffleBoxes_call_frames _ _ _ _ _ Hsh) as [_ Er].
    rewrite En3 in Er. unfold FormatBoxes_call, of_shuffled in Hf.
    cbn [t_img_next t_boxes_pre] in Hf. rewrite Er in Hf. discriminate Hf.
Qed.

(** X22.  Under draws in [0, 1), with [max_expand >= 1] and colour
    conversions that keep the frame size, when the chain of type
    ['train'] reaches [ToTensor] on a pair of frames of one size, at
    least 2 x 2, whose boxes have x1 <= x2 and y1 <= y2, each frame comes
    with M centers and a mask of M + 1 entries: a center is in
    [-1, 1] x [-1, 1] where the mask is [True] and is (1.5, 1.5) where it
    is [False], wherever the boxes were given. *)
Theorem train_chain_centers (cfg : config) (mean : list Q) (max_expand : Q)
    (max_object size fuel : nat) (aug : sample -> M (option formatted))
    (s : sample) (next : image) (wd wd' : world) (f : formatted) :
  DANAugmentation_train cvtColor_BGR2HSV cvtColor_HSV2BGR (option formatted)
    (train_tail_formatted iou cv2_resize mean max_expand max_object size fuel)
    cfg = Ok aug ->
  unit_tape wd -> 1 <= max_expand ->
  img_next s = Some next ->
  (2 <= width (img_pre s))%nat -> (2 <= height (img_pre s))%nat ->
  height next = height (img_pre s) -> width next = width (img_pre s) ->
  Forall box_ordered (boxes_pre s) ->
  match boxes_next s with
  | Some bn => Forall box_ordered bn
  | None => True
  end ->
  aug s wd = (Ok (Some f), wd') ->
  exists (cs_pre cs_next : list (coord * coord))
         (mask_pre mask_next : list bool),
    f_boxes_pre f = CentersList cs_pre (Some mask_pre) /\
    f_boxes_next f = CentersList cs_next (Some mask_next) /\
    centers_in_range max_object cs_pre mask_pre /\
    centers_in_range max_object cs_next mask_next.
Proof.
  intros Haug Ht Hmax En Hw Hh Hnh Hnw Hop Hon H.
  unfold DANAugmentation_train in Haug.
  destruct (MoveBoxes_init _ _) as [mv|e]; [|discriminate Haug].
  destruct (PhotometricDistort_init _ _ _ _ _ _) as [ph|e] eqn:Eph;
    [|discriminate Haug].
  inversion Haug; subst aug; clear Haug.
  apply bind_Ok in H. destruct H as [s3 [wd3 [H3 H]]].
  destruct (train_head_in_frame mv _ _ _ _ ph s s3 next wd wd3 Eph Ht En)
    as (Ht3 & Hx3 & Hy3 & Hh3 & Hw3 & _); try assumption; try lia.
  apply (train_tail_centers mean max_expand max_object size fuel s3 wd3 wd' f);
    try assumption; lia.
Qed.

End TrainingChain.

Lemma two_boxes_ordered : Forall box_ordered Examples.two_boxes.
Proof.
  repeat (apply Forall_cons; [unfold box_ordered; cbn; split; discriminate|]).
  apply Forall_nil.
Qed.

(** X22 on a pair of 100 x 100 frames with two boxes each, every draw
    1/2, the colour conversions taken as the identity. *)
Lemma train_chain_centers_witness :
  unit_tape Examples.half_world /\
  Forall box_ordered (boxes_pre Examples.pair3) /\
  exists (aug : sample -> M (option formatted)) (f : formatted) (wd' : world),
    DANAugmentation_train (fun im => im) (fun im => im) (option formatted)
      (train_tail_formatted iou_xywh Cases.resize_blank Cases.mean_pixel 2
                            3 10 3)
      Examples.train_cfg = Ok aug /\
    aug Examples.pair3 Examples.half_world = (Ok (Some f), wd') /\
    exists (cs_pre cs_next : list (coord * coord))
           (mask_pre mask_next : list bool),
      f_boxes_pre f = CentersList cs_pre (Some mask_pre) /\
      f_boxes_next f = CentersList cs_next (Some mask_next) /\
      centers_in_range 3 cs_pre mask_pre /\
      centers_in_range 3 cs_next mask_next.
Proof.
  split; [exact half_world_unit|]. split; [exact two_boxes_ordered|].
  assert (Haug : exists aug,
             DANAugmentation_train (fun im => im) (fun im => im)
               (option formatted)
               (train_tail_formatted iou_xywh Cases.resize_blank
                                     Cases.mean_pixel 2 3 10 3)
               Examples.train_cfg = Ok aug)
    by (eexists; reflexivity).
  destruct Haug as [aug Haug].
  assert (Hrun : exists f wd',
             aug Examples.pair3 Examples.half_world = (Ok (Some f), wd')).
  { inversion Haug; subst aug. eexists. eexists. lazy. reflexivity. }
  destruct Hrun as (f & wd' & Hrun). exists aug, f, wd'.
  split; [exact Haug|]. split; [exact Hrun|].
  apply (train_chain_centers iou_xywh (fun im => im) (fun im => im)
           Cases.resize_blank
           (fun im => conj eq_refl eq_refl) (fun im => conj eq_refl eq_refl)
           Examples.train_cfg Cases.mean_pixel 2 3 10 3 aug Examples.pair3
           Examples.frame100 Examples.half_world wd' f Haug half_world_unit).
  - discriminate.
  - reflexivity.
  - cbn. lia.
  - cbn. lia.
  - reflexivity.
  - reflexivity.
  - exact two_boxes_ordered.
  - exact two_boxes_ordered.
  - exact Hrun.
Defined.

(** ** When the evaluation chains return *)

Section EvaluationReturns.

Variable cv2_resize : image -> nat -> result image.

Lemma evaluation_head_runs (mean : list Q) (size : nat) (s : sample)
    (pre : image) (wd : world) :
  cv2_resize (img_pre s) size = Ok pre ->
  broadcasts_to (length mean) (depth pre) = true ->
  match img_next s with
  | None => True
  | Some next =>
      boxes_next s <> None /\
      exists nxt, cv2_resize next size = Ok nxt /\
                  broadcasts_to (length mean) (depth nxt) = true
  end ->
  exists s1, evaluation_head cv2_resize mean size s wd = (Ok s1, wd).
Proof.
  intros Hp Hb Hn. unfold evaluation_head. cbn [Compose_call].
  unfold ConvertFromInts_call, ToPercentCoords_call, Resize_call,
    SubtractMeans_call, on_frames, subtract_mean.
  destruct (img_next s) as [next|].
  - destruct Hn as (Hbn & nxt & Hnx & Hbx).
    destruct (boxes_next s) as [bn|]; [|contradiction].
    cbv [bind ret lift]. cbn [img_pre img_next]. rewrite Hp.
    cbn [img_pre img_next]. rewrite Hnx. cbn [img_pre img_next].
    rewrite Hb. cbn [img_pre img_next]. rewrite Hbx.
    eexists. reflexivity.
  - cbv [bind ret lift]. cbn [img_pre img_next]. rewrite Hp.
    cbn [img_pre img_next]. rewrite Hb. eexists. reflexivity.
Qed.

(** X23.  The chain of type ['val'] reaches [ToTensor] on every pair
    that comes with boxes for its second frame, at most M boxes per frame
    and a matrix of at least M rows and M columns, provided [cv2.resize]
    returns for both frames and the mean broadcasts to their channels. *)
Theorem val_chain_returns (mean : list Q) (size max_object : nat)
    (s : sample) (next pre nxt : image) (bn : list box) (lab : matrix)
    (wd : world) :
  img_next s = Some next -> boxes_next s = Some bn -> labels s = Some lab ->
  (length (boxes_pre s) <= max_object)%nat ->
  (length bn <= max_object)%nat ->
  (max_object <= nrow lab)%nat -> (max_object <= ncol lab)%nat ->
  cv2_resize (img_pre s) size = Ok pre -> cv2_resize next size = Ok nxt ->
  broadcasts_to (length mean) (depth pre) = true ->
  broadcasts_to (length mean) (depth nxt) = true ->
  exists f wd',
    val_formatted cv2_resize mean size max_object s wd = (Ok f, wd').
Proof.
  intros En Eb El Hp Hn Hr Hc Rp Rn Bp Bn.
  destruct (evaluation_head_runs mean size s pre wd Rp Bp) as [s1 H1].
  { rewrite En, Eb. split; [discriminate|]. exists nxt. split; assumption. }
  destruct (evaluation_head_returns cv2_resize mean size s s1 wd wd H1)
    as (B1 & B2 & B3 & B4 & _).
  destruct (img_next s1) as [n1|] eqn:En1;
    [|rewrite En in B4; destruct B4 as [B4 _]; specialize (B4 eq_refl);
      discriminate B4].
  rewrite Eb in B2. cbn [option_map] in B2. rewrite El in B3.
  destruct (ResizeShuffleBoxes_returns (mkResizeShuffleBoxes max_object) s1 n1
              _ lab wd En1 B2 B3) as (r & wd2 & H2);
    cbn [rsb_max_object]; rewrite ?B1, ?length_map; try assumption.
  destruct (ResizeShuffleBoxes_call_frames _ _ _ _ _ H2) as [_ Er].
  destruct (ResizeShuffleBoxes_paired _ s1 n1 wd wd2 r En1 H2)
    as (ip & inx & sp & sn & lab0 & _ & _ & _ & _ & Hm & _).
  unfold val_formatted, bind. rewrite H1, H2.
  unfold FormatBoxes_call, of_shuffled.
  cbn [t_img_next t_boxes_pre t_boxes_next t_img_pre t_labels format_item].
  rewrite Er, En1.
  destruct (sh_boxes_next r) as [[rows|] mask] eqn:Ebn.
  - cbn [fst snd format_item lift]. eexists. eexists. reflexivity.
  - exfalso. unfold ResizeShuffleBoxes_call in H2.
    apply bind_Ok in H2. destruct H2 as [[size_pre bp] [wda [_ H2]]].
    apply bind_Ok in H2. destruct H2 as [ixp [wdb [_ H2]]].
    rewrite En1, B2 in H2.
    apply bind_Ok in H2. destruct H2 as [[size_next bn'] [wdc [_ H2]]].
    apply bind_Ok in H2. destruct H2 as [ixn [wdd [_ H2]]].
    rewrite B3 in H2.
    destruct (negb _); [discriminate H2|].
    destruct (negb _); [discriminate H2|].
    apply ret_Ok in H2. destruct H2 as [-> _]. discriminate Ebn.
Qed.

(** X24.  The chain of the other types (['test']) reaches [ToTensor] on
    every single frame, whatever its boxes, provided [cv2.resize] returns
    and the mean broadcasts to the channels. *)
Theorem test_chain_returns (mean : list Q) (size : nat) (s : sample)
    (pre : image) (wd : world) :
  img_next s = None ->
  cv2_resize (img_pre s) size = Ok pre ->
  broadcasts_to (length mean) (depth pre) = true ->
  exists f, test_formatted cv2_resize mean size s wd = (Ok f, wd).
Proof.
  intros En Rp Bp.
  destruct (evaluation_head_runs mean size s pre wd Rp Bp) as [s1 H1].
  { rewrite En. exact I. }
  destruct (evaluation_head_returns cv2_resize mean size s s1 wd wd H1)
    as (_ & _ & _ & B4 & _).
  apply B4 in En. unfold test_formatted, bind. rewrite H1.
  unfold FormatBoxes_call, of_sample. cbn [t_img_next t_boxes_pre].
  rewrite En. cbn [lift]. eexists. reflexivity.
Qed.

End EvaluationReturns.

(** X23 on a pair with two boxes per frame at capacity 3. *)
Lemma val_chain_returns_witness :
  exists f wd',
    val_formatted Cases.resize_blank Cases.mean_pixel 10 3 Examples.pair3
                  Examples.half_world = (Ok f, wd').
Proof.
  apply (val_chain_returns Cases.resize_blank Cases.mean_pixel 10 3
           Examples.pair3 Examples.frame100
           (mkImage 10 10 3 (fun _ _ _ => 0)) (mkImage 10 10 3 (fun _ _ _ => 0))
           Examples.two_boxes Examples.lab3 Examples.half_world);
    try reflexivity; cbn; lia.
Defined.

(** X24 on a single frame with two boxes. *)
Lemma test_chain_returns_witness :
  exists f,
    test_formatted Cases.resize_blank Cases.mean_pixel 10
                   Examples.single_sample Examples.half_world
    = (Ok f, Examples.half_world).
Proof.
  apply (test_chain_returns Cases.resize_blank Cases.mean_pixel 10
           Examples.single_sample (mkImage 10 10 3 (fun _ _ _ => 0))
           Examples.half_world); reflexivity.
Defined.

(** ** The training chain needs the matrix *)

Lemma Expand_call_labels (self : Expand) (s s' : sample) (wd wd' : world) :
  Expand_call self s wd = (Ok s', wd') -> labels s' = labels s.
Proof.
  intro H. apply Expand_call_returned in H. cbv zeta in H.
  destruct H as [-> | (pre & _ & H)]; [reflexivity|].
  destruct (img_next s) as [next|].
  - destruct H as (nxt & bn & _ & _ & ->). reflexivity.
  - rewrite H. reflexivity.
Qed.

Lemma MoveBoxes_call_labels (self : MoveBoxes) (s s' : sample)
    (wd wd' : world) :
  MoveBoxes_call self s wd = (Ok s', wd') -> labels s' = labels s.
Proof.
  intro H. unfold MoveBoxes_call in H.
  apply bind_Ok in H. destruct H as (bp & wd1 & _ & H).
  destruct (boxes_next s) as [bn|].
  - destruct (img_next s) as [next|]; [|discriminate H].
    apply bind_Ok in H. destruct H as (bn' & wd2 & _ & H).
    apply ret_Ok in H. destruct H as [-> _]. reflexivity.
  - apply ret_Ok in H. destruct H as [-> _]. reflexivity.
Qed.

Section TrainingNeedsLabels.

Variable iou : list (Q * Q * Q * Q) -> Q * Q * Q * Q -> list Q.
Variables cvtColor_BGR2HSV cvtColor_HSV2BGR : image -> image.
Variable cv2_resize : image -> nat -> result image.

(** X25.  The chain of type ['train'] needs the correspondence matrix:
    on a sample that comes without one it never reaches [ToTensor],
    whatever is drawn.  [RandomSampleCrop] can only hand such a sample
    on as it is, and [ResizeShuffleBoxes] or [FormatBoxes] then raise. *)
Theorem train_chain_needs_labels (cfg : config) (mean : list Q)
    (max_expand : Q) (max_object size fuel : nat)
    (aug : sample -> M (option formatted)) (s : sample) (wd : world) :
  DANAugmentation_train cvtColor_BGR2HSV cvtColor_HSV2BGR (option formatted)
    (train_tail_formatted iou cv2_resize mean max_expand max_object size fuel)
    cfg = Ok aug ->
  labels s = None ->
  ~ exists f wd', aug s wd = (Ok (Some f), wd').
Proof.
  intros Haug Hl (f & wd' & H).
  unfold DANAugmentation_train in Haug.
  destruct (MoveBoxes_init _ _) as [mv|e]; [|discriminate Haug].
  destruct (PhotometricDistort_init _ _ _ _ _ _) as [ph|e] eqn:Eph;
    [|discriminate Haug].
  inversion Haug; subst aug; clear Haug.
  apply bind_Ok in H. destruct H as [s3 [wd3 [H3 H]]].
  (* the head keeps the matrix *)
  cbn [Compose_call] in H3.
  apply bind_Ok in H3. destruct H3 as [sa [wda [Ha H3]]].
  apply bind_Ok in H3. destruct H3 as [sb [wdb [Hb H3]]].
  apply bind_Ok in H3. destruct H3 as [sc [wdc [Hc H3]]].
  apply ret_Ok in H3. destruct H3 as [-> ->].
  assert (La : labels sa = None).
  { unfold ConvertFromInts_call in Ha. destruct (img_next s).
    - destruct (boxes_next s); [|discriminate Ha].
      apply ret_Ok in Ha. destruct Ha as [-> _]. exact Hl.
    - apply ret_Ok in Ha. destruct Ha as [-> _]. exact Hl. }
  assert (Lb : labels sb = None)
    by (rewrite (MoveBoxes_call_labels _ _ _ _ _ Hb); exact La).
  assert (Lc : labels sc = None).
  { destruct (PhotometricDistort_call_pixels_only _ _ _ _ _ _ ph Eph
                _ _ _ _ Hc) as (_ & _ & E & _). congruence. }
  (* Expand and RandomSampleCrop *)
  unfold train_tail_formatted in H.
  destruct (Expand_call (mkExpand mean max_expand) sc wdc)
    as [[s1|e] wd1] eqn:E1; [|discriminate H].
  assert (L1 : labels s1 = None)
    by (rewrite (Expand_call_labels _ _ _ _ _ E1); exact Lc).
  destruct (RandomSampleCrop_call iou fuel (RandomSampleCrop_init max_object)
                                  s1 wd1) as [[[s2|e]|] wd2] eqn:E2;
    try discriminate H.
  assert (E : s2 = s1) by exact (call_needs_labels iou fuel _ s1 s2 wd1 wd2 L1 E2).
  subst s2.
  (* the rest of the chain *)
  apply bind_Ok in H. destruct H as [s4 [wd4 [H4 H]]].
  cbn [Compose_call] in H4.
  apply bind_Ok in H4. destruct H4 as [sm [wdm [Hm H4]]].
  destruct (RandomMirror_call_size s1 sm wd2 wdm Hm) as (_ & _ & Lm & _).
  apply bind_Ok in H4. destruct H4 as [sp [wdp [Hp H4]]].
  unfold ToPercentCoords_call in Hp. apply ret_Ok in Hp.
  destruct Hp as [-> ->].
  apply bind_Ok in H4. destruct H4 as [sr [wdr [Hr H4]]].
  apply bind_Ok in H4. destruct H4 as [ss [wds [Hs H4]]].
  apply ret_Ok in H4. destruct H4 as [-> ->].
  destruct (on_frames_pixels_only _ _ _ _ _ Hr) as (_ & _ & R3 & _).
  destruct (on_frames_pixels_only _ _ _ _ _ Hs) as (_ & _ & S3 & _).
  cbn [labels] in R3.
  assert (L4 : labels ss = None) by congruence.
  apply bind_Ok in H. destruct H as [r [wd5 [Hsh H]]].
  apply bind_Ok in H. destruct H as [f0 [wd6 [Hf _]]].
  apply lift_Ok in Hf. destruct Hf as [Hf _].
  destruct (img_next ss) as [n4|] eqn:En4.
  - destruct (ResizeShuffleBoxes_paired _ ss n4 wds wd5 r En4 Hsh)
      as (ip & inx & sp & sn & lab0 & _ & _ & El & _).
    congruence.
  - destruct (ResizeShuffleBoxes_call_frames _ _ _ _ _ Hsh) as [_ Er].
    rewrite En4 in Er. unfold FormatBoxes_call, of_shuffled in Hf.
    cbn [t_img_next t_boxes_pre] in Hf. rewrite Er in Hf. discriminate Hf.
Qed.

End TrainingNeedsLabels.

(** X25 on a pair that comes without a matrix. *)
Lemma train_chain_needs_labels_witness :
  exists aug : sample -> M (option formatted),
    DANAugmentation_train (fun im => im) (fun im => im) (option formatted)
      (train_tail_formatted iou_xywh Cases.resize_blank Cases.mean_pixel 2
                            3 10 3)
      Examples.train_cfg = Ok aug /\
    labels Cases.unlabelled_pair = None /\
    ~ exists f wd',
        aug Cases.unlabelled_pair Examples.half_world = (Ok (Some f), wd').
Proof.
  assert (Haug : exists aug,
             DANAugmentation_train (fun im => im) (fun im => im)
               (option formatted)
               (train_tail_formatted iou_xywh Cases.resize_blank
                                     Cases.mean_pixel 2 3 10 3)
               Examples.train_cfg = Ok aug)
    by (eexists; reflexivity).
  destruct Haug as [aug Haug]. exists aug. split; [exact Haug|].
  split; [reflexivity|].
  exact (train_chain_needs_labels iou_xywh (fun im => im) (fun im => im)
           Cases.resize_blank Examples.train_cfg Cases.mean_pixel 2 3 10 3
           aug Cases.unlabelled_pair Examples.half_world Haug eq_refl).
Defined.
